(** * The crawl-and-cache pipeline of [src/crawler.py]

    A shallow embedding of the crawler: the retrying fetcher [get_soup], the
    two extractors ([load_config_from_web], [parse_webpage]), the validator
    [is_valid_config], the chunked reader [load_from_file] and the two cache
    gates ([load_config], [load_data]).

    Python values are a universal type [value]; a [dict] is an association
    list in insertion order.  Effects (the file system, the requests made,
    the lines printed) are threaded through a state-and-exception monad [M].
    What the program only calls (the HTTP transport, the HTML parser, the
    JSON codec, the builtins [int] and [str.strip]) is a field of the class
    [Collaborators]. *)

From Stdlib Require Import Ascii.
From stdpp Require Import base strings list gmap pretty.
From Equations Require Import Equations.

Set Warnings "-register-all".
Local Open Scope string_scope.

(** ** Python values *)

(** [VFloat] keeps the literal only: no claim computes with floats. *)
Inductive value :=
| VNone
| VBool (b : bool)
| VInt (n : Z)
| VFloat (literal : string)
| VStr (s : string)
| VList (items : list value)
| VDict (items : list (string * value)).

(** A [dict] with [str] keys, in insertion order. *)
Abbreviation dict := (list (string * value)).

(** [d[k]] as a lookup: the first (and, in a dict, only) entry of key [k]. *)
Fixpoint dict_get {V} (k : string) (d : list (string * V)) : option V :=
  match d with
  | [] => None
  | (k', v) :: d' => if String.eqb k k' then Some v else dict_get k d'
  end.

(** [d[k] = v]: replaces the value in place when [k] is a key, appends the
    entry otherwise. *)
Fixpoint dict_set {V} (k : string) (v : V) (d : list (string * V))
  : list (string * V) :=
  match d with
  | [] => [(k, v)]
  | (k', v') :: d' =>
      if String.eqb k k' then (k, v) :: d' else (k', v') :: dict_set k v d'
  end.

(** [k in d] *)
Definition dict_mem {V} (k : string) (d : list (string * V)) : bool :=
  match dict_get k d with Some _ => true | None => false end.

(** [list(d)]: the keys, in insertion order. *)
Definition dict_keys {V} (d : list (string * V)) : list string := d.*1.

(** [{k: v for k, v in pairs}] *)
Definition dict_of_pairs {V} (pairs : list (string * V)) : list (string * V) :=
  foldl (λ d kv, dict_set kv.1 kv.2 d) [] pairs.

(** Two dicts hold the same key-value structure (Python's [==] on dicts
    whose values are equal): every key looks up the same. *)
Definition same_mapping {V} (d1 d2 : list (string * V)) : Prop :=
  ∀ k, dict_get k d1 = dict_get k d2.

(** Two values under one key agree: two dicts hold the same key-value
    structure, anything else is equal. *)
Definition same_value (v1 v2 : value) : Prop :=
  match v1, v2 with
  | VDict e1, VDict e2 => same_mapping e1 e2
  | _, _ => v1 = v2
  end.

(** The same, one level down: the dicts have the same keys and the values
    under each key agree. *)
Definition same_mapping2 (d1 d2 : dict) : Prop :=
  ∀ k,
    match dict_get k d1, dict_get k d2 with
    | None, None => True
    | Some v1, Some v2 => same_value v1 v2
    | _, _ => False
    end.

(** ** Python strings *)

(** The part of [s] before the first [sep] and the part after it. *)
Fixpoint str_partition (sep : ascii) (s : string) : option (string * string) :=
  match s with
  | EmptyString => None
  | String c s' =>
      if Ascii.eqb c sep then Some (EmptyString, s')
      else match str_partition sep s' with
           | Some (before, after) => Some (String c before, after)
           | None => None
           end
  end.

(** [s.split(sep, 1)] for a one-character separator. *)
Definition str_split_1 (sep : ascii) (s : string) : list string :=
  match str_partition sep s with
  | Some (before, after) => [before; after]
  | None => [s]
  end.

Fixpoint str_take (n : nat) (s : string) : string :=
  match n, s with
  | S n', String c s' => String c (str_take n' s')
  | _, _ => EmptyString
  end.

Fixpoint str_drop (n : nat) (s : string) : string :=
  match n, s with
  | S n', String c s' => str_drop n' s'
  | _, _ => s
  end.

(** [sep.join(parts)] with the empty separator. *)
Definition str_join (parts : list string) : string :=
  foldr String.append EmptyString parts.

(** ** Exceptions *)

Inductive exn :=
| ElementNotFoundError (element_description : string)
| MissingAttributeError (element_name attr_name : string)
| TimeoutException (url : string)
| HTTPStatusError (url : string) (status_code : Z)
| RequestError (url : string)
| InvalidURL (url : string)
| FileNotFoundError (filename : string)
| JSONDecodeError
| ValueError
| OverflowError
| AttributeError (attribute : string)
| KeyError (key : string)
| TypeError.

(** [isinstance(exc, ValueError)]: [json.JSONDecodeError] is a subclass. *)
Definition is_ValueError (exc : exn) : bool :=
  match exc with
  | JSONDecodeError | ValueError => true
  | _ => false
  end.

Inductive result (A : Type) :=
| Return (a : A)
| Raise (exc : exn).
Arguments Return {A} a.
Arguments Raise {A} exc.

#[global] Instance result_ret : MRet result := λ A a, Return a.
#[global] Instance result_bind : MBind result := λ A B f r,
  match r with
  | Return a => f a
  | Raise exc => Raise exc
  end.

(** ** Text files *)

Definition CR : ascii := "013"%char.
Definition LF : ascii := "010"%char.

(** What [open(filename, "r")] makes of the text of a file: in text mode
    with the default [newline=None], a carriage return followed by a line
    feed, and a carriage return alone, are both read as one line feed.  An
    element of a [string] stands for one character of the decoded text. *)
Fixpoint universal_newlines (s : string) : string :=
  match s with
  | EmptyString => EmptyString
  | String c rest =>
      if Ascii.eqb c CR then
        String LF
          match rest with
          | String c' rest' =>
              if Ascii.eqb c' LF then universal_newlines rest'
              else universal_newlines rest
          | EmptyString => EmptyString
          end
      else String c (universal_newlines rest)
  end.

(** [sys.maxsize]: a size is passed to [file.read] as a C [ssize_t], of 64
    bits. *)
Definition sys_maxsize : Z := 2 ^ 63 - 1.

(** An open text file is the text not read yet.  [file.read(size)] raises
    [OverflowError] when [size] does not fit a [ssize_t]; otherwise it hands
    out at most [size] characters, everything left when [size] is negative,
    and leaves the rest. *)
Definition file_read (size : Z) (file : string) : result (string * string) :=
  if (size <? - sys_maxsize - 1)%Z || (sys_maxsize <? size)%Z
  then Raise OverflowError
  else if (size <? 0)%Z then Return (file, EmptyString)
  else Return (str_take (Z.to_nat size) file, str_drop (Z.to_nat size) file).

Definition inspect {A} (a : A) : {b | a = b} := exist _ a eq_refl.

(** [while True: chunk = file.read(chunk_size); if not chunk: break;
    buffer.append(chunk)].  The loop ends because a chunk that is not empty
    shortens what is left of the file. *)
Equations? read_chunks (chunk_size : Z) (file : string) (buffer : list string)
  : result (list string) by wf (String.length file) lt :=
read_chunks chunk_size file buffer
    with inspect (file_read chunk_size file) := {
  | exist _ (Raise exc) _ := Raise exc
  | exist _ (Return (EmptyString, _)) _ := Return buffer
  | exist _ (Return (String c chunk, rest)) Hchunk :=
      read_chunks chunk_size rest (buffer ++ [String c chunk]) }.
Proof.
  clear read_chunks. revert Hchunk. unfold file_read.
  destruct (_ || _); [done|].
  destruct (chunk_size <? 0)%Z; simpl.
  - intros [= -> <-]. simpl. lia.
  - generalize (Z.to_nat chunk_size) as n. intros n. revert file rest.
    induction n as [|n IH]; intros [|a file] rest; simpl; try done.
    intros [= _ _ <-]. clear IH. revert file.
    induction n as [|n IH]; intros [|b file]; simpl; try lia.
    specialize (IH file). lia.
Qed.

(** ** Documents (bs4) *)

Inductive node :=
| Tag (name : string) (attrs : list (string * string)) (contents : list node)
| NavigableString (text : string).

(** [tag.descendants]: document order, the tag itself excluded. *)
Fixpoint descendants (n : node) : list node :=
  match n with
  | Tag _ _ contents => flat_map (λ c, c :: descendants c) contents
  | NavigableString _ => []
  end.

Definition is_tag_named (name : string) (n : node) : bool :=
  match n with
  | Tag name' _ _ => String.eqb name name'
  | NavigableString _ => false
  end.

Definition has_id (id : string) (n : node) : bool :=
  match n with
  | Tag _ attrs _ =>
      match dict_get "id" attrs with
      | Some id' => String.eqb id id'
      | None => false
      end
  | NavigableString _ => false
  end.

(** [tag.find_all(name)] *)
Definition find_all (name : string) (n : node) : list node :=
  List.filter (is_tag_named name) (descendants n).

(** [tag.find(name)], also written [tag.name] *)
Definition find (name : string) (n : node) : option node :=
  head (find_all name n).

(** [tag.find(id=id)] *)
Definition find_id (id : string) (n : node) : option node :=
  head (List.filter (has_id id) (descendants n)).

(** [tag.text] *)
Fixpoint get_text (n : node) : string :=
  match n with
  | Tag _ _ contents => str_join (map get_text contents)
  | NavigableString text => text
  end.

(** [tag.attrs] *)
Definition tag_attrs (n : node) : list (string * string) :=
  match n with
  | Tag _ attrs _ => attrs
  | NavigableString _ => []
  end.

(** ** The world: files, requests made, lines printed *)

(** [fs] maps the name of a file to its text.  [requests] lists the URLs
    [client.get] was called with, in the order of the calls, whatever each
    call met.  [stdout] lists the lines printed. *)

Record world := World {
  fs : gmap string string;
  requests : list string;
  stdout : list string;
}.

Definition M (A : Type) : Type := world → result A * world.

#[global] Instance M_ret : MRet M := λ A a w, (Return a, w).
#[global] Instance M_bind : MBind M := λ A B f m w,
  match m w with
  | (Return a, w') => f a w'
  | (Raise exc, w') => (Raise exc, w')
  end.

Definition raise {A} (exc : exn) : M A := λ w, (Raise exc, w).

Definition lift {A} (r : result A) : M A := λ w, (r, w).

(** [try: body / except Exception as exc: handler(exc)] *)
Definition try_except {A} (body : M A) (handler : exn → M A) : M A := λ w,
  match body w with
  | (Return a, w') => (Return a, w')
  | (Raise exc, w') => handler exc w'
  end.

(** The outcome of a block, caught for the [except] clauses to inspect. *)
Definition attempt {A} (body : M A) : M (result A) := λ w,
  let '(r, w') := body w in (Return r, w').

Definition print (line : string) : M unit := λ w,
  (Return (), World (fs w) (requests w) (stdout w ++ [line])).

(** [open(filename, "w")] followed by the writes of [contents]; a line feed
    is written as it is ([os.linesep] of a POSIX system). *)
Definition write_file (filename contents : string) : M unit := λ w,
  (Return (), World (<[filename := contents]> (fs w)) (requests w) (stdout w)).

(** A loop over a list that threads the mutated object. *)
Fixpoint for_each {A S} (l : list A) (body : A → S → result S) (acc : S)
  : result S :=
  match l with
  | [] => Return acc
  | x :: l' => acc' ← body x acc; for_each l' body acc'
  end.

(** ** Collaborators *)

Record Response := { status_code : Z; text : string }.

(** What a GET meets. *)
Inductive http_outcome :=
| Responds (response : Response)
| TimesOut
| Fails
| Invalid.

(** The environment of the program.  [transport n url] is what the call of
    [client.get] for [url] meets when [n] calls were made before it in the
    run: a response, a timeout, another failure of the request, or a [url]
    the client refuses to parse (one with a control character in it);
    [BeautifulSoup] is the parser ([PARSER] fixed); [json_loads] is [None]
    where [json.loads] raises [JSONDecodeError]; [json_dumps] is
    [json.dumps] with [ensure_ascii=False, indent=2]; [int] is [None] where
    [int(s)] raises [ValueError]; [source_dictionary] is the directory of
    the source file. *)
Class Collaborators := {
  transport : nat → string → http_outcome;
  BeautifulSoup : string → node;
  json_loads : string → option value;
  json_dumps : value → string;
  int : string → option Z;
  str_strip : string → string;
  source_dictionary : string;
}.

(** ** The program *)

Section crawler.
Context `{Collaborators}.

Definition abs_path (filename : string) : string :=
  source_dictionary +:+ "/" +:+ filename.

Definition URL : string := "https://pleagueofficial.com/stat-player".
Definition CONFIG_FILENAME : string := abs_path "url.json".
Definition DATA_FILENAME : string := abs_path "output.json".
Definition PER_MODE : list (string * string) :=
  [("累計數據", "data-total"); ("平均數據", "data-avg")].
Definition STATS_NAME : list (string * string) :=
  [("背號", "JERSEY_NUMBER"); ("球隊", "TEAM"); ("出賽次數", "GP");
   ("時間 (分)", "MIN"); ("兩分命中", "FGM2PT"); ("兩分出手", "FGA2PT");
   ("兩分%", "2PT_PCT"); ("三分命中", "FGM3PT"); ("三分出手", "FGA3PT");
   ("三分%", "3PT_PCT"); ("罰球命中", "FTM"); ("罰球出手", "FTA");
   ("罰球%", "FT_PCT"); ("得分", "PTS"); ("攻板", "OREB"); ("防板", "DREB");
   ("籃板", "REB"); ("助攻", "AST"); ("抄截", "STL"); ("阻攻", "BLK");
   ("失誤", "TOV"); ("犯規", "PF")].

(** The default of the [retries] parameter. *)
Definition default_retries : nat := 2.

(** The default of the [chunk_size] parameter. *)
Definition default_chunk_size : Z := 1024.

(** *** Fetcher *)

(** [await client.get(url, follow_redirects=True)]: the call is recorded
    and meets what the transport decides.  [httpx.InvalidURL] is no
    [httpx.RequestError]. *)
Definition client_get (url : string) : M Response := λ w,
  let w' := World (fs w) (requests w ++ [url]) (stdout w) in
  match transport (length (requests w)) url with
  | Responds response => (Return response, w')
  | TimesOut => (Raise (TimeoutException url), w')
  | Fails => (Raise (RequestError url), w')
  | Invalid => (Raise (InvalidURL url), w')
  end.

(** [response.is_success]: the status is 2xx. *)
Definition is_success (response : Response) : bool :=
  (200 <=? status_code response)%Z && (status_code response <? 300)%Z.

(** [response.raise_for_status()] *)
Definition raise_for_status (url : string) (response : Response) : M unit :=
  if is_success response then mret ()
  else raise (HTTPStatusError url (status_code response)).

(** [retries] is only ever compared with 0 and decremented; a negative
    budget behaves as 0. *)
Fixpoint get_soup (url : string) (retries : nat) : M node :=
  response ← try_except
    (response ← client_get url;
     raise_for_status url response;;
     mret response)
    (λ exc,
      match exc with
      | TimeoutException _ =>
          match retries with
          | S retries => get_soup url retries;; mret ()
          | O => mret ()
          end;;
          print (url +:+ " reached maximum retry attempts, "
                     +:+ "unable to complete request.");;
          raise exc
      | HTTPStatusError _ status_code =>
          print ("Request to " +:+ url
                 +:+ " received an HTTP response status code: "
                 +:+ pretty status_code);;
          raise exc
      | RequestError _ =>
          print ("Error occurred while making a request to " +:+ url);;
          raise exc
      | _ => raise exc
      end);
  mret (BeautifulSoup (text response)).

Definition get_season (season : string) (retries : nat) : M (node * string) :=
  soup ← get_soup (URL +:+ "/" +:+ season) retries;
  mret (soup, season).

(** *** Tasks *)

(** A task holds the outcome of its coroutine.  The coroutine is run when
    the task is created: the requests of one task are recorded together,
    task after task in creation order.  In what order the tasks complete is
    decided apart, by a schedule.  (asyncio starts the tasks in creation
    order and interleaves them at their awaits: in a run, the retries of
    one task may be recorded after the first request of the next.  What
    each request meets is left to the transport in every case.) *)
Definition task (A : Type) : Type := result A.

Definition create_task {A} (coro : M A) : M (task A) := attempt coro.

Definition await {A} (t : task A) : M A := lift t.

(** The order in which [asyncio.wait(tasks, FIRST_COMPLETED)], called until
    no task is pending, hands the tasks out: each time, the schedule picks
    one of the pending tasks.  Every schedule hands out every task once. *)
Fixpoint completion_order {A} (n : nat) (sched : list nat) (pending : list A)
  : list A :=
  match n, pending with
  | S n', first :: _ =>
      let i := hd 0 sched mod length pending in
      nth i pending first :: completion_order n' (tl sched) (delete i pending)
  | _, _ => []
  end.

Definition as_completed {A} (sched : list nat) (tasks : list A) : list A :=
  completion_order (length tasks) sched tasks.

(** [while tasks: done, tasks = await asyncio.wait(...); for task in done:
    result = await task; body] *)
Fixpoint wait_loop {A S} (done : list (task A)) (body : A → S → result S)
    (acc : S) : M S :=
  match done with
  | [] => mret acc
  | t :: done' =>
      r ← await t;
      acc' ← lift (body r acc);
      wait_loop done' body acc'
  end.

(** *** Config resolver *)

(** The inner loop: one entry of [season_config] per option. *)
Definition add_season_type (season : string) (option : node)
    (season_config : dict) : result dict :=
  let season_type := get_text option in
  if dict_mem "value" (tag_attrs option) then
    match dict_get "value" (tag_attrs option) with
    | Some season_type_value =>
        Return (dict_set season_type
                  (VStr (URL +:+ "/" +:+ season +:+ "/" +:+ season_type_value
                             +:+ "#record"))
                  season_config)
    | None => Raise (KeyError "value")
    end
  else Raise (MissingAttributeError "option" "value").

(** The body of [for task in done]; [config[season]] and [season_config]
    are one object. *)
Definition merge_season (done : node * string) (config : dict) : result dict :=
  let '(soup, season) := done in
  match find_id "stage_sn" soup with
  | None => Raise (ElementNotFoundError "id='stage_sn'")
  | Some stage_name_element =>
      let options := find_all "option" stage_name_element in
      if (length options =? 0)%nat then Raise (ElementNotFoundError "option")
      else
        let config := dict_set season (VDict []) config in
        season_config ← for_each options (add_season_type season) [];
        Return (dict_set season (VDict season_config) config)
  end.

Definition load_config_from_web (sched : list nat) : M value :=
  soup ← get_soup URL default_retries;
  match find_id "season_name" soup with
  | None => raise (ElementNotFoundError "id='season_name'")
  | Some season_name_element =>
      let seasons := get_text <$> find_all "option" season_name_element in
      if (length seasons =? 0)%nat then raise (ElementNotFoundError "option")
      else
        tasks ← mapM (λ s, create_task (get_season s default_retries)) seasons;
        config ← wait_loop (as_completed sched tasks) merge_season [];
        mret (VDict config)
  end.

(** *** Validation *)

Definition default_season_type : list string :=
  ["例行賽"; "季後賽"; "總冠軍賽"].

Definition check_season_type (season_type : string) (_ : unit) : result unit :=
  if bool_decide (season_type ∈ default_season_type) then Return ()
  else Raise ValueError.

(** The body of [for season in config].  [map(int, ...)] unpacked into two
    names raises [ValueError] when a part is no integer and when there are
    not two parts. *)
Definition check_season (config : dict) (season : string) (_ : unit)
  : result unit :=
  match dict_get season config with
  | Some (VDict season_config) =>
      match str_split_1 "-"%char season with
      | [first; second] =>
          match int first with
          | Some first_year =>
              match int second with
              | Some second_year =>
                  if bool_decide ((first_year `mod` 100 + 1)%Z ≠ second_year)
                  then Raise ValueError
                  else for_each (dict_keys season_config) check_season_type ()
              | None => Raise ValueError
              end
          | None => Raise ValueError
          end
      | _ => Raise ValueError
      end
  | Some _ => Raise ValueError
  | None => Raise (KeyError season)
  end.

Definition is_valid_config (config : value) : result unit :=
  match config with
  | VDict config => for_each (dict_keys config) (check_season config) ()
  | _ => Raise ValueError
  end.
(** *** Reading a file *)

(** [open] comes first: a file that is absent is reported before any read. *)
Definition load_from_file (filename : string) (chunk_size : Z) : M string :=
  λ w,
  match fs w !! filename with
  | None => (Raise (FileNotFoundError filename), w)
  | Some contents =>
      (buffer ← read_chunks chunk_size (universal_newlines contents) [];
       Return (str_join buffer), w)
  end.

(** [json.loads(s)] *)
Definition loads (s : string) : M value :=
  match json_loads s with
  | Some v => mret v
  | None => raise JSONDecodeError
  end.

(** *** Cache gate of the config *)

(** The body of the [try]. *)
Definition read_config : M value :=
  contents ← load_from_file CONFIG_FILENAME default_chunk_size;
  config ← loads contents;
  lift (is_valid_config config);;
  mret config.

(** The [except] clauses, the same in both gates: a missing file is
    reported, a [ValueError] (a [JSONDecodeError] is one) is passed over,
    any other exception propagates. *)
Definition except_cache (filename : string) (exc : exn) : M unit :=
  match exc with
  | FileNotFoundError _ =>
      print ("找不到 " +:+ filename +:+ ". 從 Pleague 下載.")
  | _ => if is_ValueError exc then mret () else raise exc
  end.

(** The statements after the [try]. *)
Definition refresh_config (sched : list nat) : M value :=
  config ← load_config_from_web sched;
  write_file CONFIG_FILENAME (json_dumps config);;
  mret config.

Definition load_config (sched : list nat) : M value :=
  cached ← attempt read_config;
  match cached with
  | Return config => mret config
  | Raise exc => except_cache CONFIG_FILENAME exc;; refresh_config sched
  end.

(** *** Table extraction *)

(** [tag[key]] *)
Definition tag_getitem (tag : node) (key : string) : result string :=
  match dict_get key (tag_attrs tag) with
  | Some v => Return v
  | None => Raise (KeyError key)
  end.

(** [row.th.a.text.strip()]: an attribute read on [None] raises
    [AttributeError]. *)
Definition player_name_of (row : node) : result string :=
  match find "th" row with
  | None => Raise (AttributeError "a")
  | Some th =>
      match find "a" th with
      | None => Raise (AttributeError "text")
      | Some a => Return (str_strip (get_text a))
      end
  end.

(** The body of [for row in tbody.find_all("tr")]. *)
Definition add_row (data_type_name data_type : string) (row : node)
    (database : dict) : result dict :=
  let columns := find_all "td" row in
  player_name ← player_name_of row;
  player_data ← mapM (λ col, tag_getitem col data_type) columns;
  let stat :=
    dict_of_pairs
      (zip_with (λ name stat, (name, VStr stat)) (dict_keys STATS_NAME)
         player_data) in
  let database :=
    if dict_mem player_name database then database
    else dict_set player_name (VDict []) database in
  match dict_get player_name database with
  | Some (VDict entry) =>
      Return (dict_set player_name
                (VDict (dict_set data_type_name (VDict stat) entry)) database)
  | Some _ => Raise TypeError
  | None => Raise (KeyError player_name)
  end.

(** The body of [for data_type_name, data_type in PER_MODE.items()];
    [tbody] is [None] when the document has no such tag. *)
Definition add_mode (tbody : option node) (mode : string * string)
    (database : dict) : result dict :=
  match tbody with
  | None => Raise (AttributeError "find_all")
  | Some tbody => for_each (find_all "tr" tbody) (add_row mode.1 mode.2) database
  end.

(** A [url] that is no [str] is refused by the client. *)
Definition parse_webpage (url : value) (season season_type : string)
  : M (value * string * string) :=
  let database := [] in
  soup ← match url with
         | VStr url => get_soup url default_retries
         | _ => raise TypeError
         end;
  let tbody := find "tbody" soup in
  database ← lift (for_each PER_MODE (add_mode tbody) database);
  mret (VDict database, season, season_type).

(** *** Data resolver and its cache gate *)

Fixpoint for_each_M {A S} (l : list A) (body : A → S → M S) (acc : S) : M S :=
  match l with
  | [] => mret acc
  | x :: l' => acc' ← body x acc; for_each_M l' body acc'
  end.

Abbreviation page_task := (task (value * string * string)).

(** The body of [for season in config]: the season's entry of the database
    and a task per season type. *)
Definition spawn_season (config : dict) (season : string)
    (acc : dict * list page_task) : M (dict * list page_task) :=
  let database := dict_set season (VDict []) acc.1 in
  match dict_get season config with
  | Some (VDict season_config) =>
      new ← mapM (λ season_type,
                    match dict_get season_type season_config with
                    | Some url =>
                        create_task (parse_webpage url season season_type)
                    | None => raise (KeyError season_type)
                    end) (dict_keys season_config);
      mret (database, (acc.2 ++ new)%list)
  | Some _ => raise TypeError
  | None => raise (KeyError season)
  end.

Definition spawn_tasks (config : value) : M (dict * list page_task) :=
  match config with
  | VDict config => for_each_M (dict_keys config) (spawn_season config) ([], [])
  | _ => raise TypeError
  end.

(** [database[season][season_type] = data] *)
Definition store_page (done : value * string * string) (database : dict)
  : result dict :=
  let '(data, season, season_type) := done in
  match dict_get season database with
  | Some (VDict season_data) =>
      Return (dict_set season (VDict (dict_set season_type data season_data))
                database)
  | Some _ => Raise TypeError
  | None => Raise (KeyError season)
  end.

(** The body of the [try]. *)
Definition read_data : M value :=
  contents ← load_from_file DATA_FILENAME default_chunk_size;
  loads contents.

(** The data phase: the statements from [database = {}] to the end of the
    wait loop. *)
Definition resolve_data (sched : list nat) (config : value) : M dict :=
  spawned ← spawn_tasks config;
  wait_loop (as_completed sched spawned.2) store_page spawned.1.

(** The statements after the [try].  [sched_config] schedules the tasks of
    the config phase, should it run, [sched_data] those of the data phase. *)
Definition refresh_data (sched_config sched_data : list nat) : M value :=
  config ← load_config sched_config;
  database ← resolve_data sched_data config;
  write_file DATA_FILENAME (json_dumps (VDict database));;
  mret (VDict database).

Definition load_data (sched_config sched_data : list nat) : M value :=
  cached ← attempt read_data;
  match cached with
  | Return database => mret database
  | Raise exc =>
      except_cache DATA_FILENAME exc;; refresh_data sched_config sched_data
  end.

End crawler.

(** ** Vocabulary of the statements *)

Section vocabulary.
Context `{Collaborators}.

Definition sent (url : string) (w : world) : world :=
  World (fs w) (requests w ++ [url]) (stdout w).

Definition printed (line : string) (w : world) : world :=
  World (fs w) (requests w) (stdout w ++ [line]).

Definition timeout_line (url : string) : string :=
  url +:+ " reached maximum retry attempts, unable to complete request.".

Definition status_line (url : string) (status_code : Z) : string :=
  "Request to " +:+ url +:+ " received an HTTP response status code: "
  +:+ pretty status_code.

Definition request_line (url : string) : string :=
  "Error occurred while making a request to " +:+ url.

(** The rule on a season key: it splits on the first ["-"] into two parts
    that are both integers, and the first modulo 100, plus one, is the
    second. *)
Definition season_key_ok (season : string) : Prop :=
  ∃ first second first_year second_year,
    str_split_1 "-"%char season = [first; second]
    ∧ int first = Some first_year
    ∧ int second = Some second_year
    ∧ (first_year `mod` 100 + 1)%Z = second_year.

(** What a config asks of the value under a season key: it is a mapping,
    the key obeys the rule, and every season type is one of the three. *)
Definition valid_season (season : string) (v : value) : Prop :=
  ∃ season_config,
    v = VDict season_config
    ∧ season_key_ok season
    ∧ ∀ season_type, season_type ∈ dict_keys season_config →
        season_type ∈ default_season_type.

Definition ValidConfig (config : value) : Prop :=
  ∃ seasons,
    config = VDict seasons
    ∧ ∀ season v, dict_get season seasons = Some v → valid_season season v.

(** The tasks of a phase, run one after the other, and the world they
    leave. *)
Fixpoint run_tasks {A B} (coro : A → M B) (l : list A) (w : world)
  : list (task B) * world :=
  match l with
  | [] => ([], w)
  | x :: l' =>
      let '(t, w1) := coro x w in
      let '(ts, w2) := run_tasks coro l' w1 in
      (t :: ts, w2)
  end.

(** What the wait loop computes from the tasks in their completion order;
    the world plays no part in it. *)
Fixpoint drain {A S} (done : list (task A)) (body : A → S → result S)
    (acc : S) : result S :=
  match done with
  | [] => Return acc
  | t :: done' => r ← t; acc' ← body r acc; drain done' body acc'
  end.

(** A task fails the phase when its fetch raised or when the extraction
    run on its result raises. *)
Definition task_fails {A S} (body : A → S → result S) (t : task A) : Prop :=
  match t with
  | Raise _ => True
  | Return r => ∀ acc, ∃ exc, body r acc = Raise exc
  end.

Definition season_url (season : string) : string := URL +:+ "/" +:+ season.

Definition record_url (season season_type_value : string) : string :=
  URL +:+ "/" +:+ season +:+ "/" +:+ season_type_value +:+ "#record".

(** The options of the element of id [id]; none when there is no such
    element. *)
Definition options_of (id : string) (soup : node) : list node :=
  match find_id id soup with
  | Some element => find_all "option" element
  | None => []
  end.

(** A season page from which the season types can be extracted: it lists
    options under [stage_sn], each with a [value]. *)
Definition season_page_ok (soup : node) : Prop :=
  options_of "stage_sn" soup ≠ []
  ∧ ∀ option, option ∈ options_of "stage_sn" soup →
      is_Some (dict_get "value" (tag_attrs option)).

(** The requests number [n], [n+1], ... of the run, sent to [urls] in this
    order, are answered by [responses], each with a 2xx status. *)
Fixpoint answered (n : nat) (urls : list string) (responses : list Response)
  : Prop :=
  match urls, responses with
  | [], [] => True
  | url :: urls, response :: responses =>
      transport n url = Responds response
      ∧ is_success response = true
      ∧ answered (S n) urls responses
  | _, _ => False
  end.

(** The entry an option stands for: its text and the URL built from its
    [value]. *)
Definition season_entry (season : string) (tag : node)
  : option (string * value) :=
  season_type_value ← dict_get "value" (tag_attrs tag);
  Some (get_text tag, VStr (record_url season season_type_value)).

(** [{option.text: f"{URL}/{season}/{option['value']}#record" for option in
    options}] *)
Definition season_entries (season : string) (options : list node) : dict :=
  dict_of_pairs (omap (season_entry season) options).

(** [season_config] is built from [options]: each of its entries is the
    text of an option with the URL built from the [value] of that option,
    and each option has an entry under its text. *)
Definition built_from (season : string) (options : list node)
    (season_config : dict) : Prop :=
  (∀ season_type v, dict_get season_type season_config = Some v →
     ∃ option season_type_value,
       option ∈ options
       ∧ get_text option = season_type
       ∧ dict_get "value" (tag_attrs option) = Some season_type_value
       ∧ v = VStr (record_url season season_type_value))
  ∧ (∀ option, option ∈ options →
       is_Some (dict_get (get_text option) season_config)).

(** The entry of the config a season page gives. *)
Definition config_entry (done : node * string) : string * value :=
  (done.2, VDict (season_entries done.2 (options_of "stage_sn" done.1))).

(** The season page a response carries, with the season it is for. *)
Definition season_results (seasons : list string) (responses : list Response)
  : list (node * string) :=
  zip_with (λ season response, (BeautifulSoup (text response), season))
    seasons responses.

(** The seasons under which the tasks that returned will be merged. *)
Definition task_seasons (tasks : list (task (node * string))) : list string :=
  omap (λ t, match t with Return (_, season) => Some season | Raise _ => None end)
    tasks.

(** The (season, season type) pairs under which the page tasks that
    returned will be stored. *)
Definition task_pages (tasks : list (task (value * string * string)))
  : list (string * string) :=
  omap (λ t, match t with
             | Return (_, season, season_type) => Some (season, season_type)
             | Raise _ => None
             end) tasks.

(** Two runs of a merge end alike: both return, with the same key-value
    structure, or both raise. *)
Definition same_outcome (r1 r2 : result dict) : Prop :=
  match r1, r2 with
  | Return d1, Return d2 => same_mapping2 d1 d2
  | Raise _, Raise _ => True
  | _, _ => False
  end.

(** The exceptions a cache gate absorbs: the file is missing, or reading it
    raised a [ValueError]. *)
Definition cache_error (exc : exn) : bool :=
  match exc with
  | FileNotFoundError _ => true
  | _ => is_ValueError exc
  end.

(** A result that is no exception a cache gate would absorb. *)
Definition no_cache_error {A} (r : result A) : Prop :=
  ∀ exc, r = Raise exc → cache_error exc = false.

(** A computation of the network side: it leaves the files alone, it
    raises nothing a cache gate would absorb, and its result and the
    requests it sends depend on the requests sent before it only. *)
Definition web_only {A} (m : M A) : Prop :=
  ∀ w,
    fs (m w).2 = fs w
    ∧ no_cache_error (m w).1
    ∧ ∀ w', requests w' = requests w →
        (m w').1 = (m w).1 ∧ requests (m w').2 = requests (m w).2.

(** The world with one file written, and with one file removed. *)
Definition wrote (filename contents : string) (w : world) : world :=
  World (<[filename := contents]> (fs w)) (requests w) (stdout w).


(** The line printed for a cache file that is missing. *)
Definition miss_line (filename : string) : string :=
  "找不到 " +:+ filename +:+ ". 從 Pleague 下載.".

(** A text that is no cache of a config: it is no JSON, or the value it
    reads as is no valid config. *)
Definition no_config (contents : string) : Prop :=
  json_loads contents = None
  ∨ ∃ config, json_loads contents = Some config ∧ ¬ ValidConfig config.

(** [row] is a row of the player [player_name]. *)
Definition is_named (player_name : string) (row : node) : bool :=
  match player_name_of row with
  | Return name => String.eqb name player_name
  | Raise _ => false
  end.

(** The last of the rows of a player, if any. *)
Fixpoint last_named (player_name : string) (rows : list node) : option node :=
  match rows with
  | [] => None
  | row :: rows' =>
      match last_named player_name rows' with
      | Some later => Some later
      | None => if is_named player_name row then Some row else None
      end
  end.

(** The fields of a row in one mode: the names of the fixed list, in order,
    with the values the cells carry under [data_type]. *)
Definition row_stat (data_type : string) (row : node) : dict :=
  dict_of_pairs
    (zip_with (λ name stat, (name, VStr stat)) (dict_keys STATS_NAME)
       (omap (λ col, dict_get data_type (tag_attrs col)) (find_all "td" row))).

(** A row that can be extracted: its header cell names a player and each
    of its data cells carries a value for both modes. *)
Definition row_ok (row : node) : Prop :=
  (∃ player_name, player_name_of row = Return player_name)
  ∧ ∀ col mode, col ∈ find_all "td" row → mode ∈ PER_MODE →
      is_Some (dict_get mode.2 (tag_attrs col)).

(** The entry of a player in a database; empty when the player has none. *)
Definition entry_of (player_name : string) (database : dict) : dict :=
  match dict_get player_name database with
  | Some (VDict entry) => entry
  | _ => []
  end.

(** Every value of the database is a dict. *)
Definition all_dicts (database : dict) : Prop :=
  ∀ k v, dict_get k database = Some v → ∃ entry, v = VDict entry.

(** A config as Python holds it: a dict has each key once, at both
    levels. *)
Definition config_wf (config : value) : Prop :=
  match config with
  | VDict seasons =>
      NoDup (dict_keys seasons)
      ∧ ∀ season season_config,
          dict_get season seasons = Some (VDict season_config) →
          NoDup (dict_keys season_config)
  | _ => True
  end.

(** The (season, season type) pairs of the seasons [keys] of a config. *)
Definition config_pages (seasons : dict) (keys : list string)
  : list (string * string) :=
  keys ≫= λ season,
    match dict_get season seasons with
    | Some (VDict season_config) => pair season <$> dict_keys season_config
    | _ => []
    end.



(** The line the [except] clause of [get_soup] for [exc] prints, if there
    is such a clause. *)
Definition diagnostic (url : string) (exc : exn) : list string :=
  match exc with
  | TimeoutException _ => [timeout_line url]
  | HTTPStatusError _ status_code => [status_line url status_code]
  | RequestError _ => [request_line url]
  | _ => []
  end.

(** The exceptions [get_soup] has an [except] clause for, and those of the
    option-list extraction. *)
Definition fetch_error (exc : exn) : bool :=
  match exc with
  | TimeoutException _ | HTTPStatusError _ _ | RequestError _ => true
  | _ => false
  end.

Definition extraction_error (exc : exn) : bool :=
  match exc with
  | ElementNotFoundError _ | MissingAttributeError _ _ => true
  | _ => false
  end.

(** The config with [f] applied to what is stored under each season type
    (the URLs); the seasons and the season types are kept. *)
Definition map_urls (f : value → value) (config : value) : value :=
  match config with
  | VDict seasons =>
      VDict (prod_map id
               (λ v, match v with
                     | VDict season_config =>
                         VDict (prod_map id f <$> season_config)
                     | _ => v
                     end) <$> seasons)
  | _ => config
  end.

(** [database[season][season_type]], when both keys are there. *)
Definition lookup2 (season season_type : string) (database : dict)
  : option value :=
  match dict_get season database with
  | Some (VDict season_data) => dict_get season_type season_data
  | _ => None
  end.

(** What the pages stored one after the other leave under [season] and
    [season_type], [init] being there before: the data of the last page of
    that key. *)
Definition stored (season season_type : string)
    (results : list (value * string * string)) (init : option value)
  : option value :=
  foldl (λ acc done,
           if String.eqb done.1.2 season && String.eqb done.2 season_type
           then Some done.1.1 else acc) init results.

(** Every value of the database is a dict, with each key once. *)
Definition well_keyed (database : dict) : Prop :=
  ∀ season v, dict_get season database = Some v →
    ∃ season_data, v = VDict season_data ∧ NoDup (dict_keys season_data).

(** A computation that only adds requests to the record of the world, all
    of them to URLs that satisfy [P]. *)
Definition requests_within {A} (P : string → Prop) (m : M A) : Prop :=
  ∀ w, ∃ added,
    requests (m w).2 = (requests w ++ added)%list ∧ Forall P added.

(** The URLs of the config phase: the landing page and the season pages. *)
Definition on_site (url : string) : Prop :=
  url = URL ∨ ∃ season, url = season_url season.

(** A URL that a config stores under a season type of a season. *)
Definition stored_url (seasons : dict) (url : string) : Prop :=
  ∃ season season_config season_type,
    dict_get season seasons = Some (VDict season_config)
    ∧ dict_get season_type season_config = Some (VStr url).

(** The reference of the chunked read: a single read of the whole file,
    [open(filename, "r").read()]. *)
Definition read_whole_file (filename : string) : M string := λ w,
  match fs w !! filename with
  | None => (Raise (FileNotFoundError filename), w)
  | Some contents =>
      (read ← file_read (-1) (universal_newlines contents); Return read.1, w)
  end.

(** A computation that only adds lines to the standard output, all of them
    lines that satisfy [P]. *)
Definition prints_within {A} (P : string → Prop) (m : M A) : Prop :=
  ∀ w, ∃ added,
    stdout (m w).2 = (stdout w ++ added)%list ∧ Forall P added.

(** A line of [get_soup]: one of the three its [except] clauses print. *)
Definition fetch_line (line : string) : Prop :=
  ∃ url,
    line = timeout_line url
    ∨ (∃ status_code, line = status_line url status_code)
    ∨ line = request_line url.

End vocabulary.

(** ** Scenarios

    Concrete collaborators, documents and worlds on which the program is
    run below. *)

Module Scenario.

(** A reading of [int] on optionally signed runs of ASCII digits. *)
Definition digit_of (c : ascii) : option Z :=
  let n := nat_of_ascii c in
  if (48 <=? n)%nat && (n <=? 57)%nat then Some (Z.of_nat (n - 48)) else None.

Fixpoint digits_value (s : string) (acc : Z) : option Z :=
  match s with
  | EmptyString => Some acc
  | String c s' => d ← digit_of c; digits_value s' (10 * acc + d)%Z
  end.

Definition decimal_int (s : string) : option Z :=
  match s with
  | EmptyString => None
  | String c s' =>
      if Ascii.eqb c "-" then
        if String.eqb s' "" then None else Z.opp <$> digits_value s' 0
      else if Ascii.eqb c "+" then
        if String.eqb s' "" then None else digits_value s' 0
      else digits_value s 0
  end.

(** A reading of [str.strip] that removes the blanks at both ends. *)
Definition is_blank (c : ascii) : bool :=
  Ascii.eqb c " " || Ascii.eqb c "009" || Ascii.eqb c "010" || Ascii.eqb c "013".

Fixpoint lstrip (s : string) : string :=
  match s with
  | String c s' => if is_blank c then lstrip s' else s
  | EmptyString => EmptyString
  end.

Fixpoint rstrip (s : string) : string :=
  match s with
  | String c s' =>
      match rstrip s' with
      | EmptyString => if is_blank c then EmptyString else String c EmptyString
      | rest => String c rest
      end
  | EmptyString => EmptyString
  end.

Definition blank_strip (s : string) : string := rstrip (lstrip s).

(** The documents of the site. *)
Definition option_tag (attrs : list (string * string)) (label : string) : node :=
  Tag "option" attrs [NavigableString label].

Definition landing_page : node :=
  Tag "[document]" []
    [Tag "html" []
       [Tag "body" []
          [Tag "select" [("id", "season_name")]
             [option_tag [("value", "2023-24")] "2023-24"]]]].

Definition season_page : node :=
  Tag "[document]" []
    [Tag "html" []
       [Tag "body" []
          [Tag "select" [("id", "stage_sn")]
             [option_tag [("value", "001")] "例行賽"]]]].

(** The same season as served later, its stage renumbered. *)
Definition season_page_later : node :=
  Tag "[document]" []
    [Tag "html" []
       [Tag "body" []
          [Tag "select" [("id", "stage_sn")]
             [option_tag [("value", "002")] "例行賽"]]]].

(** A landing page that lists its one season twice. *)
Definition relisting_page : node :=
  Tag "[document]" []
    [Tag "html" []
       [Tag "body" []
          [Tag "select" [("id", "season_name")]
             [option_tag [("value", "2023-24")] "2023-24";
              option_tag [("value", "2023-24")] "2023-24"]]]].

Definition stat_cell (total avg : string) : node :=
  Tag "td" [("data-total", total); ("data-avg", avg)] [NavigableString avg].

Definition stat_page : node :=
  Tag "[document]" []
    [Tag "table" []
       [Tag "tbody" []
          [Tag "tr" []
             [Tag "th" [] [Tag "a" [("href", "/player/1")]
                             [NavigableString " 王柏融 "]];
              stat_cell "9" "9"; stat_cell "富邦勇士" "富邦勇士";
              stat_cell "30" "30"; stat_cell "900" "30.0"]]]].

(** A page without a table body, and one whose cell lacks an attribute. *)
Definition bare_page : node :=
  Tag "[document]" [] [Tag "html" [] [Tag "body" [] []]].

Definition torn_page : node :=
  Tag "[document]" []
    [Tag "tbody" []
       [Tag "tr" []
          [Tag "th" [] [Tag "a" [] [NavigableString "王柏融"]];
           Tag "td" [("data-avg", "9")] [NavigableString "9"]]]].

(** The parser, on the bodies the site serves. *)
Definition parse (markup : string) : node :=
  if String.eqb markup "landing" then landing_page
  else if String.eqb markup "season" then season_page
  else if String.eqb markup "season later" then season_page_later
  else if String.eqb markup "relisting" then relisting_page
  else if String.eqb markup "stat" then stat_page
  else if String.eqb markup "torn" then torn_page
  else bare_page.

Definition ok (body : string) : http_outcome :=
  Responds {| status_code := 200; text := body |}.

(** The site, always up. *)
Definition site (n : nat) (url : string) : http_outcome :=
  if String.eqb url "https://pleagueofficial.com/stat-player" then ok "landing"
  else if String.eqb url "https://pleagueofficial.com/stat-player/2023-24"
  then ok "season"
  else if String.eqb url
            "https://pleagueofficial.com/stat-player/2023-24/001#record"
  then ok "stat"
  else Responds {| status_code := 404; text := "" |}.

(** The first two requests time out, the later ones are answered. *)
Definition flaky (n : nat) (url : string) : http_outcome :=
  if (n <? 2)%nat then TimesOut else site n url.

(** No request is ever answered. *)
Definition dead (n : nat) (url : string) : http_outcome := TimesOut.

(** The landing page lists the season twice, and the season page changes
    between the second and the third request of the run. *)
Definition relisting (n : nat) (url : string) : http_outcome :=
  if String.eqb url "https://pleagueofficial.com/stat-player" then ok "relisting"
  else if (n <? 2)%nat then ok "season" else ok "season later".

(** The season pages are down. *)
Definition seasons_down (n : nat) (url : string) : http_outcome :=
  if String.eqb url "https://pleagueofficial.com/stat-player" then ok "landing"
  else Fails.

(** The stat pages are down. *)
Definition stats_down (n : nat) (url : string) : http_outcome :=
  if String.eqb url
       "https://pleagueofficial.com/stat-player/2023-24/001#record"
  then Fails else site n url.

(** The stat page of the season lost a cell attribute, and the one of the
    play-offs its table. *)
Definition stats_torn (n : nat) (url : string) : http_outcome :=
  if String.eqb url
       "https://pleagueofficial.com/stat-player/2023-24/001#record"
  then ok "torn"
  else if String.eqb url
            "https://pleagueofficial.com/stat-player/2023-24/002#record"
  then ok "bare"
  else site n url.

(** The config and the dataset of the site. *)
Definition site_config : value :=
  VDict [("2023-24",
          VDict [("例行賽",
                  VStr "https://pleagueofficial.com/stat-player/2023-24/001#record")])].

Definition site_stat (jersey team gp min : string) : value :=
  VDict [("背號", VStr jersey); ("球隊", VStr team); ("出賽次數", VStr gp);
         ("時間 (分)", VStr min)].

Definition site_data : value :=
  VDict [("2023-24",
          VDict [("例行賽",
                  VDict [("王柏融",
                          VDict [("累計數據", site_stat "9" "富邦勇士" "30" "900");
                                 ("平均數據", site_stat "9" "富邦勇士" "30" "30.0")])])])].

(** A JSON codec for the scenarios: [dumps] writes a value as
    [json.dumps(v, ensure_ascii=False, indent=2)] does, [parse_json] reads
    a JSON text; of the numbers it reads the integers only. *)
Definition quote : ascii := "034"%char.
Definition backslash : ascii := "092"%char.
Definition newline : string := String "010"%char "".

Definition hex_digit (n : nat) : ascii :=
  nth n ["0"; "1"; "2"; "3"; "4"; "5"; "6"; "7"; "8"; "9";
         "a"; "b"; "c"; "d"; "e"; "f"]%char "0"%char.

Definition escape_char (c : ascii) : string :=
  if Ascii.eqb c quote then String backslash (String quote "")
  else if Ascii.eqb c backslash then String backslash (String backslash "")
  else if Ascii.eqb c "010" then String backslash "n"
  else if Ascii.eqb c "013" then String backslash "r"
  else if Ascii.eqb c "009" then String backslash "t"
  else if Ascii.eqb c "008" then String backslash "b"
  else if Ascii.eqb c "012" then String backslash "f"
  else if (nat_of_ascii c <? 32)%nat then
    String backslash
      ("u00" +:+ String (hex_digit (nat_of_ascii c / 16))
                   (String (hex_digit (nat_of_ascii c mod 16)) ""))
  else String c "".

Fixpoint escape (s : string) : string :=
  match s with
  | EmptyString => EmptyString
  | String c s' => escape_char c +:+ escape s'
  end.

Definition dump_str (s : string) : string :=
  String quote (escape s +:+ String quote "").

Fixpoint pad (level : nat) : string :=
  match level with
  | O => ""
  | S level' => "  " +:+ pad level'
  end.

Fixpoint join_lines (lines : list string) : string :=
  match lines with
  | [] => ""
  | [line] => line
  | line :: lines' => line +:+ "," +:+ newline +:+ join_lines lines'
  end.

Fixpoint dump (level : nat) (v : value) : string :=
  match v with
  | VNone => "null"
  | VBool b => if b then "true" else "false"
  | VInt n => pretty n
  | VFloat literal => literal
  | VStr s => dump_str s
  | VList [] => "[]"
  | VList items =>
      "[" +:+ newline
      +:+ join_lines (map (λ item, pad (S level) +:+ dump (S level) item) items)
      +:+ newline +:+ pad level +:+ "]"
  | VDict [] => "{}"
  | VDict items =>
      "{" +:+ newline
      +:+ join_lines
            (map (λ kv, pad (S level) +:+ dump_str (fst kv) +:+ ": "
                        +:+ dump (S level) (snd kv)) items)
      +:+ newline +:+ pad level +:+ "}"
  end.


Definition is_ws (c : ascii) : bool :=
  Ascii.eqb c " " || Ascii.eqb c "009" || Ascii.eqb c "010" || Ascii.eqb c "013".

Fixpoint skip_ws (s : string) : string :=
  match s with
  | String c s' => if is_ws c then skip_ws s' else s
  | EmptyString => EmptyString
  end.

Definition hex_value (c : ascii) : option nat :=
  let n := nat_of_ascii c in
  if (48 <=? n)%nat && (n <=? 57)%nat then Some (n - 48)
  else if (97 <=? n)%nat && (n <=? 102)%nat then Some (n - 87)
  else if (65 <=? n)%nat && (n <=? 70)%nat then Some (n - 55)
  else None.

(** The text after an opening quote, up to the closing one. *)
Fixpoint parse_chars (s : string) : option (string * string) :=
  match s with
  | EmptyString => None
  | String c s' =>
      if Ascii.eqb c quote then Some (EmptyString, s')
      else if Ascii.eqb c backslash then
        match s' with
        | String e s'' =>
            if Ascii.eqb e "u" then
              match s'' with
              | String "0" (String "0" (String h (String l s3))) =>
                  hi ← hex_value h; lo ← hex_value l;
                  '(chars, rest) ← parse_chars s3;
                  Some (String (ascii_of_nat (16 * hi + lo)) chars, rest)
              | _ => None
              end
            else
              c' ← (if Ascii.eqb e quote then Some quote
                    else if Ascii.eqb e backslash then Some backslash
                    else if Ascii.eqb e "/" then Some "/"%char
                    else if Ascii.eqb e "n" then Some "010"%char
                    else if Ascii.eqb e "r" then Some "013"%char
                    else if Ascii.eqb e "t" then Some "009"%char
                    else if Ascii.eqb e "b" then Some "008"%char
                    else if Ascii.eqb e "f" then Some "012"%char
                    else None);
              '(chars, rest) ← parse_chars s'';
              Some (String c' chars, rest)
        | EmptyString => None
        end
      else if (nat_of_ascii c <? 32)%nat then None
      else '(chars, rest) ← parse_chars s'; Some (String c chars, rest)
  end.

Definition is_digit (c : ascii) : bool :=
  (48 <=? nat_of_ascii c)%nat && (nat_of_ascii c <=? 57)%nat.

Fixpoint span_digits (s : string) : string * string :=
  match s with
  | String c s' =>
      if is_digit c then let '(ds, rest) := span_digits s' in (String c ds, rest)
      else (EmptyString, s)
  | EmptyString => (EmptyString, EmptyString)
  end.

Fixpoint digits_to_Z (ds : string) (acc : Z) : Z :=
  match ds with
  | String c ds' => digits_to_Z ds' (10 * acc + Z.of_nat (nat_of_ascii c - 48))%Z
  | EmptyString => acc
  end.

(** An integer literal; fractions and exponents are not read. *)
Definition parse_int (s : string) : option (value * string) :=
  let '(negative, s1) :=
    match s with
    | String c s' => if Ascii.eqb c "-" then (true, s') else (false, s)
    | EmptyString => (false, s)
    end in
  let '(ds, rest) := span_digits s1 in
  match ds with
  | EmptyString => None
  | _ => Some (VInt (if negative then - digits_to_Z ds 0 else digits_to_Z ds 0)%Z,
               rest)
  end.

Definition strip_prefix (p s : string) : option string :=
  if String.prefix p s then Some (str_drop (String.length p) s) else None.

Fixpoint parse_value (fuel : nat) (s : string) : option (value * string) :=
  match fuel with
  | O => None
  | S fuel' =>
      let parse_elements :=
        fix parse_elements (n : nat) (s : string) (acc : list value)
          : option (value * string) :=
          match n with
          | O => None
          | S n' =>
              '(item, rest) ← parse_value fuel' s;
              match skip_ws rest with
              | String c rest' =>
                  if Ascii.eqb c "," then parse_elements n' rest' (acc ++ [item])%list
                  else if Ascii.eqb c "]" then Some (VList (acc ++ [item])%list, rest')
                  else None
              | EmptyString => None
              end
          end in
      let parse_members :=
        fix parse_members (n : nat) (s : string) (acc : dict)
          : option (value * string) :=
          match n with
          | O => None
          | S n' =>
              match skip_ws s with
              | String q s1 =>
                  if Ascii.eqb q quote then
                    '(key, s2) ← parse_chars s1;
                    match skip_ws s2 with
                    | String c s3 =>
                        if Ascii.eqb c ":" then
                          '(item, rest) ← parse_value fuel' s3;
                          match skip_ws rest with
                          | String d rest' =>
                              if Ascii.eqb d ","
                              then parse_members n' rest' (dict_set key item acc)
                              else if Ascii.eqb d "}"
                              then Some (VDict (dict_set key item acc), rest')
                              else None
                          | EmptyString => None
                          end
                        else None
                    | EmptyString => None
                    end
                  else None
              | EmptyString => None
              end
          end in
      match skip_ws s with
      | EmptyString => None
      | String c s' =>
          if Ascii.eqb c quote then
            '(chars, rest) ← parse_chars s'; Some (VStr chars, rest)
          else if Ascii.eqb c "[" then
            match skip_ws s' with
            | String d rest =>
                if Ascii.eqb d "]" then Some (VList [], rest)
                else parse_elements fuel' s' []
            | EmptyString => None
            end
          else if Ascii.eqb c "{" then
            match skip_ws s' with
            | String d rest =>
                if Ascii.eqb d "}" then Some (VDict [], rest)
                else parse_members fuel' s' []
            | EmptyString => None
            end
          else
            match strip_prefix "null" (String c s') with
            | Some rest => Some (VNone, rest)
            | None =>
                match strip_prefix "true" (String c s') with
                | Some rest => Some (VBool true, rest)
                | None =>
                    match strip_prefix "false" (String c s') with
                    | Some rest => Some (VBool false, rest)
                    | None => parse_int (String c s')
                    end
                end
            end
      end
  end.

Definition parse_json (s : string) : option value :=
  match parse_value (S (String.length s)) s with
  | Some (v, rest) =>
      match skip_ws rest with
      | EmptyString => Some v
      | _ => None
      end
  | None => None
  end.

(** [json.dumps(v, ensure_ascii=False, indent=2)] *)
Definition dumps (v : value) : string := dump 0 v.

Definition config_text : string := dumps site_config.

Definition collaborators (net : nat → string → http_outcome) : Collaborators :=
  {| transport := net;
     BeautifulSoup := parse;
     json_loads := parse_json;
     json_dumps := dumps;
     int := decimal_int;
     str_strip := blank_strip;
     source_dictionary := "/srv/crawler/src" |}.

(** Worlds: nothing cached, and a config cache that is no JSON. *)
Definition fresh : world := World ∅ [] [].

Definition corrupt_config : world :=
  World {[ "/srv/crawler/src/url.json" := "{ 2023-24: " ]} [] [].

Definition corrupt_data : world :=
  World {[ "/srv/crawler/src/output.json" := "{ 2023-24: " ]} [] [].

(** More of the site: a landing page that lists two seasons, and a season
    page that lists a stage outside the three season types. *)
Definition landing_page_two : node :=
  Tag "[document]" []
    [Tag "html" []
       [Tag "body" []
          [Tag "select" [("id", "season_name")]
             [option_tag [("value", "2023-24")] "2023-24";
              option_tag [("value", "2022-23")] "2022-23"]]]].

Definition preseason_page : node :=
  Tag "[document]" []
    [Tag "html" []
       [Tag "body" []
          [Tag "select" [("id", "stage_sn")]
             [option_tag [("value", "000")] "熱身賽"]]]].

(** A landing page whose season is listed with the line break of the
    markup left in the text of the option. *)
Definition landing_page_unstripped : node :=
  Tag "[document]" []
    [Tag "html" []
       [Tag "body" []
          [Tag "select" [("id", "season_name")]
             [option_tag [("value", "2023-24")] ("2023-24" +:+ newline)]]]].

(** A season with two stages, and the stat page of the second. *)
Definition season_page_two : node :=
  Tag "[document]" []
    [Tag "html" []
       [Tag "body" []
          [Tag "select" [("id", "stage_sn")]
             [option_tag [("value", "001")] "例行賽";
              option_tag [("value", "002")] "季後賽"]]]].

Definition playoff_page : node :=
  Tag "[document]" []
    [Tag "table" []
       [Tag "tbody" []
          [Tag "tr" []
             [Tag "th" [] [Tag "a" [("href", "/player/2")]
                             [NavigableString "林志傑"]];
              stat_cell "12" "12"; stat_cell "富邦勇士" "富邦勇士";
              stat_cell "4" "4"; stat_cell "100" "25.0"]]]].

(** A stat page whose table body repeats the header row after the row of a
    player: the header cell of that row names no player. *)
Definition mixed_page : node :=
  Tag "[document]" []
    [Tag "table" []
       [Tag "tbody" []
          [Tag "tr" []
             [Tag "th" [] [Tag "a" [("href", "/player/1")]
                             [NavigableString " 王柏融 "]];
              stat_cell "9" "9"; stat_cell "富邦勇士" "富邦勇士"];
           Tag "tr" [] [Tag "th" [] [NavigableString "球員"]]]]].

Definition parse_more (markup : string) : node :=
  if String.eqb markup "landing two" then landing_page_two
  else if String.eqb markup "preseason" then preseason_page
  else if String.eqb markup "landing unstripped" then landing_page_unstripped
  else if String.eqb markup "season two" then season_page_two
  else if String.eqb markup "playoffs" then playoff_page
  else if String.eqb markup "mixed" then mixed_page
  else parse markup.

(** The site with its two seasons. *)
Definition two_seasons (n : nat) (url : string) : http_outcome :=
  if String.eqb url "https://pleagueofficial.com/stat-player"
  then ok "landing two"
  else if String.eqb url "https://pleagueofficial.com/stat-player/2022-23"
  then ok "season later"
  else site n url.

(** The site before the season: the only stage is the pre-season. *)
Definition preseason (n : nat) (url : string) : http_outcome :=
  if String.eqb url "https://pleagueofficial.com/stat-player/2023-24"
  then ok "preseason"
  else site n url.

(** The season has its play-offs. *)
Definition two_stages (n : nat) (url : string) : http_outcome :=
  if String.eqb url "https://pleagueofficial.com/stat-player/2023-24"
  then ok "season two"
  else if String.eqb url
            "https://pleagueofficial.com/stat-player/2023-24/002#record"
  then ok "playoffs"
  else site n url.

(** The stat page of the season repeats its header row. *)
Definition stats_mixed (n : nat) (url : string) : http_outcome :=
  if String.eqb url
       "https://pleagueofficial.com/stat-player/2023-24/001#record"
  then ok "mixed"
  else site n url.

(** The landing page lists the season with a line break in its text: the
    client refuses the URL made of it. *)
Definition unstripped (n : nat) (url : string) : http_outcome :=
  if String.eqb url "https://pleagueofficial.com/stat-player"
  then ok "landing unstripped"
  else if String.eqb url
            ("https://pleagueofficial.com/stat-player/2023-24" +:+ newline)
  then Invalid
  else site n url.

(** Every request is answered with the page of a season. *)
Definition misrouted (n : nat) (url : string) : http_outcome := ok "season".

Definition collaborators_more (net : nat → string → http_outcome)
  : Collaborators :=
  {| transport := net;
     BeautifulSoup := parse_more;
     json_loads := parse_json;
     json_dumps := dumps;
     int := decimal_int;
     str_strip := blank_strip;
     source_dictionary := "/srv/crawler/src" |}.

Definition preseason_config : value :=
  VDict [("2023-24",
          VDict [("熱身賽",
                  VStr "https://pleagueofficial.com/stat-player/2023-24/000#record")])].

(** A config whose URL was edited by hand. *)
Definition edited_config : value :=
  VDict [("2023-24", VDict [("例行賽", VStr "https://example.org/elsewhere")])].

Definition two_stage_config : value :=
  VDict [("2023-24",
          VDict [("例行賽",
                  VStr "https://pleagueofficial.com/stat-player/2023-24/001#record");
                 ("季後賽",
                  VStr "https://pleagueofficial.com/stat-player/2023-24/002#record")])].

Definition playoff_stat (jersey team gp min : string) : value :=
  VDict [("林志傑",
          VDict [("累計數據", site_stat jersey team gp min);
                 ("平均數據", site_stat jersey team gp "25.0")])].

(** The dataset of the season with its play-offs, the page of the season
    stored first. *)
Definition two_stage_data : dict :=
  [("2023-24",
    VDict [("例行賽",
            VDict [("王柏融",
                    VDict [("累計數據", site_stat "9" "富邦勇士" "30" "900");
                           ("平均數據", site_stat "9" "富邦勇士" "30" "30.0")])]);
           ("季後賽", playoff_stat "12" "富邦勇士" "4" "100")])].

(** Worlds with a cache. *)
Definition cached_config : world :=
  World {[ "/srv/crawler/src/url.json" := config_text ]} [] [].

Definition cached_data : world :=
  World {[ "/srv/crawler/src/output.json" := dumps site_data ]} [] [].

Definition edited_cache : world :=
  World {[ "/srv/crawler/src/url.json" := dumps edited_config ]} [] [].

(** A config cache written with the line ends of another system: an empty
    config, with a carriage return and a line feed between its braces. *)
Definition crlf_config : world :=
  World {[ "/srv/crawler/src/url.json"
           := String "{" (String CR (String LF "}")) ]} [] [].

End Scenario.

(** * Properties *)

(** ** Strings and the chunked read *)

Lemma str_app_cons c (a b : string) : String c a +:+ b = String c (a +:+ b).
Proof. reflexivity. Qed.

Lemma str_app_assoc (a b c : string) : (a +:+ b) +:+ c = a +:+ (b +:+ c).
Proof.
  induction a as [|x a IH]; [done|]. rewrite !str_app_cons. by rewrite IH.
Qed.

Lemma str_app_empty_r (a : string) : a +:+ "" = a.
Proof.
  induction a as [|x a IH]; [done|]. rewrite str_app_cons. by rewrite IH.
Qed.

Lemma str_take_drop n s : str_take n s +:+ str_drop n s = s.
Proof.
  revert s. induction n as [|n IH]; intros [|c s]; try done.
  simpl. rewrite str_app_cons. by rewrite IH.
Qed.

Lemma str_join_app l1 l2 :
  str_join (l1 ++ l2)%list = str_join l1 +:+ str_join l2.
Proof.
  induction l1 as [|x l1 IH]; [done|].
  simpl. rewrite IH. symmetry. apply str_app_assoc.
Qed.

(** The sizes a read takes. *)
Lemma file_read_in_range size file :
  (- sys_maxsize - 1 ≤ size ≤ sys_maxsize)%Z →
  file_read size file
  = Return (if (size <? 0)%Z then (file, "")
            else (str_take (Z.to_nat size) file, str_drop (Z.to_nat size) file)).
Proof.
  intros Hsize. unfold file_read.
  destruct (size <? - sys_maxsize - 1)%Z eqn:Hlow; [apply Z.ltb_lt in Hlow; lia|].
  destruct (sys_maxsize <? size)%Z eqn:Hhigh; [apply Z.ltb_lt in Hhigh; lia|].
  simpl. by destruct (size <? 0)%Z.
Qed.

Lemma file_read_overflow size file :
  (size < - sys_maxsize - 1 ∨ sys_maxsize < size)%Z →
  file_read size file = Raise OverflowError.
Proof.
  intros Hsize. unfold file_read.
  destruct (size <? - sys_maxsize - 1)%Z eqn:Hlow; [done|].
  destruct (sys_maxsize <? size)%Z eqn:Hhigh; [done|].
  apply Z.ltb_ge in Hlow, Hhigh. lia.
Qed.

(** A read hands out a prefix of the file and leaves the rest. *)
Lemma file_read_split size file chunk rest :
  file_read size file = Return (chunk, rest) → chunk +:+ rest = file.
Proof.
  unfold file_read. destruct (_ || _); [done|].
  destruct (size <? 0)%Z; intros [= <- <-].
  - apply str_app_empty_r.
  - apply str_take_drop.
Qed.

(** Only at the end of the file does a read of a size other than 0 hand out
    nothing. *)
Lemma file_read_empty size file rest :
  size ≠ 0%Z → file_read size file = Return ("", rest) → file = "".
Proof.
  unfold file_read. intros Hsize. destruct (_ || _); [done|].
  destruct (size <? 0)%Z eqn:Hneg.
  - by intros [= -> _].
  - apply Z.ltb_ge in Hneg.
    destruct (Z.to_nat size) as [|n] eqn:Hn; [lia|].
    by destruct file.
Qed.

Lemma file_read_0 file : file_read 0 file = Return ("", file).
Proof. by destruct file. Qed.

(** Whether a read raises is decided by the size alone. *)
Lemma file_read_raises size file file' exc :
  file_read size file = Raise exc → file_read size file' = Raise exc.
Proof. unfold file_read. destruct (_ || _); [done|]. by destruct (size <? 0)%Z. Qed.

(** The loop appends the whole file to the buffer, whatever the size of
    the chunks, as long as a read takes it and it is not 0. *)
Lemma read_chunks_join chunk_size file buffer :
  (- sys_maxsize - 1 ≤ chunk_size ≤ sys_maxsize)%Z → chunk_size ≠ 0%Z →
  ∃ chunks,
    read_chunks chunk_size file buffer = Return chunks
    ∧ str_join chunks = str_join buffer +:+ file.
Proof.
  intros Hrange Hsize. funelim (read_chunks chunk_size file buffer).
  - match goal with E : file_read _ _ = Return _ |- _ =>
      rewrite (file_read_empty _ _ _ Hsize E) end.
    exists buffer. by rewrite str_app_empty_r.
  - match goal with IH : _ → _ → ∃ _, _ |- _ =>
      destruct (IH Hrange Hsize) as (chunks & -> & Hjoin) end.
    exists chunks. split; [done|]. rewrite Hjoin.
    rewrite str_join_app. simpl. rewrite str_app_empty_r, str_app_assoc.
    match goal with E : file_read _ _ = Return _ |- _ =>
      by rewrite <- (file_read_split _ _ _ _ E) end.
  - match goal with E : file_read _ _ = Raise _ |- _ =>
      pose proof E as Hraise end.
    by rewrite file_read_in_range in Hraise.
Qed.

(** With chunks of size 0 the first read is empty and the loop stops. *)
Lemma read_chunks_0 file buffer : read_chunks 0 file buffer = Return buffer.
Proof.
  funelim (read_chunks 0 file buffer);
    match goal with E : file_read _ _ = _ |- _ => pose proof E as Hread end;
    rewrite file_read_0 in Hread; congruence.
Qed.

(** A size no read takes stops the loop at its first read. *)
Lemma read_chunks_overflow chunk_size file buffer :
  (chunk_size < - sys_maxsize - 1 ∨ sys_maxsize < chunk_size)%Z →
  read_chunks chunk_size file buffer = Raise OverflowError.
Proof.
  intros Hsize. funelim (read_chunks chunk_size file buffer);
    match goal with E : file_read _ _ = _ |- _ => pose proof E as Hread end;
    rewrite file_read_overflow in Hread by done; congruence.
Qed.

(** A text without a carriage return is read as it is. *)
Lemma universal_newlines_id s :
  CR ∉ String.list_ascii_of_string s → universal_newlines s = s.
Proof.
  induction s as [|c s IH]; [done|]. simpl. intros Hcr.
  apply not_elem_of_cons in Hcr as [Hc Hs].
  destruct (Ascii.eqb c CR) eqn:Heq; [by apply Ascii.eqb_eq in Heq|].
  by rewrite IH.
Qed.

Lemma load_from_file_read filename chunk_size s w :
  fs w !! filename = Some s →
  (- sys_maxsize - 1 ≤ chunk_size ≤ sys_maxsize)%Z → chunk_size ≠ 0%Z →
  load_from_file filename chunk_size w = (Return (universal_newlines s), w).
Proof.
  intros Hfile Hrange Hsize. unfold load_from_file. rewrite Hfile.
  destruct (read_chunks_join chunk_size (universal_newlines s) [] Hrange Hsize)
    as (chunks & -> & Hjoin).
  simpl. by rewrite Hjoin.
Qed.

Lemma load_from_file_overflow filename chunk_size s w :
  fs w !! filename = Some s →
  (chunk_size < - sys_maxsize - 1 ∨ sys_maxsize < chunk_size)%Z →
  load_from_file filename chunk_size w = (Raise OverflowError, w).
Proof.
  intros Hfile Hsize. unfold load_from_file.
  by rewrite Hfile, read_chunks_overflow.
Qed.

(** C10, as amended.  When the file [filename] holds [s], [load_from_file]
    returns, for every chunk size from 1 to [sys_maxsize] and whatever that
    size, what a single read of the whole file returns: the full text as
    text mode reads it, [universal_newlines s], which is exactly [s] when
    [s] has no carriage return.  For a larger chunk size the first read
    raises [OverflowError]; and for the chunk size 0 the empty string is
    returned.  The world is left as it is. *)
Theorem load_from_file_chunked (filename s : string) (w : world) :
  fs w !! filename = Some s →
  (∀ chunk_size, (1 ≤ chunk_size ≤ sys_maxsize)%Z →
     load_from_file filename chunk_size w = read_whole_file filename w)
  ∧ read_whole_file filename w = (Return (universal_newlines s), w)
  ∧ (CR ∉ String.list_ascii_of_string s → universal_newlines s = s)
  ∧ (∀ chunk_size, (sys_maxsize < chunk_size)%Z →
       load_from_file filename chunk_size w = (Raise OverflowError, w))
  ∧ load_from_file filename 0 w = (Return "", w).
Proof.
  intros Hfile.
  assert (Hwhole : read_whole_file filename w
                   = (Return (universal_newlines s), w)).
  { unfold read_whole_file. by rewrite Hfile. }
  split_and!.
  - intros chunk_size Hsize. rewrite Hwhole.
    apply load_from_file_read; [done| |lia].
    unfold sys_maxsize in *. lia.
  - done.
  - apply universal_newlines_id.
  - intros chunk_size Hsize. eapply load_from_file_overflow; eauto.
  - unfold load_from_file. by rewrite Hfile, read_chunks_0.
Qed.

(** A file that is absent is reported, whatever the chunk size. *)
Lemma load_from_file_missing filename chunk_size w :
  fs w !! filename = None →
  load_from_file filename chunk_size w = (Raise (FileNotFoundError filename), w).
Proof. intros Hfile. unfold load_from_file. by rewrite Hfile. Qed.

Lemma load_from_file_default filename s w :
  fs w !! filename = Some s →
  load_from_file filename default_chunk_size w
  = (Return (universal_newlines s), w).
Proof.
  intros Hfile.
  apply load_from_file_read; [done| |done].
  unfold default_chunk_size, sys_maxsize. lia.
Qed.


(** X11.  The edges of [load_from_file].  A file that is absent raises
    [FileNotFoundError] with the world left as it is, whatever the chunk
    size, even one no read takes: the file is opened first.  With a
    negative chunk size down to [- sys_maxsize - 1] the first read hands
    out the whole text, and the text returned is the whole text as text
    mode reads it; below that the first read raises [OverflowError]. *)
Theorem load_from_file_edges (filename : string) (w : world) :
  (fs w !! filename = None →
   ∀ chunk_size,
     load_from_file filename chunk_size w
     = (Raise (FileNotFoundError filename), w))
  ∧ (∀ s chunk_size,
       fs w !! filename = Some s →
       ((- sys_maxsize - 1 ≤ chunk_size < 0)%Z →
        load_from_file filename chunk_size w
        = (Return (universal_newlines s), w)
        ∧ file_read chunk_size (universal_newlines s)
          = Return (universal_newlines s, ""))
       ∧ ((chunk_size < - sys_maxsize - 1)%Z →
          load_from_file filename chunk_size w = (Raise OverflowError, w))).
Proof.
  split.
  - intros Hnone chunk_size. unfold load_from_file. by rewrite Hnone.
  - intros s chunk_size Hsome. split.
    + intros Hneg. split.
      * apply load_from_file_read; [done| |lia]. unfold sys_maxsize in *. lia.
      * rewrite file_read_in_range by (unfold sys_maxsize in *; lia).
        by rewrite (proj2 (Z.ltb_lt _ _) (proj2 Hneg)).
    + intros Hlow. eapply load_from_file_overflow; eauto.
Qed.

(** ** Dicts *)

Section dicts.
Context {V : Type}.
Implicit Types (d : list (string * V)) (k : string) (v : V).

Lemma dict_get_set_eq k v d : dict_get k (dict_set k v d) = Some v.
Proof.
  induction d as [|[k' v'] d IH]; simpl.
  - by rewrite String.eqb_refl.
  - destruct (String.eqb k k') eqn:E; simpl; rewrite ?String.eqb_refl, ?E; done.
Qed.

Lemma dict_get_set_ne k k' v d :
  k ≠ k' → dict_get k' (dict_set k v d) = dict_get k' d.
Proof.
  intros Hne%String.eqb_neq. induction d as [|[k0 v0] d IH]; simpl.
  - by rewrite String.eqb_sym, Hne.
  - destruct (String.eqb k k0) eqn:E; simpl.
    + apply String.eqb_eq in E. subst k0. by rewrite String.eqb_sym, Hne.
    + by rewrite IH.
Qed.

Lemma dict_get_set k k' v d :
  dict_get k' (dict_set k v d) = if String.eqb k k' then Some v else dict_get k' d.
Proof.
  destruct (String.eqb k k') eqn:E.
  - apply String.eqb_eq in E as <-. apply dict_get_set_eq.
  - apply String.eqb_neq in E. by apply dict_get_set_ne.
Qed.

Lemma dict_get_keys k d : is_Some (dict_get k d) ↔ k ∈ dict_keys d.
Proof.
  unfold dict_keys. induction d as [|[k' v'] d IH]; simpl.
  - split; [by intros [? ?]|by intros ?%elem_of_nil].
  - rewrite elem_of_cons. destruct (String.eqb k k') eqn:E.
    + apply String.eqb_eq in E. split; eauto.
    + apply String.eqb_neq in E. rewrite IH.
      split; [by right|by intros [?|?]].
Qed.

Lemma dict_get_None k d : dict_get k d = None ↔ k ∉ dict_keys d.
Proof. rewrite <- dict_get_keys, eq_None_not_Some. done. Qed.

Lemma dict_get_elem_of k v d : dict_get k d = Some v → (k, v) ∈ d.
Proof.
  induction d as [|[k' v'] d IH]; simpl; [done|].
  destruct (String.eqb k k') eqn:E.
  - apply String.eqb_eq in E as <-. intros [= <-]. apply elem_of_cons; auto.
  - intros ?. apply elem_of_cons; auto.
Qed.

(** In a dict, where no key occurs twice, every entry is looked up. *)
Lemma dict_get_NoDup k v d :
  NoDup (dict_keys d) → (k, v) ∈ d → dict_get k d = Some v.
Proof.
  unfold dict_keys. induction d as [|[k' v'] d IH]; simpl.
  - by intros _ ?%elem_of_nil.
  - intros [Hk' Hd]%NoDup_cons [[= -> ->]|Hin]%elem_of_cons.
    + by rewrite String.eqb_refl.
    + destruct (String.eqb k k') eqn:E; [|auto].
      apply String.eqb_eq in E as ->. destruct Hk'.
      apply list_elem_of_fmap. by exists (k', v).
Qed.

Lemma dict_keys_set k v d :
  dict_keys (dict_set k v d)
  = if dict_mem k d then dict_keys d else (dict_keys d ++ [k])%list.
Proof.
  unfold dict_mem, dict_keys. induction d as [|[k' v'] d IH]; csimpl; [done|].
  destruct (String.eqb k k') eqn:E; csimpl.
  - by apply String.eqb_eq in E as ->.
  - rewrite IH. by destruct (dict_get k d).
Qed.

Lemma dict_mem_true k d : dict_mem k d = true ↔ k ∈ dict_keys d.
Proof.
  rewrite <- dict_get_keys. unfold dict_mem.
  destruct (dict_get k d); split; try done; by intros [? ?].
Qed.

Lemma dict_mem_false k d : dict_mem k d = false ↔ k ∉ dict_keys d.
Proof. rewrite <- dict_mem_true. by destruct (dict_mem k d). Qed.

Lemma dict_keys_set_NoDup k v d :
  NoDup (dict_keys d) → NoDup (dict_keys (dict_set k v d)).
Proof.
  intros Hd. rewrite dict_keys_set. destruct (dict_mem k d) eqn:E; [done|].
  apply dict_mem_false in E. apply NoDup_app. split_and!; [done| |].
  - intros x Hx ->%list_elem_of_singleton. done.
  - apply NoDup_singleton.
Qed.

Lemma dict_set_fresh k v d :
  k ∉ dict_keys d → dict_set k v d = (d ++ [(k, v)])%list.
Proof.
  unfold dict_keys. induction d as [|[k' v'] d IH]; csimpl; [done|].
  intros [Hne Hin]%not_elem_of_cons.
  apply String.eqb_neq in Hne. rewrite Hne. by rewrite IH.
Qed.

Lemma dict_set_set k v v' d : dict_set k v (dict_set k v' d) = dict_set k v d.
Proof.
  induction d as [|[k0 v0] d IH]; simpl.
  - by rewrite String.eqb_refl.
  - destruct (String.eqb k k0) eqn:E; simpl.
    + by rewrite String.eqb_refl.
    + by rewrite E, IH.
Qed.

(** Entries of distinct new keys are appended in order. *)
Lemma foldl_dict_set_fresh (l d : list (string * V)) :
  NoDup (dict_keys (d ++ l)) →
  foldl (λ d kv, dict_set kv.1 kv.2 d) d l = (d ++ l)%list.
Proof.
  revert d. induction l as [|[k v] l IH]; intros d Hnodup; simpl.
  - by rewrite app_nil_r.
  - rewrite dict_set_fresh.
    + rewrite IH; rewrite <- app_assoc; done.
    + unfold dict_keys in *. rewrite fmap_app in Hnodup.
      apply NoDup_app in Hnodup as (_ & Hdisj & _).
      intros Hin. apply (Hdisj k Hin). csimpl. apply elem_of_cons; auto.
Qed.

Lemma dict_of_pairs_NoDup (l : list (string * V)) :
  NoDup (dict_keys l) → dict_of_pairs l = l.
Proof. intros Hl. unfold dict_of_pairs. by rewrite foldl_dict_set_fresh. Qed.

(** The keys of a dict built with [dict_set] are distinct. *)
Lemma foldl_dict_set_keys_NoDup (l d : list (string * V)) :
  NoDup (dict_keys d) →
  NoDup (dict_keys (foldl (λ d kv, dict_set kv.1 kv.2 d) d l)).
Proof.
  revert d. induction l as [|[k v] l IH]; intros d Hd; simpl; [done|].
  by apply IH, dict_keys_set_NoDup.
Qed.

(** Every entry of a dict built from pairs comes from a pair. *)
Lemma foldl_dict_set_get (l d : list (string * V)) k v :
  dict_get k (foldl (λ d kv, dict_set kv.1 kv.2 d) d l) = Some v →
  (k, v) ∈ l ∨ dict_get k d = Some v.
Proof.
  revert d. induction l as [|[k0 v0] l IH]; intros d; simpl; [auto|].
  intros [Hin|Hget]%IH.
  - left. apply elem_of_cons; auto.
  - rewrite dict_get_set in Hget. simpl in Hget.
    destruct (String.eqb k0 k) eqn:E; [|auto].
    apply String.eqb_eq in E as ->. injection Hget as ->.
    left. apply elem_of_cons; auto.
Qed.

(** Every key of the pairs is a key of the dict built from them. *)
Lemma foldl_dict_set_mem (l d : list (string * V)) k :
  k ∈ dict_keys l ∨ k ∈ dict_keys d →
  k ∈ dict_keys (foldl (λ d kv, dict_set kv.1 kv.2 d) d l).
Proof.
  revert d. induction l as [|[k0 v0] l IH]; intros d; simpl.
  - intros [Hin|Hin]; [|done]. by apply elem_of_nil in Hin.
  - intros Hin. apply IH. unfold dict_keys in Hin. csimpl in Hin.
    rewrite elem_of_cons in Hin. destruct Hin as [[->|Hin]|Hin]; auto.
    + right. apply dict_get_keys. rewrite dict_get_set_eq. eauto.
    + right. apply dict_get_keys. rewrite dict_get_set.
      destruct (String.eqb k0 k); [eauto|]. by apply dict_get_keys.
Qed.

Lemma same_mapping_refl d : same_mapping d d.
Proof. done. Qed.

Lemma same_mapping_sym d1 d2 : same_mapping d1 d2 → same_mapping d2 d1.
Proof. intros Hd k. by rewrite Hd. Qed.

Lemma same_mapping_trans d1 d2 d3 :
  same_mapping d1 d2 → same_mapping d2 d3 → same_mapping d1 d3.
Proof. intros H12 H23 k. by rewrite H12. Qed.

(** Two dicts with the same entries, in whatever order, hold the same
    key-value structure. *)
Lemma same_mapping_perm d1 d2 :
  NoDup (dict_keys d1) → d1 ≡ₚ d2 → same_mapping d1 d2.
Proof.
  intros Hnodup Hperm k.
  assert (Hnodup2 : NoDup (dict_keys d2)).
  { unfold dict_keys in *. by rewrite <- Hperm. }
  destruct (dict_get k d1) as [v|] eqn:Hget.
  - symmetry. apply dict_get_NoDup; [done|].
    rewrite <- Hperm. by apply dict_get_elem_of.
  - symmetry. apply dict_get_None. apply dict_get_None in Hget.
    unfold dict_keys in *. by rewrite <- Hperm.
Qed.

Lemma same_mapping_set k v d1 d2 :
  same_mapping d1 d2 → same_mapping (dict_set k v d1) (dict_set k v d2).
Proof. intros Hd k'. rewrite !dict_get_set. by rewrite Hd. Qed.

Lemma same_mapping_set_swap k1 v1 k2 v2 d :
  k1 ≠ k2 →
  same_mapping (dict_set k2 v2 (dict_set k1 v1 d))
    (dict_set k1 v1 (dict_set k2 v2 d)).
Proof.
  intros Hne k. rewrite !dict_get_set.
  destruct (String.eqb k2 k) eqn:E2, (String.eqb k1 k) eqn:E1; try done.
  apply String.eqb_eq in E1, E2. congruence.
Qed.

End dicts.

(** ** Key-value structures, two levels deep *)

Lemma same_value_refl v : same_value v v.
Proof. by destruct v. Qed.

Lemma same_value_sym v1 v2 : same_value v1 v2 → same_value v2 v1.
Proof.
  destruct v1, v2; simpl; try done; apply same_mapping_sym.
Qed.

Lemma same_value_trans v1 v2 v3 :
  same_value v1 v2 → same_value v2 v3 → same_value v1 v3.
Proof.
  destruct v1, v2, v3; simpl; try congruence; apply same_mapping_trans.
Qed.

Lemma same_mapping2_refl d : same_mapping2 d d.
Proof. intros k. destruct (dict_get k d); [apply same_value_refl|done]. Qed.

Lemma same_mapping2_sym d1 d2 : same_mapping2 d1 d2 → same_mapping2 d2 d1.
Proof.
  intros Hd k. specialize (Hd k).
  destruct (dict_get k d1), (dict_get k d2); try done. by apply same_value_sym.
Qed.

Lemma same_mapping2_trans d1 d2 d3 :
  same_mapping2 d1 d2 → same_mapping2 d2 d3 → same_mapping2 d1 d3.
Proof.
  intros H12 H23 k. specialize (H12 k). specialize (H23 k).
  destruct (dict_get k d1), (dict_get k d2), (dict_get k d3); try done.
  by eapply same_value_trans.
Qed.

(** ** Running a computation *)

Lemma bind_run {A B} (m : M A) (f : A → M B) (w : world) :
  (m ≫= f) w
  = match m w with
    | (Return a, w') => f a w'
    | (Raise exc, w') => (Raise exc, w')
    end.
Proof. reflexivity. Qed.

Lemma result_bind_run {A B} (r : result A) (f : A → result B) :
  r ≫= f
  = match r with
    | Return a => f a
    | Raise exc => Raise exc
    end.
Proof. reflexivity. Qed.
Section properties.
Context `{Collaborators}.

(** ** The fetcher *)

(** One step of [get_soup]: the request, then what each [except] clause
    does with its outcome. *)
Lemma get_soup_step url retries w :
  get_soup url retries w =
  match transport (length (requests w)) url with
  | Responds response =>
      if is_success response
      then (Return (BeautifulSoup (text response)), sent url w)
      else (Raise (HTTPStatusError url (status_code response)),
            printed (status_line url (status_code response)) (sent url w))
  | TimesOut =>
      match retries with
      | S retries =>
          match get_soup url retries (sent url w) with
          | (Return _, w') =>
              (Raise (TimeoutException url), printed (timeout_line url) w')
          | (Raise exc, w') => (Raise exc, w')
          end
      | O => (Raise (TimeoutException url),
              printed (timeout_line url) (sent url w))
      end
  | Fails => (Raise (RequestError url), printed (request_line url) (sent url w))
  | Invalid => (Raise (InvalidURL url), sent url w)
  end.
Proof.
  destruct retries; simpl;
    unfold mbind, M_bind, try_except, client_get, raise_for_status, sent;
    fold (get_soup url);
    destruct (transport (length (requests w)) url) as [response| | |]; simpl;
    try reflexivity;
    try (destruct (is_success response); reflexivity).
  destruct (get_soup url retries _) as [[soup|exc] w']; reflexivity.
Qed.

(** A request that is answered with a 2xx status gives the parsed body, at
    the first attempt already. *)
Lemma get_soup_answered url retries w response :
  transport (length (requests w)) url = Responds response →
  is_success response = true →
  get_soup url retries w = (Return (BeautifulSoup (text response)), sent url w).
Proof. intros Hget Hok. by rewrite get_soup_step, Hget, Hok. Qed.

(** Once its first request has timed out, [get_soup] never returns a
    document: the result of a retry is dropped and the timeout raised. *)
Lemma get_soup_timed_out url retries w :
  transport (length (requests w)) url = TimesOut →
  ∃ exc w', get_soup url retries w = (Raise exc, w').
Proof.
  intros Hget. rewrite get_soup_step, Hget. destruct retries as [|retries].
  - eauto.
  - destruct (get_soup url retries (sent url w)) as [[soup|exc] w']; eauto.
Qed.

(** [get_soup] returns a document only from a first request answered 2xx. *)
Lemma get_soup_returns url retries w soup w' :
  get_soup url retries w = (Return soup, w') →
  ∃ response,
    transport (length (requests w)) url = Responds response
    ∧ is_success response = true
    ∧ soup = BeautifulSoup (text response) ∧ w' = sent url w.
Proof.
  rewrite get_soup_step.
  destruct (transport (length (requests w)) url) as [response| | |] eqn:Hget.
  - destruct (is_success response) eqn:Hok; [|done].
    intros [= <- <-]. eauto.
  - destruct retries as [|retries]; [done|].
    by destruct (get_soup url retries (sent url w)) as [[?|?] ?].
  - done.
  - done.
Qed.

(** [get_soup] touches no file. *)
Lemma get_soup_fs url retries w r w' :
  get_soup url retries w = (r, w') → fs w' = fs w.
Proof.
  revert w r w'. induction retries as [|retries IH]; intros w r w';
    rewrite get_soup_step;
    destruct (transport (length (requests w)) url) as [response| | |];
    try (destruct (is_success response)); try (by intros [= <- <-]).
  destruct (get_soup url retries (sent url w)) as [[soup|exc] w1] eqn:Hrec;
    apply IH in Hrec; by intros [= <- <-].
Qed.

(** C1.  What [get_soup] does with the retry budget 2 when the first two
    requests time out: whether the third request is answered with a 2xx
    status or times out as well, the call raises the timeout, after exactly
    three requests and one line of diagnostic.  The answer of the third
    request is dropped. *)
Theorem get_soup_budget_2 (url : string) (w : world) :
  let n := length (requests w) in
  transport n url = TimesOut →
  transport (S n) url = TimesOut →
  (transport (S (S n)) url = TimesOut
   ∨ ∃ response,
       transport (S (S n)) url = Responds response ∧ is_success response = true) →
  get_soup url 2 w =
    (Raise (TimeoutException url),
     World (fs w) (requests w ++ [url; url; url])
       (stdout w ++ [timeout_line url])).
Proof.
  intros n H1 H2 H3.
  assert (Hlen1 : length (requests (sent url w)) = S n).
  { unfold sent; simpl. rewrite length_app. simpl. lia. }
  assert (Hlen2 : length (requests (sent url (sent url w))) = S (S n)).
  { unfold sent; simpl. rewrite !length_app. simpl. lia. }
  rewrite get_soup_step. fold n. rewrite H1.
  rewrite get_soup_step, Hlen1, H2.
  rewrite get_soup_step, Hlen2.
  unfold printed, sent; simpl. rewrite <- !app_assoc. simpl.
  destruct H3 as [H3|(response & H3 & Hok)]; rewrite H3; [done|].
  by rewrite Hok.
Qed.

(** ** The fetcher, for every budget *)



Lemma sent_length url w : length (requests (sent url w)) = S (length (requests w)).
Proof. unfold sent; simpl. rewrite length_app. simpl. lia. Qed.



(** X1.  [get_soup] returns a document exactly when its first request is
    answered with a 2xx status: the document is the parsed body of that
    answer, one request was sent and nothing was printed.  No retry ever
    yields a document. *)
Theorem get_soup_returns_first_answer (url : string) (retries : nat)
    (w w' : world) (soup : node) :
  get_soup url retries w = (Return soup, w')
  ↔ ∃ response,
      transport (length (requests w)) url = Responds response
      ∧ is_success response = true
      ∧ soup = BeautifulSoup (text response)
      ∧ w' = sent url w.
Proof.
  split.
  - rewrite get_soup_step.
    destruct (transport (length (requests w)) url) as [response| | |] eqn:Hget.
    + destruct (is_success response) eqn:Hok; [|done].
      intros [= <- <-]. eauto.
    + destruct retries as [|retries]; [done|].
      by destruct (get_soup url retries (sent url w)) as [[?|?] ?].
    + done.
    + done.
  - intros (response & Hget & Hok & -> & ->). by apply get_soup_answered.
Qed.

(** The world a call of [get_soup] leaves. *)
Lemma get_soup_world (url : string) (retries : nat) (w : world) :
  ∃ k,
    (1 ≤ k ≤ S retries)%nat
    ∧ (get_soup url retries w).2
      = World (fs w) (requests w ++ replicate k url)
          (stdout w ++ match (get_soup url retries w).1 with
                       | Return _ => []
                       | Raise exc => diagnostic url exc
                       end).
Proof.
  revert w. induction retries as [|retries IH]; intros w; rewrite get_soup_step.
  - exists 1. split; [lia|].
    destruct (transport (length (requests w)) url) as [response| | |];
      [destruct (is_success response)| | |]; unfold sent, printed; simpl;
      by rewrite ?app_nil_r.
  - destruct (transport (length (requests w)) url) as [response| | |];
      [destruct (is_success response)| | |].
    + exists 1. split; [lia|]. unfold sent; simpl. by rewrite app_nil_r.
    + exists 1. split; [lia|done].
    + destruct (IH (sent url w)) as (k & [Hk1 Hk2] & Hworld).
      destruct (get_soup url retries (sent url w)) as [[soup|exc] w1];
        simpl in *; subst w1; exists (S k); (split; [lia|]);
        unfold printed, sent; simpl; by rewrite <- !app_assoc.
    + exists 1. split; [lia|done].
    + exists 1. split; [lia|]. unfold sent; simpl. by rewrite app_nil_r.
Qed.

(** X4.  What a call of [get_soup] leaves behind, whatever the network does: no
    file is touched; at least one call of [client.get] and at most one more
    than the budget are made, all for [url], after the calls recorded
    before; nothing is printed when a document is returned; when the call
    raises an exception one of its three [except] clauses is for, the line
    of that clause is printed, once, and no other; and when it raises
    anything else ([InvalidURL], for a [url] the client does not parse),
    nothing is printed. *)
Theorem get_soup_footprint (url : string) (retries : nat) (w : world) :
  fs (get_soup url retries w).2 = fs w
  ∧ (∃ k, (1 ≤ k ≤ S retries)%nat
          ∧ requests (get_soup url retries w).2
            = (requests w ++ replicate k url)%list)
  ∧ stdout (get_soup url retries w).2
    = (stdout w ++ match (get_soup url retries w).1 with
                   | Return _ => []
                   | Raise (TimeoutException _) => [timeout_line url]
                   | Raise (HTTPStatusError _ status_code) =>
                       [status_line url status_code]
                   | Raise (RequestError _) => [request_line url]
                   | Raise _ => []
                   end)%list.
Proof.
  destruct (get_soup_world url retries w) as (k & Hk & ->).
  simpl. split_and!; [done|by exists k|].
  destruct (get_soup url retries w).1 as [soup|exc]; [done|]. by destruct exc.
Qed.

(** ** The validator *)

(** A loop of checks passes when every check passes, and raises the
    [ValueError] of the first check that does not. *)
Lemma for_each_checks {A} (l : list A) (body : A → unit → result unit) :
  (∀ x, x ∈ l → body x () = Return () ∨ body x () = Raise ValueError) →
  (for_each l body () = Return () ↔ ∀ x, x ∈ l → body x () = Return ())
  ∧ (for_each l body () = Return () ∨ for_each l body () = Raise ValueError).
Proof.
  induction l as [|x l IH]; intros Hbody; simpl.
  - split; [|by left]. split; [by intros _ ? ?%elem_of_nil|done].
  - destruct IH as [IH1 IH2].
    { intros y Hy. apply Hbody. by apply elem_of_cons; right. }
    unfold mbind, result_bind.
    destruct (Hbody x) as [Hx|Hx]; [by apply elem_of_cons; left| |];
      rewrite Hx.
    + split; [|done]. rewrite IH1. split.
      * intros Hl y [->|Hy]%elem_of_cons; auto.
      * intros Hl y Hy. apply Hl. by apply elem_of_cons; right.
    + split; [|by right]. split; [done|].
      intros Hl. specialize (Hl x). rewrite Hx in Hl.
      by apply Hl, elem_of_cons; left.
Qed.

Lemma check_season_type_spec season_type :
  (check_season_type season_type () = Return ()
   ↔ season_type ∈ default_season_type)
  ∧ (check_season_type season_type () = Return ()
     ∨ check_season_type season_type () = Raise ValueError).
Proof.
  unfold check_season_type. case_bool_decide; split; auto; by split.
Qed.

Lemma check_season_types_spec (season_config : dict) :
  (for_each (dict_keys season_config) check_season_type () = Return ()
   ↔ ∀ season_type, season_type ∈ dict_keys season_config →
       season_type ∈ default_season_type)
  ∧ (for_each (dict_keys season_config) check_season_type () = Return ()
     ∨ for_each (dict_keys season_config) check_season_type () = Raise ValueError).
Proof.
  destruct (for_each_checks (dict_keys season_config) check_season_type)
    as [Hiff Hor].
  { intros t _. apply check_season_type_spec. }
  split; [|done]. rewrite Hiff.
  split; intros Hall t Ht; by apply check_season_type_spec, Hall.
Qed.

(** The check of one season passes exactly on a valid season. *)
Lemma check_season_spec (config : dict) season v :
  dict_get season config = Some v →
  (check_season config season () = Return () ↔ valid_season season v)
  ∧ (check_season config season () = Return ()
     ∨ check_season config season () = Raise ValueError).
Proof.
  intros Hget. unfold check_season, valid_season, season_key_ok. rewrite Hget.
  destruct v as [| | | | | |season_config];
    try (split; [split; [done|by intros (? & ? & _)]|by right]).
  destruct (str_split_1 "-" season) as [|first [|second [|third parts]]] eqn:Hsplit;
    try (split; [split; [done|by intros (? & _ & (? & ? & ? & ? & ? & _) & _)]
                |by right]).
  destruct (int first) as [first_year|] eqn:Hfirst; cycle 1.
  { split; [|by right]. split; [done|].
    intros (? & _ & (? & ? & ? & ? & [= <- <-] & ? & _) & _). congruence. }
  destruct (int second) as [second_year|] eqn:Hsecond; cycle 1.
  { split; [|by right]. split; [done|].
    intros (? & _ & (? & ? & ? & ? & [= <- <-] & _ & ? & _) & _). congruence. }
  case_bool_decide as Hrule.
  { split; [|by right]. split; [done|].
    intros (? & _ & (? & ? & ? & ? & [= <- <-] & ? & ? & ?) & _). congruence. }
  destruct (check_season_types_spec season_config) as [Hiff Hor].
  split; [|done]. rewrite Hiff. split.
  - intros Htypes. exists season_config. split_and!; [done| |done].
    by exists first, second, first_year, second_year.
  - by intros (? & [= <-] & _ & ?).
Qed.

(** The loop over the seasons passes exactly when every season is valid. *)
Lemma check_seasons_spec (seasons : dict) :
  (for_each (dict_keys seasons) (check_season seasons) () = Return ()
   ↔ ∀ season v, dict_get season seasons = Some v → valid_season season v)
  ∧ (for_each (dict_keys seasons) (check_season seasons) () = Return ()
     ∨ for_each (dict_keys seasons) (check_season seasons) () = Raise ValueError).
Proof.
  destruct (for_each_checks (dict_keys seasons) (check_season seasons))
    as [Hiff Hor].
  { intros season [v Hv]%dict_get_keys.
    by apply (check_season_spec seasons season v). }
  split; [|done]. rewrite Hiff. split.
  - intros Hall season v Hv.
    apply (check_season_spec seasons season v Hv), Hall.
    apply dict_get_keys. by exists v.
  - intros Hall season [v Hv]%dict_get_keys.
    apply (check_season_spec seasons season v Hv). by apply Hall.
Qed.

(** A value that is no valid config makes the validator raise
    [ValueError]. *)
Lemma is_valid_config_invalid (config : value) :
  ¬ ValidConfig config → is_valid_config config = Raise ValueError.
Proof.
  intros Hinvalid. destruct config as [| | | | | |seasons]; try done.
  destruct (check_seasons_spec seasons) as [Hiff [Hok|Hraise]]; [|done].
  destruct Hinvalid. exists seasons. split; [done|]. by apply Hiff.
Qed.

(** C3.  [is_valid_config] returns without error exactly on the valid
    configs: the mappings in which the value of every season is a mapping,
    every season key splits on the first ["-"] into two integers with
    (first mod 100) + 1 = second, and every season-type key is one of the
    three labels.  On every other value (one that is no mapping, a season
    whose value is no mapping, a season key that does not split into two
    integers or breaks the rule, a season type outside the three) it raises
    [ValueError]. *)
Theorem is_valid_config_spec (config : value) :
  (is_valid_config config = Return () ↔ ValidConfig config)
  ∧ (is_valid_config config = Return ()
     ∨ is_valid_config config = Raise ValueError).
Proof.
  unfold ValidConfig.
  destruct config as [| | | | | |seasons];
    try (split; [split; [done|by intros (? & ? & _)]|by right]).
  destruct (check_seasons_spec seasons) as [Hiff Hor].
  split; [|exact Hor]. simpl. rewrite Hiff. split.
  - intros Hall. by exists seasons.
  - by intros (? & [= <-] & Hall).
Qed.

(** ** The validator does not look at the URLs *)

Lemma dict_keys_fmap {V W} (g : V → W) (d : list (string * V)) :
  dict_keys (prod_map id g <$> d) = dict_keys d.
Proof.
  unfold dict_keys. rewrite <- list_fmap_compose. apply list_fmap_ext.
  by intros i [k v] _.
Qed.

Lemma dict_get_fmap {V W} (g : V → W) k (d : list (string * V)) :
  dict_get k (prod_map id g <$> d) = g <$> dict_get k d.
Proof.
  induction d as [|[k' v] d IH]; [done|]. csimpl.
  by destruct (String.eqb k k').
Qed.

Lemma for_each_ext {A S} (l : list A) (body body' : A → S → result S) acc :
  (∀ x acc, body x acc = body' x acc) →
  for_each l body acc = for_each l body' acc.
Proof.
  intros Hbody. revert acc. induction l as [|x l IH]; intros acc; [done|].
  simpl. rewrite Hbody. destruct (body' x acc) as [acc1|exc]; [|done].
  apply IH.
Qed.

(** X10.  [is_valid_config] never reads what is stored under a season type:
    whatever replaces the URLs of a config, a string or not, the outcome of
    the validation is the same. *)
Theorem is_valid_config_ignores_urls (f : value → value) (config : value) :
  is_valid_config (map_urls f config) = is_valid_config config.
Proof.
  destruct config as [| | | | | |seasons]; try done.
  unfold map_urls, is_valid_config. rewrite dict_keys_fmap.
  apply for_each_ext. intros season []. unfold check_season.
  rewrite dict_get_fmap.
  destruct (dict_get season seasons) as [[| | | | | |season_config]|]; try done.
  csimpl. by rewrite dict_keys_fmap.
Qed.

(** ** Tasks and the wait loop *)

(** Creating the tasks never raises: the outcome of each coroutine is kept
    in its task. *)
Lemma mapM_create_task {A B} (coro : A → M B) (l : list A) (w : world) :
  mapM (λ x, create_task (coro x)) l w
  = (Return (run_tasks coro l w).1, (run_tasks coro l w).2).
Proof.
  revert w. induction l as [|x l IH]; intros w; [done|].
  simpl. unfold mbind, M_bind, create_task, attempt at 1.
  destruct (coro x w) as [t w1]. rewrite IH.
  by destruct (run_tasks coro l w1) as [ts w2].
Qed.

Lemma run_tasks_length {A B} (coro : A → M B) (l : list A) (w : world) :
  length (run_tasks coro l w).1 = length l.
Proof.
  revert w. induction l as [|x l IH]; intros w; [done|]. simpl.
  destruct (coro x w) as [t w1]. specialize (IH w1).
  destruct (run_tasks coro l w1) as [ts w2]. simpl in *. by rewrite IH.
Qed.

(** The wait loop leaves the world alone. *)
Lemma wait_loop_drain {A S} (done : list (task A)) (body : A → S → result S)
    (acc : S) (w : world) :
  wait_loop done body acc w = (drain done body acc, w).
Proof.
  revert acc. induction done as [|t done IH]; intros acc; [done|].
  simpl. unfold mbind, M_bind, result_bind, await, lift.
  destruct t as [r|exc]; [|done].
  destruct (body r acc) as [acc'|exc]; [|done]. apply IH.
Qed.

Lemma completion_order_step {A} n sched (first : A) tasks :
  completion_order (S n) sched (first :: tasks)
  = nth (hd 0 sched `mod` S (length tasks)) (first :: tasks) first
    :: completion_order n (tl sched)
         (delete (hd 0 sched `mod` S (length tasks)) (first :: tasks)).
Proof. reflexivity. Qed.

(** Every schedule hands out every task exactly once. *)
Lemma completion_order_perm {A} (n : nat) (sched : list nat) (tasks : list A) :
  length tasks = n → completion_order n sched tasks ≡ₚ tasks.
Proof.
  revert sched tasks. induction n as [|n IH]; intros sched tasks Hlen.
  - by destruct tasks.
  - destruct tasks as [|first tasks]; [done|]. cbn [completion_order].
    set (pending := first :: tasks) in *.
    set (i := hd 0 sched `mod` length pending).
    assert (Hi : i < length pending).
    { apply Nat.mod_upper_bound. rewrite Hlen. lia. }
    destruct (lookup_lt_is_Some_2 pending i Hi) as [t Ht].
    rewrite (nth_lookup_Some _ _ _ _ Ht).
    rewrite (delete_Permutation pending i t Ht) at 2.
    constructor. apply IH.
    rewrite length_delete by eauto. lia.
Qed.

Lemma as_completed_perm {A} (sched : list nat) (tasks : list A) :
  as_completed sched tasks ≡ₚ tasks.
Proof. by apply completion_order_perm. Qed.

(** Every order of the tasks is the completion order of some schedule. *)
Lemma as_completed_onto {A} (tasks done : list A) :
  done ≡ₚ tasks → ∃ sched, as_completed sched tasks = done.
Proof.
  unfold as_completed. revert tasks.
  induction done as [|t done IH]; intros tasks Hperm.
  - apply Permutation_nil_l in Hperm. subst tasks. exists nil. reflexivity.
  - assert (Hin : t ∈ tasks) by (rewrite <- Hperm; apply elem_of_cons; auto).
    apply list_elem_of_lookup in Hin as [i Hi].
    destruct (IH (delete i tasks)) as [sched Hsched].
    { apply (Permutation_cons_inv (a := t)).
      by rewrite Hperm, <- delete_Permutation. }
    exists (i :: sched).
    pose proof (lookup_lt_Some _ _ _ Hi) as Hlt.
    destruct tasks as [|first tasks]; [done|].
    change (length (first :: tasks)) with (S (length tasks)) in *.
    rewrite completion_order_step. cbn [hd tl].
    rewrite Nat.mod_small by done.
    rewrite (nth_lookup_Some _ _ _ _ Hi). f_equal.
    rewrite <- Hsched. f_equal.
    rewrite length_delete by eauto. simpl. lia.
Qed.

Lemma drain_cons {A S} r (done : list (task A)) (body : A → S → result S) acc :
  drain (Return r :: done) body acc
  = match body r acc with
    | Return acc' => drain done body acc'
    | Raise exc => Raise exc
    end.
Proof. reflexivity. Qed.

Lemma drain_cons2 {A S} r1 r2 (done : list (task A)) (body : A → S → result S)
    acc :
  drain (Return r1 :: Return r2 :: done) body acc
  = match acc1 ← body r1 acc; body r2 acc1 with
    | Return acc' => drain done body acc'
    | Raise exc => Raise exc
    end.
Proof.
  rewrite drain_cons. unfold mbind, result_bind.
  destruct (body r1 acc); [|done]. by rewrite drain_cons.
Qed.

(** A task that fails the phase makes the loop raise, wherever it comes in
    the completion order. *)
Lemma drain_fails {A S} (done : list (task A)) (body : A → S → result S)
    (acc : S) t :
  t ∈ done → task_fails body t → ∃ exc, drain done body acc = Raise exc.
Proof.
  revert acc. induction done as [|t' done IH]; intros acc Hin Hfail.
  - by apply elem_of_nil in Hin.
  - simpl. unfold mbind, result_bind.
    destruct t' as [r|exc]; [|eauto].
    destruct (body r acc) as [acc'|exc] eqn:Hbody; [|eauto].
    apply elem_of_cons in Hin as [->|Hin]; [|by apply IH].
    destruct (Hfail acc) as [exc Hexc]. congruence.
Qed.

(** The loop returns only when every task returned. *)
Lemma drain_returns {A S} (done : list (task A)) (body : A → S → result S)
    (acc acc' : S) :
  drain done body acc = Return acc' → ∃ results, done = Return <$> results.
Proof.
  revert acc. induction done as [|t done IH]; intros acc.
  - by exists [].
  - simpl. unfold mbind, result_bind. destruct t as [r|exc]; [|done].
    destruct (body r acc) as [acc1|exc]; [|done].
    intros [results ->]%IH. by exists (r :: results).
Qed.

Lemma Permutation_fmap_inv {A B} (f : A → B) (l : list A) (k : list B) :
  k ≡ₚ f <$> l → ∃ l', k = f <$> l' ∧ l' ≡ₚ l.
Proof.
  intros Hperm.
  assert (Hmap : ∀ l0 : list A, f <$> l0 = map f l0).
  { induction l0 as [|x l0 IH]; [done|]. csimpl. by rewrite IH. }
  rewrite Hmap in Hperm.
  destruct (Permutation_map_inv f l Hperm) as (l' & -> & Hl').
  exists l'. split; [symmetry; apply Hmap|by symmetry].
Qed.

(** ** The network side leaves the files alone *)

Lemma web_only_ret {A} (a : A) : web_only (mret a).
Proof. intros w. split_and!; [done|by intros exc|by intros w' Hw'; simpl]. Qed.

Lemma web_only_raise {A} exc : cache_error exc = false → web_only (@raise A exc).
Proof.
  intros Hexc w. split_and!; [done| |by intros w' Hw'; simpl].
  by intros exc' [= <-].
Qed.

Lemma web_only_lift {A} (r : result A) : no_cache_error r → web_only (lift r).
Proof. intros Hr w. split_and!; [done|done|by intros w' Hw'; simpl]. Qed.

Lemma web_only_print line : web_only (print line).
Proof. intros w. split_and!; [done|by intros exc|by intros w' Hw'; simpl]. Qed.

Lemma web_only_bind {A B} (m : M A) (f : A → M B) :
  web_only m → (∀ a, web_only (f a)) → web_only (m ≫= f).
Proof.
  intros Hm Hf w. destruct (Hm w) as (Hfs & Hexc & Hdep).
  unfold mbind, M_bind.
  destruct (m w) as [[a|exc] w1] eqn:Hmw; simpl in *.
  - destruct (Hf a w1) as (Hfs1 & Hexc1 & Hdep1). split_and!.
    + congruence.
    + done.
    + intros w' Hw'. destruct (Hdep w' Hw') as [Hr Hreq].
      destruct (m w') as [r' w1']; simpl in *. subst r'.
      by apply Hdep1.
  - split_and!; [done|by intros exc' [= <-]; apply Hexc|].
    intros w' Hw'. destruct (Hdep w' Hw') as [Hr Hreq].
    destruct (m w') as [r' w1']; simpl in *. by subst r'.
Qed.

Lemma web_only_try_except {A} (body : M A) (handler : exn → M A) :
  web_only body →
  (∀ exc, cache_error exc = false → web_only (handler exc)) →
  web_only (try_except body handler).
Proof.
  intros Hbody Hhandler w. destruct (Hbody w) as (Hfs & Hexc & Hdep).
  unfold try_except.
  destruct (body w) as [[a|exc] w1] eqn:Hbw; simpl in *.
  - split_and!; [done|by intros exc|].
    intros w' Hw'. destruct (Hdep w' Hw') as [Hr Hreq].
    destruct (body w') as [r' w1']; simpl in *. by subst r'.
  - destruct (Hhandler exc (Hexc exc eq_refl) w1) as (Hfs1 & Hexc1 & Hdep1).
    split_and!.
    + congruence.
    + done.
    + intros w' Hw'. destruct (Hdep w' Hw') as [Hr Hreq].
      destruct (body w') as [r' w1']; simpl in *. subst r'.
      by apply Hdep1.
Qed.

Lemma web_only_client_get url : web_only (client_get url).
Proof.
  intros w. unfold client_get. split_and!.
  - by destruct (transport _ url).
  - intros exc. by destruct (transport _ url); intros [= <-].
  - intros w' Hw'. rewrite Hw'. by destruct (transport _ url).
Qed.

Lemma web_only_raise_for_status url response :
  web_only (raise_for_status url response).
Proof.
  unfold raise_for_status. destruct (is_success response).
  - apply web_only_ret.
  - by apply web_only_raise.
Qed.

Lemma web_only_get_soup url retries : web_only (get_soup url retries).
Proof.
  induction retries as [|retries IH]; simpl;
    (apply web_only_bind; [|intros; apply web_only_ret]);
    (apply web_only_try_except;
     [apply web_only_bind; [apply web_only_client_get|]; intros response;
      apply web_only_bind; [apply web_only_raise_for_status|];
      intros; apply web_only_ret|]);
    intros exc Hexc; destruct exc; try (by apply web_only_raise).
  apply web_only_bind.
  { apply web_only_bind; [apply IH|]. intros; apply web_only_ret. }
  intros _. apply web_only_bind; [apply web_only_print|]. intros _.
  by apply web_only_raise.
Qed.

Lemma web_only_get_season season retries : web_only (get_season season retries).
Proof.
  apply web_only_bind; [apply web_only_get_soup|]. intros; apply web_only_ret.
Qed.

(** The tasks of a phase on the network side: the files are left alone, no
    task holds an exception a cache gate would absorb, and the tasks and
    the requests depend on the requests sent before only. *)
Lemma run_tasks_web_only {A B} (coro : A → M B) (l : list A) (w : world) :
  (∀ x, web_only (coro x)) →
  fs (run_tasks coro l w).2 = fs w
  ∧ Forall no_cache_error (run_tasks coro l w).1
  ∧ ∀ w', requests w' = requests w →
      (run_tasks coro l w').1 = (run_tasks coro l w).1
      ∧ requests (run_tasks coro l w').2 = requests (run_tasks coro l w).2.
Proof.
  intros Hcoro. revert w. induction l as [|x l IH]; intros w.
  - split_and!; [done|by constructor|by intros w' Hw'; simpl].
  - simpl. destruct (Hcoro x w) as (Hfs & Hexc & Hdep).
    destruct (coro x w) as [t w1] eqn:Hx.
    destruct (IH w1) as (Hfs1 & Hexc1 & Hdep1).
    destruct (run_tasks coro l w1) as [ts w2] eqn:Hl. simpl in *.
    split_and!.
    + congruence.
    + by constructor.
    + intros w' Hw'. destruct (Hdep w' Hw') as [Ht Hreq].
      destruct (coro x w') as [t' w1']. simpl in *. subst t'.
      destruct (Hdep1 w1' Hreq) as [Hts Hreq2].
      destruct (run_tasks coro l w1') as [ts' w2']. simpl in *.
      by subst ts'.
Qed.

(** The wait loop raises what a task holds or what its body raises. *)
Lemma drain_no_cache_error {A S} (done : list (task A))
    (body : A → S → result S) (acc : S) :
  Forall no_cache_error done →
  (∀ r acc, no_cache_error (body r acc)) →
  no_cache_error (drain done body acc).
Proof.
  intros Hdone Hbody. revert acc.
  induction Hdone as [|t done Ht Hdone IH]; intros acc; [by intros exc|].
  simpl. unfold mbind, result_bind. destruct t as [r|exc].
  - pose proof (Hbody r acc) as Hr. destruct (body r acc); [apply IH|done].
  - intros exc' [= <-]. by apply Ht.
Qed.

(** A continuation need only be on the network side for the values the
    first computation can return. *)
Lemma web_only_bind_post {A B} (P : A → Prop) (m : M A) (f : A → M B) :
  web_only m →
  (∀ w a, (m w).1 = Return a → P a) →
  (∀ a, P a → web_only (f a)) →
  web_only (m ≫= f).
Proof.
  intros Hm Hpost Hf w. destruct (Hm w) as (Hfs & Hexc & Hdep).
  unfold mbind, M_bind. specialize (Hpost w).
  destruct (m w) as [[a|exc] w1] eqn:Hmw; simpl in *.
  - destruct (Hf a (Hpost a eq_refl) w1) as (Hfs1 & Hexc1 & Hdep1). split_and!.
    + congruence.
    + done.
    + intros w' Hw'. destruct (Hdep w' Hw') as [Hr Hreq].
      destruct (m w') as [r' w1']; simpl in *. subst r'.
      by apply Hdep1.
  - split_and!; [done|by intros exc' [= <-]; apply Hexc|].
    intros w' Hw'. destruct (Hdep w' Hw') as [Hr Hreq].
    destruct (m w') as [r' w1']; simpl in *. by subst r'.
Qed.

Lemma web_only_attempt {A} (m : M A) : web_only m → web_only (attempt m).
Proof.
  intros Hm w. destruct (Hm w) as (Hfs & Hexc & Hdep). unfold attempt.
  destruct (m w) as [r w1] eqn:Hmw; simpl in *. split_and!; [done|done|].
  intros w' Hw'. destruct (Hdep w' Hw') as [Hr Hreq].
  destruct (m w') as [r' w1']; simpl in *. by subst r'.
Qed.

(** A task of the network side holds no exception a cache gate would
    absorb. *)
Lemma create_task_post {A} (coro : M A) w (t : task A) :
  web_only coro → (create_task coro w).1 = Return t → no_cache_error t.
Proof.
  intros Hm. destruct (Hm w) as (_ & Hexc & _).
  unfold create_task, attempt. destruct (coro w) as [r w1]; simpl in *.
  by intros [= <-].
Qed.

Lemma web_only_mapM {A B} (f : A → M B) (l : list A) :
  (∀ x, web_only (f x)) → web_only (mapM f l).
Proof.
  intros Hf. induction l as [|x l IH]; simpl.
  - apply web_only_ret.
  - apply web_only_bind; [apply Hf|]. intros y.
    apply web_only_bind; [apply IH|]. intros k. apply web_only_ret.
Qed.

Lemma mapM_post {A B} (P : B → Prop) (f : A → M B) (l : list A) w k :
  (∀ x w y, (f x w).1 = Return y → P y) →
  (mapM f l w).1 = Return k → Forall P k.
Proof.
  intros Hf. revert w k. induction l as [|x l IH]; intros w k; simpl.
  - intros [= <-]. constructor.
  - unfold mbind, M_bind. specialize (Hf x w).
    destruct (f x w) as [[y|exc] w1]; simpl in *; [|done].
    specialize (IH w1).
    destruct (mapM f l w1) as [[k'|exc] w2]; simpl in *; [|done].
    intros [= <-]. constructor; auto.
Qed.

Lemma web_only_for_each_M {A S} (P : S → Prop) (l : list A)
    (body : A → S → M S) (acc : S) :
  (∀ x acc, P acc → web_only (body x acc)) →
  (∀ x acc w acc', P acc → (body x acc w).1 = Return acc' → P acc') →
  P acc →
  web_only (for_each_M l body acc)
  ∧ ∀ w acc', (for_each_M l body acc w).1 = Return acc' → P acc'.
Proof.
  intros Hbody Hpost. revert acc. induction l as [|x l IH]; intros acc Hacc.
  - split; [apply web_only_ret|]. by intros w acc' [= <-].
  - split.
    + simpl. apply (web_only_bind_post P); [by apply Hbody|by eauto|].
      intros acc1 Hacc1. by apply IH.
    + intros w acc'. simpl. unfold mbind, M_bind.
      pose proof (Hpost x acc w) as Hx.
      destruct (body x acc w) as [[acc1|exc] w1]; simpl in *; [|done].
      apply IH; eauto.
Qed.

Lemma web_only_wait_loop {A S} (done : list (task A)) (body : A → S → result S)
    (acc : S) :
  Forall no_cache_error done →
  (∀ r acc, no_cache_error (body r acc)) →
  web_only (wait_loop done body acc).
Proof.
  intros Hdone Hbody w. rewrite wait_loop_drain. split_and!; [done| |].
  - by apply drain_no_cache_error.
  - intros w' Hw'. by rewrite wait_loop_drain.
Qed.

Lemma for_each_no_cache_error {A S} (l : list A) (body : A → S → result S)
    (acc : S) :
  (∀ x acc, no_cache_error (body x acc)) → no_cache_error (for_each l body acc).
Proof.
  intros Hbody. revert acc. induction l as [|x l IH]; intros acc; [by intros exc|].
  simpl. unfold mbind, result_bind.
  pose proof (Hbody x acc) as Hx. destruct (body x acc); [apply IH|done].
Qed.

Lemma merge_season_no_cache_error done config :
  no_cache_error (merge_season done config).
Proof.
  destruct done as [soup season]. unfold merge_season.
  destruct (find_id "stage_sn" soup) as [element|]; [|by intros exc [= <-]].
  destruct (length (find_all "option" element) =? 0)%nat;
    [by intros exc [= <-]|].
  unfold mbind, result_bind.
  pose proof (for_each_no_cache_error (find_all "option" element)
                (add_season_type season) []) as Hloop.
  destruct (for_each _ _ _); [by intros exc|].
  intros exc' [= <-]. apply Hloop; [|done].
  intros option acc. unfold add_season_type.
  destruct (dict_mem _ _); [|by intros exc' [= <-]].
  by destruct (dict_get _ _); intros exc' [= <-].
Qed.

Lemma store_page_no_cache_error done database :
  no_cache_error (store_page done database).
Proof.
  destruct done as [[data season] season_type]. unfold store_page.
  by destruct (dict_get season database) as [[]|]; intros exc [= <-].
Qed.

Lemma web_only_load_config_from_web sched :
  web_only (load_config_from_web sched).
Proof.
  unfold load_config_from_web.
  apply web_only_bind; [apply web_only_get_soup|]. intros soup.
  destruct (find_id "season_name" soup) as [element|];
    [|by apply web_only_raise].
  destruct (length _ =? 0)%nat; [by apply web_only_raise|].
  apply (web_only_bind_post (Forall no_cache_error)).
  - apply web_only_mapM. intros season. apply web_only_attempt.
    apply web_only_get_season.
  - intros w tasks. apply mapM_post. intros season w' t.
    apply create_task_post, web_only_get_season.
  - intros tasks Htasks.
    apply web_only_bind; [|intros; apply web_only_ret].
    apply web_only_wait_loop; [|apply merge_season_no_cache_error].
    unfold as_completed. by rewrite completion_order_perm.
Qed.

Lemma mapM_no_cache_error {A B} (f : A → result B) (l : list A) :
  (∀ x, no_cache_error (f x)) → no_cache_error (mapM f l).
Proof.
  intros Hf. induction l as [|x l IH]; simpl; [by intros exc|].
  unfold mbind, result_bind. pose proof (Hf x) as Hx.
  destruct (f x) as [y|exc]; [|by intros exc' [= <-]; apply Hx].
  destruct (mapM f l) as [k|exc]; [by intros exc|].
  intros exc' [= <-]. by apply IH.
Qed.

Lemma add_row_no_cache_error data_type_name data_type row database :
  no_cache_error (add_row data_type_name data_type row database).
Proof.
  unfold add_row, mbind, result_bind, player_name_of.
  destruct (find "th" row) as [th|]; [|by intros exc [= <-]].
  destruct (find "a" th) as [a|]; [|by intros exc [= <-]].
  pose proof (mapM_no_cache_error (λ col, tag_getitem col data_type)
                (find_all "td" row)) as Hdata.
  destruct (mapM _ _) as [player_data|exc].
  - destruct (dict_mem _ database);
      by destruct (dict_get _ _) as [[]|]; intros exc [= <-].
  - intros exc' [= <-]. apply Hdata; [|done].
    intros col. unfold tag_getitem.
    by destruct (dict_get _ _); intros exc' [= <-].
Qed.

Lemma add_mode_no_cache_error tbody mode database :
  no_cache_error (add_mode tbody mode database).
Proof.
  unfold add_mode. destruct tbody as [tbody|]; [|by intros exc [= <-]].
  apply for_each_no_cache_error. intros row acc. apply add_row_no_cache_error.
Qed.

Lemma web_only_parse_webpage url season season_type :
  web_only (parse_webpage url season season_type).
Proof.
  unfold parse_webpage. apply web_only_bind.
  - destruct url; try (by apply web_only_raise). apply web_only_get_soup.
  - intros soup. apply web_only_bind; [|intros; apply web_only_ret].
    apply web_only_lift, for_each_no_cache_error.
    intros mode acc. apply add_mode_no_cache_error.
Qed.

Lemma web_only_spawn_tasks config :
  web_only (spawn_tasks config)
  ∧ ∀ w spawned, (spawn_tasks config w).1 = Return spawned →
      Forall no_cache_error spawned.2.
Proof.
  unfold spawn_tasks.
  destruct config as [| | | | | |seasons];
    try (split; [by apply web_only_raise|done]).
  apply (web_only_for_each_M (λ acc, Forall no_cache_error acc.2)).
  - intros season acc Hacc. unfold spawn_season.
    destruct (dict_get season seasons) as [[| | | | | |season_config]|];
      try (by apply web_only_raise).
    apply web_only_bind; [|intros; apply web_only_ret].
    apply web_only_mapM. intros season_type.
    destruct (dict_get season_type season_config) as [url|];
      [|by apply web_only_raise].
    apply web_only_attempt, web_only_parse_webpage.
  - intros season acc w acc' Hacc. unfold spawn_season.
    destruct (dict_get season seasons) as [[| | | | | |season_config]|];
      try done.
    rewrite bind_run.
    set (spawn := λ season_type,
           match dict_get season_type season_config with
           | Some url => create_task (parse_webpage url season season_type)
           | None => raise (KeyError season_type)
           end).
    pose proof (mapM_post no_cache_error spawn (dict_keys season_config) w)
      as Hnew.
    destruct (mapM spawn (dict_keys season_config) w)
      as [[new|exc] w1] eqn:Hmap; [|by intros [=]].
    intros [= <-]. cbn [fst snd]. apply Forall_app. split; [done|].
    apply Hnew; [|exact (f_equal fst Hmap)]. intros season_type w' t.
    unfold spawn.
    destruct (dict_get season_type season_config) as [url|]; [|done].
    apply create_task_post, web_only_parse_webpage.
  - constructor.
Qed.

Lemma web_only_resolve_data sched config : web_only (resolve_data sched config).
Proof.
  unfold resolve_data. destruct (web_only_spawn_tasks config) as [Hweb Hpost].
  apply (web_only_bind_post (λ spawned, Forall no_cache_error spawned.2));
    [done|done|].
  intros spawned Htasks.
  apply web_only_wait_loop; [|apply store_page_no_cache_error].
  unfold as_completed. by rewrite completion_order_perm.
Qed.

(** ** The config resolver *)

(** The inner loop records one entry per option when every option carries
    a [value]. *)
Lemma add_season_types_ok season options acc :
  (∀ option, option ∈ options →
     is_Some (dict_get "value" (tag_attrs option))) →
  for_each options (add_season_type season) acc
  = Return (foldl (λ d kv, dict_set kv.1 kv.2 d) acc
              (omap (season_entry season) options)).
Proof.
  revert acc. induction options as [|option options IH]; intros acc Hvalue.
  - done.
  - destruct (Hvalue option) as [v Hv]; [by apply elem_of_cons; left|].
    simpl. unfold mbind, result_bind, add_season_type at 1, dict_mem.
    unfold season_entry at 1. rewrite Hv. simpl.
    apply IH. intros o Ho. apply Hvalue. by apply elem_of_cons; right.
Qed.

(** It raises [MissingAttributeError] at the first option without one. *)
Lemma add_season_types_missing season options acc option :
  option ∈ options → dict_get "value" (tag_attrs option) = None →
  for_each options (add_season_type season) acc
  = Raise (MissingAttributeError "option" "value").
Proof.
  revert acc. induction options as [|o options IH]; intros acc Hin Hnone.
  - by apply elem_of_nil in Hin.
  - simpl. unfold mbind, result_bind, add_season_type at 1, dict_mem.
    destruct (dict_get "value" (tag_attrs o)) as [v|] eqn:Hv; [|done].
    apply elem_of_cons in Hin as [->|Hin]; [congruence|]. by apply IH.
Qed.

Lemma options_of_stage soup element :
  find_id "stage_sn" soup = Some element →
  options_of "stage_sn" soup = find_all "option" element.
Proof. unfold options_of. by intros ->. Qed.

Lemma options_of_found id soup :
  options_of id soup ≠ [] →
  ∃ element, find_id id soup = Some element
             ∧ options_of id soup = find_all "option" element.
Proof.
  unfold options_of. destruct (find_id id soup) as [element|]; [eauto|done].
Qed.

Lemma merge_season_options soup season config element :
  find_id "stage_sn" soup = Some element →
  find_all "option" element ≠ [] →
  merge_season (soup, season) config
  = (season_config ← for_each (find_all "option" element)
                        (add_season_type season) [];
     Return (dict_set season (VDict season_config)
               (dict_set season (VDict []) config))).
Proof.
  intros Hfind Hoptions. unfold merge_season. rewrite Hfind.
  by destruct (find_all "option" element).
Qed.

(** A season page that can be extracted sets the entry of its season. *)
Lemma merge_season_ok soup season config :
  season_page_ok soup →
  merge_season (soup, season) config
  = Return (dict_set season
              (VDict (season_entries season (options_of "stage_sn" soup)))
              config).
Proof.
  intros [Hoptions Hvalue].
  destruct (options_of_found _ _ Hoptions) as (element & Hfind & Heq).
  rewrite Heq in Hoptions, Hvalue. unfold season_entries. rewrite Heq.
  rewrite (merge_season_options _ _ _ _ Hfind Hoptions).
  rewrite add_season_types_ok by done.
  unfold mbind, result_bind. by rewrite dict_set_set.
Qed.

(** A season page that cannot be extracted raises, whatever was merged
    before. *)
Lemma merge_season_fails soup season config :
  ¬ season_page_ok soup → ∃ exc, merge_season (soup, season) config = Raise exc.
Proof.
  intros Hbad.
  destruct (find_id "stage_sn" soup) as [element|] eqn:Hfind; cycle 1.
  { unfold merge_season. rewrite Hfind. eauto. }
  destruct (decide (find_all "option" element = [])) as [Hnil|Hoptions].
  { unfold merge_season. rewrite Hfind, Hnil. eauto. }
  rewrite (merge_season_options _ _ _ _ Hfind Hoptions).
  destruct (decide (Forall (λ o, is_Some (dict_get "value" (tag_attrs o)))
                      (find_all "option" element))) as [Hall|Hsome].
  - destruct Hbad. rewrite Forall_forall in Hall.
    split; by rewrite (options_of_stage _ _ Hfind).
  - apply not_Forall_Exists in Hsome; [|apply _].
    apply Exists_exists in Hsome as (o & Hin & Hnone).
    apply eq_None_not_Some in Hnone.
    rewrite (add_season_types_missing season _ [] o) by done.
    eauto.
Qed.

(** X6.  What the extraction of a season page raises, whatever was merged
    before: [ElementNotFoundError] for the element of id [stage_sn] when
    the page has none, [ElementNotFoundError] for the options when that
    element lists none, and [MissingAttributeError] for the [value] of an
    option when one of the options has no such attribute. *)
Lemma merge_season_errors soup season config :
  (find_id "stage_sn" soup = None →
   merge_season (soup, season) config
   = Raise (ElementNotFoundError "id='stage_sn'"))
  ∧ (∀ element, find_id "stage_sn" soup = Some element →
       find_all "option" element = [] →
       merge_season (soup, season) config
       = Raise (ElementNotFoundError "option"))
  ∧ (∀ element option, find_id "stage_sn" soup = Some element →
       option ∈ find_all "option" element →
       dict_get "value" (tag_attrs option) = None →
       merge_season (soup, season) config
       = Raise (MissingAttributeError "option" "value")).
Proof.
  unfold merge_season. split_and!.
  - by intros ->.
  - by intros element -> ->.
  - intros element option Hfind Hin Hnone.
    fold (merge_season (soup, season) config).
    rewrite (merge_season_options _ _ _ _ Hfind).
    + by rewrite (add_season_types_missing season _ [] option).
    + intros Hnil. rewrite Hnil in Hin. by apply elem_of_nil in Hin.
Qed.

Lemma season_entries_built_from season options :
  (∀ option, option ∈ options →
     is_Some (dict_get "value" (tag_attrs option))) →
  built_from season options (season_entries season options).
Proof.
  intros Hvalue. unfold season_entries, dict_of_pairs. split.
  - intros season_type v [Hin|Hget]%foldl_dict_set_get; [|done].
    apply list_elem_of_omap in Hin as (o & Ho & Hentry).
    unfold season_entry in Hentry.
    destruct (dict_get "value" (tag_attrs o)) as [value|] eqn:Hv; [|done].
    injection Hentry as <- <-. by exists o, value.
  - intros o Ho. apply dict_get_keys, foldl_dict_set_mem. left.
    destruct (Hvalue o Ho) as [value Hv].
    apply list_elem_of_fmap.
    exists (get_text o, VStr (record_url season value)). split; [done|].
    apply list_elem_of_omap. exists o. split; [done|].
    unfold season_entry. by rewrite Hv.
Qed.

Lemma get_season_answered season retries w response :
  transport (length (requests w)) (season_url season) = Responds response →
  is_success response = true →
  get_season season retries w
  = (Return (BeautifulSoup (text response), season), sent (season_url season) w).
Proof.
  intros Hget Hok. unfold get_season, mbind, M_bind.
  fold (season_url season). by rewrite (get_soup_answered _ _ _ _ Hget Hok).
Qed.

(** When every season request is answered, every task returns its page and
    exactly one request per season was sent. *)
Lemma run_season_tasks seasons responses retries w :
  answered (length (requests w)) (season_url <$> seasons) responses →
  run_tasks (λ s, get_season s retries) seasons w
  = (Return <$> season_results seasons responses,
     World (fs w) (requests w ++ (season_url <$> seasons)) (stdout w)).
Proof.
  revert responses w.
  induction seasons as [|season seasons IH]; intros [|response responses] w;
    try done.
  - intros _. simpl. rewrite app_nil_r. by destruct w.
  - csimpl. intros (Hget & Hok & Hrest).
    rewrite (get_season_answered _ _ _ _ Hget Hok).
    rewrite (IH responses (sent (season_url season) w)).
    + unfold sent; simpl. by rewrite <- app_assoc.
    + unfold sent; simpl. rewrite length_app. simpl.
      by replace (length (requests w) + 1) with (S (length (requests w))) by lia.
Qed.

(** Pages that can all be extracted are merged entry by entry. *)
Lemma drain_merge_ok (results : list (node * string)) (config : dict) :
  Forall (λ done, season_page_ok done.1) results →
  drain (Return <$> results) merge_season config
  = Return (foldl (λ d kv, dict_set kv.1 kv.2 d) config
              (config_entry <$> results)).
Proof.
  revert config. induction results as [|[soup season] results IH];
    intros config Hok; [done|].
  apply Forall_cons in Hok as [Hsoup Hok]. simpl in Hsoup.
  rewrite !fmap_cons, drain_cons.
  rewrite (merge_season_ok soup season config Hsoup).
  by apply IH.
Qed.

Lemma season_results_seasons seasons responses :
  length responses = length seasons →
  (season_results seasons responses).*2 = seasons.
Proof.
  revert responses. induction seasons as [|s seasons IH];
    intros [|r responses]; try done.
  intros [= Hlen]. csimpl. by rewrite IH.
Qed.

Lemma answered_length n urls responses :
  answered n urls responses → length responses = length urls.
Proof.
  revert n responses. induction urls as [|u urls IH]; intros n [|r responses];
    try done.
  intros (_ & _ & Hrest). simpl. by rewrite (IH _ _ Hrest).
Qed.

Lemma season_results_lookup seasons responses i season response :
  seasons !! i = Some season → responses !! i = Some response →
  (BeautifulSoup (text response), season) ∈ season_results seasons responses.
Proof.
  intros Hs Hr. apply list_elem_of_lookup. exists i.
  unfold season_results. rewrite lookup_zip_with. by rewrite Hs; simpl; rewrite Hr.
Qed.

(** The config phase when everything is answered and can be extracted:
    one entry per season page, in the order in which the tasks complete. *)
Lemma load_config_from_web_run (sched : list nat) (w : world)
    (landing : Response) (seasons : list string) (responses : list Response) :
  answered (length (requests w)) (URL :: (season_url <$> seasons))
    (landing :: responses) →
  get_text <$> options_of "season_name" (BeautifulSoup (text landing)) = seasons →
  seasons ≠ [] →
  NoDup seasons →
  Forall (λ response, season_page_ok (BeautifulSoup (text response))) responses →
  ∃ completed,
    completed ≡ₚ season_results seasons responses
    ∧ load_config_from_web sched w
      = (Return (VDict (config_entry <$> completed)),
         World (fs w) (requests w ++ URL :: (season_url <$> seasons)) (stdout w)).
Proof.
  intros (Hget & Hok & Hrest) Hseasons Hnonempty Hnodup Hpages.
  pose proof (answered_length _ _ _ Hrest) as Hlen. rewrite length_fmap in Hlen.
  set (results := season_results seasons responses).
  assert (Hresults : Forall (λ done, season_page_ok done.1) results).
  { apply Forall_forall. intros [soup season] Hin.
    apply list_elem_of_lookup in Hin as [i Hi]. unfold results, season_results in Hi.
    rewrite lookup_zip_with in Hi.
    destruct (seasons !! i) as [s|]; [|done]. simpl in Hi.
    destruct (responses !! i) as [r|] eqn:Hr; [|done]. injection Hi as <- <-.
    rewrite Forall_forall in Hpages. apply Hpages.
    apply list_elem_of_lookup. eauto. }
  destruct (Permutation_fmap_inv Return results (as_completed sched (Return <$> results)))
    as (completed & Hdone & Hperm); [apply as_completed_perm|].
  exists completed. split; [done|].
  assert (Hkeys : dict_keys (config_entry <$> completed) ≡ₚ seasons).
  { unfold dict_keys. rewrite <- list_fmap_compose.
    change (fst ∘ config_entry) with (@snd node string).
    rewrite Hperm. unfold results. by rewrite season_results_seasons. }
  unfold load_config_from_web. rewrite bind_run.
  rewrite (get_soup_answered _ _ _ _ Hget Hok).
  assert (Hfound : options_of "season_name" (BeautifulSoup (text landing)) ≠ []).
  { intros Hnil. rewrite Hnil in Hseasons. by subst seasons. }
  destruct (options_of_found _ _ Hfound) as (element & -> & Heq).
  rewrite <- Heq, Hseasons.
  assert (Hlen0 : (length seasons =? 0)%nat = false).
  { apply Nat.eqb_neq. by destruct seasons. }
  rewrite Hlen0, bind_run, mapM_create_task.
  rewrite (run_season_tasks seasons responses); cycle 1.
  { unfold sent; simpl. rewrite length_app; simpl.
    by replace (length (requests w) + 1) with (S (length (requests w))) by lia. }
  cbn [fst snd]. rewrite bind_run, wait_loop_drain. fold results.
  unfold task in *. rewrite Hdone.
  rewrite drain_merge_ok by (by rewrite Hperm).
  rewrite foldl_dict_set_fresh by (by simpl; rewrite Hkeys).
  unfold sent; simpl. by rewrite <- app_assoc.
Qed.

(** C6.  A landing page whose season options yield the N distinct names
    [seasons], every request of the phase being answered and every season
    page listing its season types with their [value]: for every schedule,
    [load_config_from_web] sends the landing request and then exactly one
    request per season, and returns a config with exactly N keys, the N
    seasons; under each season, each entry is the text of an option of that
    season's page with the URL [URL/season/value#record] built from the
    [value] of that option, and each option has its entry. *)
Theorem load_config_from_web_resolves (sched : list nat) (w : world)
    (landing : Response) (seasons : list string) (responses : list Response) :
  answered (length (requests w)) (URL :: (season_url <$> seasons))
    (landing :: responses) →
  get_text <$> options_of "season_name" (BeautifulSoup (text landing)) = seasons →
  seasons ≠ [] →
  NoDup seasons →
  Forall (λ response, season_page_ok (BeautifulSoup (text response))) responses →
  ∃ config,
    load_config_from_web sched w
    = (Return (VDict config),
       World (fs w) (requests w ++ URL :: (season_url <$> seasons)) (stdout w))
    ∧ length config = length seasons
    ∧ dict_keys config ≡ₚ seasons
    ∧ ∀ i season response,
        seasons !! i = Some season → responses !! i = Some response →
        ∃ season_config,
          dict_get season config = Some (VDict season_config)
          ∧ season_config
            = season_entries season
                (options_of "stage_sn" (BeautifulSoup (text response)))
          ∧ built_from season
              (options_of "stage_sn" (BeautifulSoup (text response)))
              season_config.
Proof.
  intros Hanswered Hseasons Hnonempty Hnodup Hpages.
  destruct (load_config_from_web_run sched w landing seasons responses)
    as (completed & Hperm & Hrun); try done.
  destruct Hanswered as (_ & _ & Hrest).
  pose proof (answered_length _ _ _ Hrest) as Hlen. rewrite length_fmap in Hlen.
  assert (Hkeys : dict_keys (config_entry <$> completed) ≡ₚ seasons).
  { unfold dict_keys. rewrite <- list_fmap_compose.
    change (fst ∘ config_entry) with (@snd node string).
    by rewrite Hperm, season_results_seasons. }
  exists (config_entry <$> completed). split_and!; [done| |done|].
  - rewrite length_fmap, Hperm. unfold season_results.
    rewrite length_zip_with. lia.
  - intros i season response Hs Hr.
    exists (season_entries season
              (options_of "stage_sn" (BeautifulSoup (text response)))).
    split_and!; [|done|].
    + apply dict_get_NoDup; [by rewrite Hkeys|].
      apply list_elem_of_fmap. exists (BeautifulSoup (text response), season).
      split; [done|]. rewrite Hperm. by eapply season_results_lookup.
    + apply season_entries_built_from.
      rewrite Forall_forall in Hpages. apply Hpages.
      apply list_elem_of_lookup. eauto.
Qed.

(** ** The config phase: key order and errors *)

(** The completion order of the tasks is the completion order of what they
    hold. *)
Lemma completion_order_fmap {A B} (f : A → B) n sched (tasks : list A) :
  completion_order n sched (f <$> tasks) = f <$> completion_order n sched tasks.
Proof.
  revert sched tasks. induction n as [|n IH]; intros sched [|first tasks];
    try done.
  rewrite fmap_cons, !completion_order_step, fmap_cons, length_fmap.
  rewrite <- fmap_cons, <- list_fmap_delete, IH. f_equal.
  apply (map_nth f).
Qed.

Lemma as_completed_fmap {A B} (f : A → B) sched (tasks : list A) :
  as_completed sched (f <$> tasks) = f <$> as_completed sched tasks.
Proof. unfold as_completed. by rewrite length_fmap, completion_order_fmap. Qed.

(** X8.  When everything is answered and can be extracted, the config lists the
    seasons in the order in which their tasks complete, each with the
    entries of its page: the order of the keys is the completion order, not
    the order of the landing page. *)
Theorem load_config_from_web_completion_order (sched : list nat) (w : world)
    (landing : Response) (seasons : list string) (responses : list Response) :
  answered (length (requests w)) (URL :: (season_url <$> seasons))
    (landing :: responses) →
  get_text <$> options_of "season_name" (BeautifulSoup (text landing)) = seasons →
  seasons ≠ [] →
  NoDup seasons →
  Forall (λ response, season_page_ok (BeautifulSoup (text response))) responses →
  ∃ config,
    load_config_from_web sched w
    = (Return (VDict config),
       World (fs w) (requests w ++ URL :: (season_url <$> seasons)) (stdout w))
    ∧ config
      = config_entry <$> as_completed sched (season_results seasons responses)
    ∧ dict_keys config = as_completed sched seasons.
Proof.
  intros (Hget & Hok & Hrest) Hseasons Hnonempty Hnodup Hpages.
  pose proof (answered_length _ _ _ Hrest) as Hlen. rewrite length_fmap in Hlen.
  set (results := season_results seasons responses).
  assert (Hkeys : dict_keys (config_entry <$> as_completed sched results)
                  = as_completed sched seasons).
  { unfold dict_keys. rewrite <- list_fmap_compose.
    change (fst ∘ config_entry) with (@snd node string).
    rewrite <- as_completed_fmap. unfold results.
    by rewrite season_results_seasons. }
  exists (config_entry <$> as_completed sched results).
  split_and!; [|done|done].
  assert (Hresults : Forall (λ done, season_page_ok done.1)
                       (as_completed sched results)).
  { rewrite as_completed_perm. apply Forall_forall. intros [soup season] Hin.
    apply list_elem_of_lookup in Hin as [i Hi]. unfold results, season_results in Hi.
    rewrite lookup_zip_with in Hi.
    destruct (seasons !! i) as [s|]; [|done]. simpl in Hi.
    destruct (responses !! i) as [r|] eqn:Hr; [|done]. injection Hi as <- <-.
    rewrite Forall_forall in Hpages. apply Hpages.
    apply list_elem_of_lookup. eauto. }
  unfold load_config_from_web. rewrite bind_run.
  rewrite (get_soup_answered _ _ _ _ Hget Hok).
  assert (Hfound : options_of "season_name" (BeautifulSoup (text landing)) ≠ []).
  { intros Hnil. rewrite Hnil in Hseasons. by subst seasons. }
  destruct (options_of_found _ _ Hfound) as (element & -> & Heq).
  rewrite <- Heq, Hseasons.
  assert (Hlen0 : (length seasons =? 0)%nat = false).
  { apply Nat.eqb_neq. by destruct seasons. }
  rewrite Hlen0, bind_run, mapM_create_task.
  rewrite (run_season_tasks seasons responses); cycle 1.
  { by rewrite sent_length. }
  cbn [fst snd]. rewrite bind_run, wait_loop_drain. fold results.
  unfold task in *. rewrite as_completed_fmap.
  rewrite drain_merge_ok by done.
  rewrite foldl_dict_set_fresh.
  - unfold sent; simpl. by rewrite <- app_assoc.
  - simpl. rewrite Hkeys. by rewrite as_completed_perm.
Qed.

(** X5.  What the landing page makes [load_config_from_web] raise, once it is
    fetched: [ElementNotFoundError] for the element of id [season_name]
    when there is none, and for the options when the element lists none.
    In both cases the landing request is the only request sent. *)
Theorem load_config_from_web_landing_errors (sched : list nat) (w : world)
    (landing : Response) :
  transport (length (requests w)) URL = Responds landing →
  is_success landing = true →
  (find_id "season_name" (BeautifulSoup (text landing)) = None →
   load_config_from_web sched w
   = (Raise (ElementNotFoundError "id='season_name'"), sent URL w))
  ∧ (∀ element,
       find_id "season_name" (BeautifulSoup (text landing)) = Some element →
       find_all "option" element = [] →
       load_config_from_web sched w
       = (Raise (ElementNotFoundError "option"), sent URL w)).
Proof.
  intros Hget Hok. split.
  - intros Hnone. unfold load_config_from_web.
    by rewrite bind_run, (get_soup_answered _ _ _ _ Hget Hok), Hnone.
  - intros element Hsome Hnil. unfold load_config_from_web.
    by rewrite bind_run, (get_soup_answered _ _ _ _ Hget Hok), Hsome, Hnil.
Qed.

Lemma run_tasks_cons {A B} (coro : A → M B) x (l : list A) (w : world) :
  (run_tasks coro (x :: l) w).1
  = (coro x w).1 :: (run_tasks coro l (coro x w).2).1.
Proof.
  simpl. destruct (coro x w) as [t w1]. simpl.
  by destruct (run_tasks coro l w1) as [ts w2].
Qed.

(** A season task that raised holds what the fetch of its page raised. *)
Lemma run_season_tasks_raise seasons w t exc :
  t ∈ (run_tasks (λ s, get_season s default_retries) seasons w).1 →
  t = Raise exc →
  ∃ season w0,
    season ∈ seasons
    ∧ (get_soup (season_url season) default_retries w0).1 = Raise exc.
Proof.
  revert w. induction seasons as [|season seasons IH]; intros w.
  - by intros ?%elem_of_nil.
  - rewrite run_tasks_cons. intros [->|Hin]%elem_of_cons.
    + unfold get_season. rewrite bind_run. fold (season_url season).
      destruct (get_soup (season_url season) default_retries w)
        as [[soup|exc1] w1] eqn:Hsoup; [done|].
      intros [= <-]. exists season, w. rewrite Hsoup.
      split; [by apply elem_of_cons; left|done].
    + intros Ht. destruct (IH _ Hin Ht) as (season' & w0 & Hseason & Hraise).
      exists season', w0. split; [by apply elem_of_cons; right|done].
Qed.

Lemma for_each_raises {A S} (P : exn → Prop) (l : list A)
    (body : A → S → result S) acc exc :
  (∀ x acc exc, body x acc = Raise exc → P exc) →
  for_each l body acc = Raise exc → P exc.
Proof.
  intros Hbody. revert acc. induction l as [|x l IH]; intros acc; [done|].
  simpl. rewrite result_bind_run.
  destruct (body x acc) as [acc1|exc1] eqn:Hx.
  - apply IH.
  - intros [= <-]. by eapply Hbody.
Qed.

(** The extraction of a season page raises one of the two errors of the
    module only. *)
Lemma merge_season_raises done config exc :
  merge_season done config = Raise exc → extraction_error exc = true.
Proof.
  destruct done as [soup season]. unfold merge_season.
  destruct (find_id "stage_sn" soup) as [element|]; [|by intros [= <-]].
  destruct (length (find_all "option" element) =? 0)%nat; [by intros [= <-]|].
  rewrite result_bind_run.
  destruct (for_each _ _ _) as [season_config|exc1] eqn:Hloop; [done|].
  intros [= <-]. revert Hloop.
  apply (for_each_raises (λ exc, extraction_error exc = true)).
  intros option acc exc. unfold add_season_type, dict_mem.
  destruct (dict_get "value" (tag_attrs option)); [done|]. by intros [= <-].
Qed.

Lemma drain_raises {A S} (P : exn → Prop) (done : list (task A))
    (body : A → S → result S) acc exc :
  (∀ t exc, t ∈ done → t = Raise exc → P exc) →
  (∀ r acc exc, body r acc = Raise exc → P exc) →
  drain done body acc = Raise exc → P exc.
Proof.
  intros Htasks Hbody. revert acc.
  induction done as [|t done IH]; intros acc; [done|].
  destruct t as [r|exc1].
  - rewrite drain_cons. destruct (body r acc) as [acc1|exc1] eqn:Hr.
    + apply IH. intros t exc2 Hin. apply Htasks. by apply elem_of_cons; right.
    + intros [= <-]. by eapply Hbody.
  - intros [= <-]. eapply Htasks; [|done]. apply elem_of_cons. by left.
Qed.

(** X7.  Whatever the network serves and in whatever order the tasks complete,
    an exception [load_config_from_web] raises is the exception one of its
    fetches ended with, raised again as it is (the fetch of the landing
    page, or, the landing page fetched, the fetch of the page of a season
    it lists), or it is one of the two errors of the module,
    [ElementNotFoundError] and [MissingAttributeError]: the extraction
    itself adds no other exception, and a page that lacks an element, its
    options or a [value] never shows as an [AttributeError], a [KeyError]
    or a [TypeError]. *)
Theorem load_config_from_web_raises (sched : list nat) (w w' : world)
    (exc : exn) :
  load_config_from_web sched w = (Raise exc, w') →
  (get_soup URL default_retries w).1 = Raise exc
  ∨ (∃ landing w1 season w0,
       get_soup URL default_retries w = (Return landing, w1)
       ∧ season ∈ get_text <$> options_of "season_name" landing
       ∧ (get_soup (season_url season) default_retries w0).1 = Raise exc)
  ∨ extraction_error exc = true.
Proof.
  unfold load_config_from_web. rewrite bind_run.
  destruct (get_soup URL default_retries w) as [[soup|exc1] w1] eqn:Hsoup.
  - destruct (find_id "season_name" soup) as [element|] eqn:Helement;
      [|intros [= <- _]; by right; right].
    destruct (length _ =? 0)%nat; [intros [= <- _]; by right; right|].
    rewrite bind_run, mapM_create_task. cbn [fst snd].
    rewrite bind_run, wait_loop_drain.
    destruct (drain _ merge_season []) as [config|exc1] eqn:Hdrain; [done|].
    intros [= <- _]. right.
    assert (Hcases :
      (∃ season w0,
         season ∈ get_text <$> find_all "option" element
         ∧ (get_soup (season_url season) default_retries w0).1 = Raise exc1)
      ∨ extraction_error exc1 = true).
    { revert Hdrain.
      apply (drain_raises
               (λ exc, (∃ season w0,
                          season ∈ get_text <$> find_all "option" element
                          ∧ (get_soup (season_url season) default_retries w0).1
                            = Raise exc)
                       ∨ extraction_error exc = true)).
      - intros t exc2 Hin Ht. left. rewrite as_completed_perm in Hin.
        by eapply run_season_tasks_raise.
      - intros r acc exc2 Hr. right. by eapply merge_season_raises. }
    destruct Hcases as [(season & w0 & Hseason & Hraise)|Hextraction];
      [left|by right].
    exists soup, w1, season, w0. split_and!; [done| |done].
    unfold options_of. by rewrite Helement.
  - intros [= <- _]. by left.
Qed.

(** ** Merging in completion order *)

Lemma store_page_ok data season season_type (database season_data : dict) :
  dict_get season database = Some (VDict season_data) →
  store_page (data, season, season_type) database
  = Return (dict_set season (VDict (dict_set season_type data season_data))
              database).
Proof. intros Hget. unfold store_page. by rewrite Hget. Qed.

Lemma store_page_raises data season season_type (database : dict) :
  (∀ season_data, dict_get season database ≠ Some (VDict season_data)) →
  ∃ exc, store_page (data, season, season_type) database = Raise exc.
Proof.
  intros Hnone. unfold store_page.
  destruct (dict_get season database) as [[]|]; eauto. by destruct (Hnone items).
Qed.

Lemma dict_at_dec (season : string) (database : dict) :
  (∃ season_data, dict_get season database = Some (VDict season_data))
  ∨ (∀ season_data, dict_get season database ≠ Some (VDict season_data)).
Proof. destruct (dict_get season database) as [[]|]; eauto. Qed.

(** Storing a page keeps two databases alike. *)
Lemma store_page_proper done (database database' : dict) :
  same_mapping2 database database' →
  same_outcome (store_page done database) (store_page done database').
Proof.
  destruct done as [[data season] season_type]. intros Hsame.
  pose proof (Hsame season) as Hseason. unfold store_page.
  destruct (dict_get season database) as [v|], (dict_get season database') as [v'|];
    try done.
  destruct v, v'; simpl in Hseason; try done.
  intros k. rewrite !dict_get_set.
  destruct (String.eqb season k); [|apply Hsame].
  simpl. by apply same_mapping_set.
Qed.

(** Two pages stored under different keys can be stored in either order. *)
Lemma store_page_swap done1 done2 (database : dict) :
  (done1.1.2, done1.2) ≠ (done2.1.2, done2.2) →
  same_outcome (database1 ← store_page done1 database; store_page done2 database1)
    (database2 ← store_page done2 database; store_page done1 database2).
Proof.
  destruct done1 as [[data1 s1] t1], done2 as [[data2 s2] t2]. cbn [fst snd].
  intros Hkeys. unfold mbind, result_bind.
  destruct (dict_at_dec s1 database) as [[e1 H1]|H1],
           (dict_at_dec s2 database) as [[e2 H2]|H2].
  - rewrite (store_page_ok _ _ _ _ _ H1), (store_page_ok _ _ _ _ _ H2).
    destruct (decide (s1 = s2)) as [->|Hne].
    + assert (e1 = e2) as -> by congruence.
      assert (t1 ≠ t2) by congruence.
      rewrite (store_page_ok data2 s2 t2 _ (dict_set t1 data1 e2))
        by apply dict_get_set_eq.
      rewrite (store_page_ok data1 s2 t1 _ (dict_set t2 data2 e2))
        by apply dict_get_set_eq.
      intros k. rewrite !dict_get_set.
      destruct (String.eqb s2 k); [|by destruct (dict_get k database);
                                       [apply same_value_refl|]].
      simpl. by apply same_mapping_set_swap.
    + rewrite (store_page_ok data2 s2 t2 _ e2)
        by (by rewrite dict_get_set_ne).
      rewrite (store_page_ok data1 s1 t1 _ e1)
        by (by rewrite dict_get_set_ne).
      intros k. rewrite !dict_get_set.
      destruct (String.eqb s2 k) eqn:E2, (String.eqb s1 k) eqn:E1.
      * apply String.eqb_eq in E1, E2. congruence.
      * apply same_value_refl.
      * apply same_value_refl.
      * destruct (dict_get k database); [apply same_value_refl|done].
  - rewrite (store_page_ok _ _ _ _ _ H1).
    destruct (store_page_raises data2 s2 t2 database H2) as [exc2 ->].
    destruct (store_page_raises data2 s2 t2
                (dict_set s1 (VDict (dict_set t1 data1 e1)) database))
      as [exc ->]; [|done].
    intros e. rewrite dict_get_set.
    destruct (String.eqb s1 s2) eqn:E; [|apply H2].
    apply String.eqb_eq in E as ->. by destruct (H2 e1).
  - rewrite (store_page_ok _ _ _ _ _ H2).
    destruct (store_page_raises data1 s1 t1 database H1) as [exc1 ->].
    destruct (store_page_raises data1 s1 t1
                (dict_set s2 (VDict (dict_set t2 data2 e2)) database))
      as [exc ->]; [|done].
    intros e. rewrite dict_get_set.
    destruct (String.eqb s2 s1) eqn:E; [|apply H1].
    apply String.eqb_eq in E as ->. by destruct (H1 e2).
  - destruct (store_page_raises data1 s1 t1 database H1) as [exc1 ->].
    by destruct (store_page_raises data2 s2 t2 database H2) as [exc2 ->].
Qed.

Lemma same_outcome_refl r : same_outcome r r.
Proof. destruct r; [apply same_mapping2_refl|done]. Qed.

Lemma same_outcome_trans r1 r2 r3 :
  same_outcome r1 r2 → same_outcome r2 r3 → same_outcome r1 r3.
Proof.
  destruct r1, r2, r3; simpl; try done. apply same_mapping2_trans.
Qed.

(** Draining the same pages keeps two databases alike. *)
Lemma drain_store_proper (results : list (value * string * string))
    (database database' : dict) :
  same_mapping2 database database' →
  same_outcome (drain (Return <$> results) store_page database)
    (drain (Return <$> results) store_page database').
Proof.
  revert database database'.
  induction results as [|done results IH]; intros database database' Hsame.
  - done.
  - rewrite fmap_cons, !drain_cons.
    pose proof (store_page_proper done _ _ Hsame) as Hstore.
    destruct (store_page done database), (store_page done database');
      try done.
    by apply IH.
Qed.

(** Pages stored under pairwise different keys can be drained in any
    order. *)
Lemma drain_store_perm (results results' : list (value * string * string))
    (database : dict) :
  results ≡ₚ results' →
  NoDup ((λ done, (done.1.2, done.2)) <$> results) →
  same_outcome (drain (Return <$> results) store_page database)
    (drain (Return <$> results') store_page database).
Proof.
  intros Hperm. revert database.
  induction Hperm as [|done results results' Hperm IH|done1 done2 results
                     |results1 results2 results3 Hperm1 IH1 Hperm2 IH2];
    intros database Hnodup.
  - apply same_outcome_refl.
  - rewrite !fmap_cons, !drain_cons.
    destruct (store_page done database); [|done].
    apply IH. rewrite fmap_cons in Hnodup. by apply NoDup_cons in Hnodup as [_ ?].
  - rewrite !fmap_cons, !drain_cons2.
    rewrite !fmap_cons in Hnodup.
    apply NoDup_cons in Hnodup as [Hne _].
    apply not_elem_of_cons in Hne as [Hne _].
    pose proof (store_page_swap done2 done1 database Hne) as Hswap.
    destruct (database2 ← store_page done2 database; store_page done1 database2),
             (database1 ← store_page done1 database; store_page done2 database1);
      try done.
    by apply drain_store_proper.
  - eapply same_outcome_trans; [by apply IH1|].
    apply IH2. by rewrite <- Hperm1.
Qed.

Lemma season_page_ok_em soup : season_page_ok soup ∨ ¬ season_page_ok soup.
Proof.
  unfold season_page_ok.
  destruct (options_of "stage_sn" soup) as [|o options]; [right; by intros [? _]|].
  destruct (decide (Forall (λ o, is_Some (dict_get "value" (tag_attrs o)))
                      (o :: options))) as [Hall|Hsome].
  - left. split; [done|]. by apply Forall_forall.
  - right. intros [_ Hall]. by apply Hsome, Forall_forall.
Qed.

(** The merge returns only when every page could be extracted. *)
Lemma drain_merge_returns (results : list (node * string)) (config config' : dict) :
  drain (Return <$> results) merge_season config = Return config' →
  Forall (λ done, season_page_ok done.1) results.
Proof.
  revert config. induction results as [|[soup season] results IH]; intros config.
  - by intros _.
  - rewrite fmap_cons, drain_cons.
    destruct (season_page_ok_em soup) as [Hok|Hbad].
    + rewrite (merge_season_ok soup season config Hok). intros Hrest.
      apply Forall_cons. split; [done|]. by eapply IH.
    + by destruct (merge_season_fails soup season config Hbad) as [exc ->].
Qed.

(** Season pages of pairwise different seasons can be merged in any
    order. *)
Lemma drain_merge_perm (results results' : list (node * string)) (config : dict) :
  results ≡ₚ results' →
  NoDup results.*2 →
  drain (Return <$> results) merge_season [] = Return config →
  ∃ config',
    drain (Return <$> results') merge_season [] = Return config'
    ∧ same_mapping config config'.
Proof.
  intros Hperm Hnodup Hdrain.
  pose proof (drain_merge_returns _ _ _ Hdrain) as Hok.
  assert (Hkeys : ∀ l : list (node * string), dict_keys (config_entry <$> l) = l.*2).
  { intros l. unfold dict_keys. by rewrite <- list_fmap_compose. }
  rewrite drain_merge_ok in Hdrain by done.
  rewrite foldl_dict_set_fresh in Hdrain by (by simpl; rewrite Hkeys).
  injection Hdrain as <-.
  exists (config_entry <$> results'). split.
  - rewrite drain_merge_ok by (by rewrite <- Hperm).
    by rewrite foldl_dict_set_fresh by (by simpl; rewrite Hkeys, <- Hperm).
  - apply same_mapping_perm; [by rewrite Hkeys|by rewrite Hperm].
Qed.

Lemma task_seasons_returned (results : list (node * string)) :
  task_seasons (Return <$> results) = results.*2.
Proof.
  unfold task_seasons. induction results as [|[soup season] results IH]; [done|].
  csimpl. by rewrite IH.
Qed.

Lemma task_pages_returned (results : list (value * string * string)) :
  task_pages (Return <$> results) = (λ done, (done.1.2, done.2)) <$> results.
Proof.
  unfold task_pages.
  induction results as [|[[data season] season_type] results IH]; [done|].
  csimpl. by rewrite IH.
Qed.

(** C8, as amended.  In a fan-out phase whose tasks are routed to pairwise
    different keys (the seasons in the config phase, the pairs of a season
    and a season type in the data phase), whenever the merge of the tasks
    in one completion order returns, the merge in any other completion
    order returns too, and the two results hold the same key-value
    structure. *)
Theorem merge_order_independent :
  (∀ (tasks done done' : list (task (node * string))) (config : dict)
     (w w' : world),
     NoDup (task_seasons tasks) → done ≡ₚ tasks → done' ≡ₚ tasks →
     wait_loop done merge_season [] w = (Return config, w') →
     ∃ config',
       wait_loop done' merge_season [] w = (Return config', w')
       ∧ same_mapping config config')
  ∧ (∀ (tasks done done' : list (task (value * string * string))) (database0 database : dict)
       (w w' : world),
       NoDup (task_pages tasks) → done ≡ₚ tasks → done' ≡ₚ tasks →
       wait_loop done store_page database0 w = (Return database, w') →
       ∃ database',
         wait_loop done' store_page database0 w = (Return database', w')
         ∧ same_mapping2 database database').
Proof.
  split.
  - intros tasks done done' config w w' Hnodup Hdone Hdone'.
    rewrite !wait_loop_drain. intros [= Hdrain <-].
    destruct (drain_returns _ _ _ _ Hdrain) as [results ->].
    destruct (Permutation_fmap_inv Return results done') as (results' & -> & Hperm).
    { by rewrite Hdone'. }
    destruct (drain_merge_perm results results' config) as (config' & Hdrain' & Hsame).
    + by symmetry.
    + rewrite <- task_seasons_returned. unfold task_seasons. by rewrite Hdone.
    + done.
    + exists config'. by rewrite Hdrain'.
  - intros tasks done done' database0 database w w' Hnodup Hdone Hdone'.
    rewrite !wait_loop_drain. intros [= Hdrain <-].
    destruct (drain_returns _ _ _ _ Hdrain) as [results ->].
    destruct (Permutation_fmap_inv Return results done') as (results' & -> & Hperm).
    { by rewrite Hdone'. }
    pose proof (drain_store_perm results results' database0) as Hsame.
    rewrite Hdrain in Hsame.
    destruct (drain (Return <$> results') store_page database0) as [database'|].
    + exists database'. split; [done|]. apply Hsame; [by symmetry|].
      rewrite <- task_pages_returned. unfold task_pages. by rewrite Hdone.
    + destruct Hsame; [by symmetry|].
      rewrite <- task_pages_returned. unfold task_pages. by rewrite Hdone.
Qed.

(** ** The tasks of the data phase have pairwise different keys *)

Lemma parse_webpage_tags url season season_type w data season' season_type' :
  (parse_webpage url season season_type w).1
  = Return (data, season', season_type') →
  season' = season ∧ season_type' = season_type.
Proof.
  unfold parse_webpage. rewrite bind_run.
  destruct (match url with VStr u => get_soup u default_retries | _ => raise TypeError end w)
    as [[soup|exc] w1]; [|done].
  rewrite bind_run. unfold lift.
  destruct (for_each PER_MODE (add_mode (find "tbody" soup)) []); [|done].
  by intros [= _ <- <-].
Qed.

Lemma task_pages_app (tasks1 tasks2 : list (task (value * string * string))) :
  task_pages (tasks1 ++ tasks2) = (task_pages tasks1 ++ task_pages tasks2)%list.
Proof. unfold task_pages. apply omap_app. Qed.

(** The tasks spawned for a season are keyed by the season types of the
    season, in order; a task that raised has no key. *)
Lemma spawn_season_types_pages season (season_config : dict)
    (keys : list string) w new w1 :
  mapM (λ season_type,
          match dict_get season_type season_config with
          | Some url => create_task (parse_webpage url season season_type)
          | None => raise (KeyError season_type)
          end) keys w = (Return new, w1) →
  task_pages new `sublist_of` (pair season <$> keys).
Proof.
  revert w new. induction keys as [|season_type keys IH]; intros w new.
  - intros [= <- _]. done.
  - cbn [mapM]. rewrite bind_run.
    destruct (dict_get season_type season_config) as [url|]; [|done].
    unfold create_task, attempt.
    destruct (parse_webpage url season season_type w) as [t w0] eqn:Hpage.
    rewrite bind_run.
    match goal with
    | |- context [mapM ?spawn keys w0] =>
        destruct (mapM spawn keys w0) as [[rest|exc] w2] eqn:Hrest; [|done]
    end.
    intros [= <- <-]. specialize (IH _ _ Hrest). csimpl.
    destruct t as [[[data s] t]|exc]; simpl.
    + destruct (parse_webpage_tags url season season_type w data s t) as [-> ->].
      { by rewrite Hpage. }
      by constructor.
    + by constructor.
Qed.

Lemma spawn_seasons_pages (seasons : dict) (keys : list string) acc w spawned w1 :
  for_each_M keys (spawn_season seasons) acc w = (Return spawned, w1) →
  ∃ pages,
    task_pages spawned.2 = (task_pages acc.2 ++ pages)%list
    ∧ pages `sublist_of` config_pages seasons keys.
Proof.
  revert acc w. induction keys as [|season keys IH]; intros acc w.
  - intros [= <- _]. exists []. by rewrite app_nil_r.
  - cbn [for_each_M]. rewrite bind_run. unfold spawn_season at 1.
    destruct (dict_get season seasons) as [[| | | | | |season_config]|] eqn:Hget;
      try done.
    rewrite bind_run.
    match goal with
    | |- context [mapM ?spawn (dict_keys season_config) w] =>
        destruct (mapM spawn (dict_keys season_config) w)
          as [[new|exc] w0] eqn:Hnew; [|done]
    end.
    apply spawn_season_types_pages in Hnew. cbn [mret M_ret].
    intros (pages & Hpages & Hsub)%IH. cbn [fst snd] in Hpages.
    exists (task_pages new ++ pages)%list. split.
    + by rewrite Hpages, task_pages_app, app_assoc.
    + unfold config_pages. cbn [mbind list_bind]. rewrite Hget.
      by apply sublist_app.
Qed.

Lemma config_pages_NoDup (seasons : dict) (keys : list string) :
  NoDup keys →
  (∀ season season_config,
     dict_get season seasons = Some (VDict season_config) →
     NoDup (dict_keys season_config)) →
  NoDup (config_pages seasons keys).
Proof.
  intros Hkeys Hinner. unfold config_pages.
  induction Hkeys as [|season keys Hnotin Hkeys IH]; [constructor|].
  cbn [mbind list_bind]. apply NoDup_app. split_and!.
  - destruct (dict_get season seasons) as [[| | | | | |season_config]|] eqn:Hget;
      try constructor.
    apply (NoDup_fmap_2 _). by eapply Hinner.
  - intros [s t] Hin Hrest.
    assert (s = season) as ->.
    { destruct (dict_get season seasons) as [[| | | | | |season_config]|];
        try (by apply elem_of_nil in Hin).
      by apply list_elem_of_fmap in Hin as (? & [= -> ->] & _). }
    apply list_elem_of_bind in Hrest as (season' & Hin' & Hkey).
    destruct (dict_get season' seasons) as [[| | | | | |season_config]|];
      try (by apply elem_of_nil in Hin').
    apply list_elem_of_fmap in Hin' as (? & [= <- ->] & _). done.
  - done.
Qed.

(** The page tasks spawned from a config are keyed by pairwise different
    (season, season type) pairs. *)
Lemma spawn_tasks_pages_NoDup config w spawned w1 :
  config_wf config →
  spawn_tasks config w = (Return spawned, w1) →
  NoDup (task_pages spawned.2).
Proof.
  destruct config as [| | | | | |seasons]; try done.
  intros [Hkeys Hinner] (pages & -> & Hsub)%spawn_seasons_pages. simpl.
  eapply sublist_NoDup; [|done]. by apply config_pages_NoDup.
Qed.

(** X20.  The data phase ends alike under every schedule: it returns databases
    that hold the same key-value structure, or it raises. *)
Lemma resolve_data_order_independent sched sched' config w database w1 :
  config_wf config →
  resolve_data sched config w = (Return database, w1) →
  ∃ database',
    resolve_data sched' config w = (Return database', w1)
    ∧ same_mapping2 database database'.
Proof.
  intros Hwf. unfold resolve_data. rewrite !bind_run.
  destruct (spawn_tasks config w) as [[spawned|exc] w0] eqn:Hspawn; [|done].
  pose proof (spawn_tasks_pages_NoDup _ _ _ _ Hwf Hspawn) as Hnodup.
  rewrite !wait_loop_drain. intros [= Hdrain <-].
  destruct (drain_returns _ _ _ _ Hdrain) as [results Hresults].
  destruct (Permutation_fmap_inv Return results (as_completed sched' spawned.2))
    as (results' & Hresults' & Hperm).
  { by rewrite as_completed_perm, <- (as_completed_perm sched), Hresults. }
  rewrite Hresults in Hdrain. rewrite Hresults'.
  pose proof (drain_store_perm results results' spawned.1) as Hsame.
  rewrite Hdrain in Hsame.
  destruct (drain (Return <$> results') store_page spawned.1) as [database'|].
  - exists database'. split; [done|]. apply Hsame; [by symmetry|].
    rewrite <- task_pages_returned, <- Hresults. unfold task_pages.
    by rewrite as_completed_perm.
  - destruct Hsame; [by symmetry|].
    rewrite <- task_pages_returned, <- Hresults. unfold task_pages.
    by rewrite as_completed_perm.
Qed.

(** ** The shape of the dataset *)

Lemma store_page_returns data season season_type (database database' : dict) :
  store_page (data, season, season_type) database = Return database' →
  ∃ season_data,
    dict_get season database = Some (VDict season_data)
    ∧ database'
      = dict_set season (VDict (dict_set season_type data season_data)) database.
Proof.
  unfold store_page.
  destruct (dict_get season database) as [[| | | | | |season_data]|]; try done.
  intros [= <-]. eauto.
Qed.

Lemma store_page_lookup2 data season season_type (database database' : dict)
    s t :
  store_page (data, season, season_type) database = Return database' →
  lookup2 s t database'
  = if String.eqb season s && String.eqb season_type t then Some data
    else lookup2 s t database.
Proof.
  intros (season_data & Hget & ->)%store_page_returns.
  unfold lookup2. rewrite dict_get_set.
  destruct (String.eqb season s) eqn:Hs; simpl; [|done].
  apply String.eqb_eq in Hs as <-. rewrite Hget. apply dict_get_set.
Qed.

Lemma store_page_keys done (database database' : dict) :
  store_page done database = Return database' →
  dict_keys database' = dict_keys database.
Proof.
  destruct done as [[data season] season_type].
  intros (season_data & Hget & ->)%store_page_returns.
  rewrite dict_keys_set. unfold dict_mem. by rewrite Hget.
Qed.

Lemma store_page_well_keyed done (database database' : dict) :
  store_page done database = Return database' →
  well_keyed database → well_keyed database'.
Proof.
  destruct done as [[data season] season_type].
  intros (season_data & Hget & ->)%store_page_returns Hwell s v.
  rewrite dict_get_set. destruct (String.eqb season s); [|apply Hwell].
  intros [= <-]. eexists. split; [done|].
  apply dict_keys_set_NoDup.
  destruct (Hwell _ _ Hget) as (? & [= <-] & Hnodup). done.
Qed.

(** What the wait loop of the data phase leaves when every task
    returned. *)
Lemma drain_store_run (results : list (value * string * string))
    (database database' : dict) :
  drain (Return <$> results) store_page database = Return database' →
  dict_keys database' = dict_keys database
  ∧ (well_keyed database → well_keyed database')
  ∧ ∀ s t, lookup2 s t database' = stored s t results (lookup2 s t database).
Proof.
  revert database. induction results as [|done results IH]; intros database.
  - intros [= <-]. done.
  - rewrite fmap_cons, drain_cons.
    destruct (store_page done database) as [database1|exc] eqn:Hstore; [|done].
    intros (Hkeys & Hwell & Hlookup)%IH. split_and!.
    + by rewrite Hkeys, (store_page_keys _ _ _ Hstore).
    + intros Hdb. by eapply Hwell, store_page_well_keyed.
    + intros s t. rewrite Hlookup. destruct done as [[data season] season_type].
      by rewrite (store_page_lookup2 _ _ _ _ _ s t Hstore).
Qed.

Lemma stored_other s t results init :
  (s, t) ∉ (λ done : value * string * string, (done.1.2, done.2)) <$> results →
  stored s t results init = init.
Proof.
  revert init. induction results as [|[[data season] season_type] results IH];
    intros init; [done|].
  rewrite fmap_cons. intros [Hne Hnotin]%not_elem_of_cons. cbn in Hne.
  unfold stored. cbn [foldl fst snd].
  destruct (String.eqb season s && String.eqb season_type t) eqn:Hkey.
  - apply andb_true_iff in Hkey as [->%String.eqb_eq ->%String.eqb_eq]. done.
  - by apply IH.
Qed.

Lemma stored_member s t data results init :
  NoDup ((λ done : value * string * string, (done.1.2, done.2)) <$> results) →
  (data, s, t) ∈ results →
  stored s t results init = Some data.
Proof.
  revert init. induction results as [|[[data1 season] season_type] results IH];
    intros init; [by intros _ ?%elem_of_nil|].
  rewrite fmap_cons. intros [Hnotin Hnodup]%NoDup_cons. cbn in Hnotin.
  intros [[= <- <- <-]|Hin]%elem_of_cons.
  - unfold stored. cbn [foldl fst snd]. rewrite !String.eqb_refl. simpl.
    by apply stored_other.
  - unfold stored. cbn [foldl fst snd].
    destruct (String.eqb season s && String.eqb season_type t) eqn:Hkey.
    + apply andb_true_iff in Hkey as [->%String.eqb_eq ->%String.eqb_eq].
      destruct Hnotin. apply list_elem_of_fmap. by exists (data, s, t).
    + by apply IH.
Qed.

(** The skeleton of the database: an empty entry per season. *)
Lemma spawn_seasons_skeleton (seasons : dict) (keys : list string) acc w
    spawned w1 :
  for_each_M keys (spawn_season seasons) acc w = (Return spawned, w1) →
  spawned.1 = foldl (λ d kv, dict_set kv.1 kv.2 d) acc.1
                (((λ season, (season, VDict [])) <$> keys)).
Proof.
  revert acc w. induction keys as [|season keys IH]; intros acc w.
  - by intros [= <- _].
  - cbn [for_each_M]. rewrite bind_run. unfold spawn_season at 1.
    destruct (dict_get season seasons) as [[| | | | | |season_config]|];
      try done.
    rewrite bind_run.
    match goal with
    | |- context [mapM ?spawn (dict_keys season_config) w] =>
        destruct (mapM spawn (dict_keys season_config) w)
          as [[new|exc] w0]; [|done]
    end.
    cbn [mret M_ret]. intros ->%IH. done.
Qed.

(** Every season type of a season of the config has its task, which ran
    [parse_webpage] on the URL stored under it. *)
Lemma spawn_season_types_member season (season_config : dict)
    (keys : list string) w new w1 season_type url :
  mapM (λ season_type,
          match dict_get season_type season_config with
          | Some url => create_task (parse_webpage url season season_type)
          | None => raise (KeyError season_type)
          end) keys w = (Return new, w1) →
  season_type ∈ keys → dict_get season_type season_config = Some url →
  ∃ w0, (parse_webpage url season season_type w0).1 ∈ new.
Proof.
  revert w new. induction keys as [|key keys IH]; intros w new.
  - by intros _ ?%elem_of_nil.
  - cbn [mapM]. rewrite bind_run.
    destruct (dict_get key season_config) as [url'|] eqn:Hkey; [|done].
    unfold create_task, attempt.
    destruct (parse_webpage url' season key w) as [t w0] eqn:Hpage.
    rewrite bind_run.
    match goal with
    | |- context [mapM ?spawn keys w0] =>
        destruct (mapM spawn keys w0) as [[rest|exc] w2] eqn:Hrest; [|done]
    end.
    intros [= <- <-] [->|Hin]%elem_of_cons Hurl.
    + exists w. rewrite Hkey in Hurl. injection Hurl as <-. rewrite Hpage.
      apply elem_of_cons. by left.
    + destruct (IH _ _ Hrest Hin Hurl) as [w' Hw']. exists w'.
      apply elem_of_cons. by right.
Qed.

Lemma spawn_seasons_member (seasons : dict) (keys : list string) acc w
    spawned w1 :
  for_each_M keys (spawn_season seasons) acc w = (Return spawned, w1) →
  (∀ t, t ∈ acc.2 → t ∈ spawned.2)
  ∧ ∀ season season_config season_type url,
      season ∈ keys →
      dict_get season seasons = Some (VDict season_config) →
      dict_get season_type season_config = Some url →
      ∃ w0, (parse_webpage url season season_type w0).1 ∈ spawned.2.
Proof.
  revert acc w. induction keys as [|key keys IH]; intros acc w.
  - intros [= <- _]. split; [done|]. by intros ? ? ? ? ?%elem_of_nil.
  - cbn [for_each_M]. rewrite bind_run. unfold spawn_season at 1.
    destruct (dict_get key seasons) as [[| | | | | |key_config]|] eqn:Hget;
      try done.
    rewrite bind_run.
    match goal with
    | |- context [mapM ?spawn (dict_keys key_config) w] =>
        destruct (mapM spawn (dict_keys key_config) w)
          as [[new|exc] w0] eqn:Hnew; [|done]
    end.
    cbn [mret M_ret]. intros [Hmono Hrest]%IH. cbn [fst snd] in *. split.
    + intros t Ht. apply Hmono. apply elem_of_app. by left.
    + intros season season_config season_type url
        [->|Hin]%elem_of_cons Hseason Htype; [|by eapply Hrest].
      rewrite Hget in Hseason. injection Hseason as ->.
      destruct (spawn_season_types_member _ _ _ _ _ _ season_type url Hnew)
        as [w' Hw']; [|done|].
      { apply dict_get_keys. eauto. }
      exists w'. apply Hmono. apply elem_of_app. by right.
Qed.

Lemma config_pages_member (seasons : dict) (keys : list string) s t :
  (s, t) ∈ config_pages seasons keys →
  ∃ season_config,
    dict_get s seasons = Some (VDict season_config)
    ∧ t ∈ dict_keys season_config.
Proof.
  unfold config_pages. intros (season & Hin & _)%list_elem_of_bind.
  destruct (dict_get season seasons) as [[| | | | | |season_config]|] eqn:Hget;
    try (by apply elem_of_nil in Hin).
  apply list_elem_of_fmap in Hin as (t' & [= -> ->] & Ht). eauto.
Qed.

(** X19.  The dataset of a data phase that returned.  Its keys are the seasons
    of the config, in the order of the config; the entry of a season (empty
    when the season has no season type) has exactly the season types of
    the config as keys, and under each of them the table that
    [parse_webpage] returned for the URL the config stores there.  The
    config is a dict of dicts, as [load_config] returns it. *)
Theorem resolve_data_stores_every_page (sched : list nat) (seasons : dict)
    (w w' : world) (database : dict) :
  config_wf (VDict seasons) →
  resolve_data sched (VDict seasons) w = (Return database, w') →
  dict_keys database = dict_keys seasons
  ∧ ∀ season season_config,
      dict_get season seasons = Some (VDict season_config) →
      ∃ season_data,
        dict_get season database = Some (VDict season_data)
        ∧ dict_keys season_data ≡ₚ dict_keys season_config
        ∧ ∀ season_type url,
            dict_get season_type season_config = Some url →
            ∃ data w0,
              (parse_webpage url season season_type w0).1
              = Return (data, season, season_type)
              ∧ dict_get season_type season_data = Some data.
Proof.
  intros Hwf. pose proof Hwf as [Hseasons Hinner].
  unfold resolve_data. rewrite bind_run.
  destruct (spawn_tasks (VDict seasons) w) as [[spawned|exc] w0] eqn:Hspawn;
    [|done].
  pose proof (spawn_tasks_pages_NoDup (VDict seasons) _ _ _ Hwf Hspawn)
    as Hnodup.
  unfold spawn_tasks in Hspawn.
  pose proof (spawn_seasons_skeleton _ _ _ _ _ _ Hspawn) as Hskeleton.
  destruct (spawn_seasons_member _ _ _ _ _ _ Hspawn) as [_ Hmember].
  destruct (spawn_seasons_pages _ _ _ _ _ _ Hspawn) as (pages & Hpages & Hsub).
  cbn [fst snd] in Hskeleton, Hpages. rewrite app_nil_l in Hpages.
  rewrite foldl_dict_set_fresh in Hskeleton; cycle 1.
  { rewrite app_nil_l. unfold dict_keys at 1. rewrite <- list_fmap_compose.
    by rewrite list_fmap_id. }
  rewrite app_nil_l in Hskeleton.
  rewrite wait_loop_drain. intros [= Hdrain <-].
  destruct (drain_returns _ _ _ _ Hdrain) as [results Hresults].
  rewrite Hresults in Hdrain.
  assert (Hperm : Return <$> results ≡ₚ spawned.2).
  { rewrite <- Hresults. apply as_completed_perm. }
  assert (Hkeys : (λ done : value * string * string, (done.1.2, done.2))
                    <$> results ≡ₚ task_pages spawned.2).
  { rewrite <- task_pages_returned. unfold task_pages. by rewrite Hperm. }
  destruct (drain_store_run _ _ _ Hdrain) as (Hdbkeys & Hwell & Hlookup).
  assert (Hempty : ∀ s, s ∈ dict_keys seasons →
                     dict_get s spawned.1 = Some (VDict [])).
  { intros s Hs. rewrite Hskeleton. apply dict_get_NoDup.
    - unfold dict_keys. rewrite <- list_fmap_compose. by rewrite list_fmap_id.
    - apply list_elem_of_fmap. by exists s. }
  assert (Hwell0 : well_keyed spawned.1).
  { intros s v Hget. rewrite Hskeleton in Hget.
    apply dict_get_elem_of, list_elem_of_fmap in Hget as (s' & [= -> ->] & _).
    eexists. split; [done|]. constructor. }
  specialize (Hwell Hwell0).
  split.
  { rewrite Hdbkeys, Hskeleton. unfold dict_keys.
    rewrite <- list_fmap_compose. by rewrite list_fmap_id. }
  intros season season_config Hseason.
  assert (Hin : season ∈ dict_keys seasons) by (apply dict_get_keys; eauto).
  assert (Hsome : is_Some (dict_get season database)).
  { apply dict_get_keys. rewrite Hdbkeys. apply dict_get_keys.
    rewrite (Hempty _ Hin). eauto. }
  destruct Hsome as [v Hv].
  destruct (Hwell _ _ Hv) as (season_data & -> & Hdata_nodup).
  assert (Hlook : ∀ t, dict_get t season_data
                       = stored season t results None).
  { intros t. specialize (Hlookup season t). unfold lookup2 in Hlookup.
    by rewrite Hv, (Hempty _ Hin) in Hlookup. }
  assert (Hpage : ∀ season_type url,
            dict_get season_type season_config = Some url →
            ∃ data w1,
              (parse_webpage url season season_type w1).1
              = Return (data, season, season_type)
              ∧ dict_get season_type season_data = Some data).
  { intros season_type url Hurl.
    destruct (Hmember season season_config season_type url Hin Hseason Hurl)
      as [w1 Htask].
    rewrite <- Hperm in Htask.
    apply list_elem_of_fmap in Htask as ([[data s] t] & Hreturn & Hresult).
    destruct (parse_webpage_tags url season season_type w1 data s t)
      as [-> ->]; [done|].
    exists data, w1. split; [done|]. rewrite Hlook.
    apply stored_member; [|done]. by rewrite Hkeys. }
  exists season_data. split_and!; [done| |done].
  apply NoDup_Permutation; [done|by eapply Hinner|].
  intros t. split.
  - intros Ht. apply dict_get_keys in Ht as [data Hdata]. rewrite Hlook in Hdata.
    destruct (decide ((season, t) ∈ (λ done : value * string * string,
                                       (done.1.2, done.2)) <$> results))
      as [Hkey|Hkey]; [|by rewrite stored_other in Hdata].
    rewrite Hkeys, Hpages in Hkey.
    assert (Hconf : (season, t) ∈ config_pages seasons (dict_keys seasons)).
    { by eapply elem_of_sublist. }
    apply config_pages_member in Hconf as (season_config' & Hget' & Ht').
    rewrite Hseason in Hget'. by injection Hget' as <-.
  - intros Ht. apply dict_get_keys in Ht as [url Hurl].
    destruct (Hpage t url Hurl) as (data & _ & _ & Hdata).
    apply dict_get_keys. eauto.
Qed.

(** ** The cache gates *)

Lemma str_app_inj_l (a b c : string) : a +:+ b = a +:+ c → b = c.
Proof.
  induction a as [|x a IH]; [done|]. rewrite !str_app_cons. intros [= ?]. auto.
Qed.

Lemma cache_files_differ : CONFIG_FILENAME ≠ DATA_FILENAME.
Proof. unfold CONFIG_FILENAME, DATA_FILENAME, abs_path. by intros ?%str_app_inj_l. Qed.

(** What reading the config cache gives; the world is left as it is. *)
Lemma read_config_run w :
  read_config w
  = (match fs w !! CONFIG_FILENAME with
     | None => Raise (FileNotFoundError CONFIG_FILENAME)
     | Some contents =>
         match json_loads (universal_newlines contents) with
         | None => Raise JSONDecodeError
         | Some config =>
             match is_valid_config config with
             | Return _ => Return config
             | Raise exc => Raise exc
             end
         end
     end, w).
Proof.
  unfold read_config. rewrite bind_run.
  destruct (fs w !! CONFIG_FILENAME) as [contents|] eqn:Hfile.
  - rewrite (load_from_file_default _ _ _ Hfile). unfold loads.
    destruct (json_loads (universal_newlines contents)) as [config|]; [|done].
    rewrite !bind_run. unfold lift. simpl.
    by destruct (is_valid_config config).
  - by rewrite load_from_file_missing.
Qed.

Lemma read_data_run w :
  read_data w
  = (match fs w !! DATA_FILENAME with
     | None => Raise (FileNotFoundError DATA_FILENAME)
     | Some contents =>
         match json_loads (universal_newlines contents) with
         | None => Raise JSONDecodeError
         | Some database => Return database
         end
     end, w).
Proof.
  unfold read_data. rewrite bind_run.
  destruct (fs w !! DATA_FILENAME) as [contents|] eqn:Hfile.
  - rewrite (load_from_file_default _ _ _ Hfile). unfold loads.
    by destruct (json_loads (universal_newlines contents)).
  - by rewrite load_from_file_missing.
Qed.

(** The [except] clauses absorb a cache error; only a missing file is
    reported. *)
Lemma except_cache_run filename exc w :
  cache_error exc = true →
  except_cache filename exc w
  = (Return (),
     match exc with
     | FileNotFoundError _ => printed (miss_line filename) w
     | _ => w
     end).
Proof. by destruct exc. Qed.

Lemma except_cache_propagates filename exc w :
  cache_error exc = false → except_cache filename exc w = (Raise exc, w).
Proof. by destruct exc. Qed.

Lemma refresh_config_run sched w :
  refresh_config sched w
  = match load_config_from_web sched w with
    | (Return config, w1) =>
        (Return config, wrote CONFIG_FILENAME (json_dumps config) w1)
    | (Raise exc, w1) => (Raise exc, w1)
    end.
Proof.
  unfold refresh_config. rewrite bind_run.
  by destruct (load_config_from_web sched w) as [[config|exc] w1].
Qed.

Lemma load_config_run sched w :
  load_config sched w
  = match (read_config w).1 with
    | Return config => (Return config, w)
    | Raise exc =>
        if cache_error exc
        then refresh_config sched
               match exc with
               | FileNotFoundError _ => printed (miss_line CONFIG_FILENAME) w
               | _ => w
               end
        else (Raise exc, w)
    end.
Proof.
  unfold load_config. rewrite bind_run. unfold attempt.
  rewrite read_config_run. cbn [fst snd].
  set (cached := match fs w !! CONFIG_FILENAME with
                 | Some _ => _ | None => _ end).
  destruct cached as [config|exc]; [done|].
  rewrite bind_run. destruct (cache_error exc) eqn:Hexc.
  - by rewrite except_cache_run.
  - by rewrite except_cache_propagates.
Qed.

Lemma load_data_run sched_config sched_data w :
  load_data sched_config sched_data w
  = match (read_data w).1 with
    | Return database => (Return database, w)
    | Raise exc =>
        if cache_error exc
        then refresh_data sched_config sched_data
               match exc with
               | FileNotFoundError _ => printed (miss_line DATA_FILENAME) w
               | _ => w
               end
        else (Raise exc, w)
    end.
Proof.
  unfold load_data. rewrite bind_run. unfold attempt.
  rewrite read_data_run. cbn [fst snd].
  set (cached := match fs w !! DATA_FILENAME with
                 | Some _ => _ | None => _ end).
  destruct cached as [database|exc]; [done|].
  rewrite bind_run. destruct (cache_error exc) eqn:Hexc.
  - by rewrite except_cache_run.
  - by rewrite except_cache_propagates.
Qed.

(** The refresh of the config: nothing a gate would absorb is raised; the
    file is written exactly when a config is returned; the outcome depends
    on the requests sent before only. *)
Lemma refresh_config_outcome sched w :
  ∃ r w1,
    refresh_config sched w = (r, w1)
    ∧ no_cache_error r
    ∧ match r with
      | Return config => fs w1 = <[CONFIG_FILENAME := json_dumps config]> (fs w)
      | Raise _ => fs w1 = fs w
      end
    ∧ ∀ w', requests w' = requests w →
        ∃ w1', refresh_config sched w' = (r, w1')
               ∧ requests w1' = requests w1
               ∧ match r with
                 | Return config =>
                     fs w1' = <[CONFIG_FILENAME := json_dumps config]> (fs w')
                 | Raise _ => fs w1' = fs w'
                 end.
Proof.
  destruct (web_only_load_config_from_web sched w) as (Hfs & Hexc & Hdep).
  rewrite refresh_config_run.
  destruct (load_config_from_web sched w) as [[config|exc] w1] eqn:Hweb;
    simpl in *.
  - eexists _, _. split_and!; [done|by intros exc|by simpl; rewrite Hfs|].
    intros w' Hw'. destruct (Hdep w' Hw') as [Hr Hreq].
    destruct (web_only_load_config_from_web sched w') as (Hfs' & _ & _).
    rewrite refresh_config_run.
    destruct (load_config_from_web sched w') as [r' w1']; simpl in *. subst r'.
    eexists. split_and!; [done|done|by simpl; rewrite Hfs'].
  - eexists _, _. split_and!; [done|done|done|].
    intros w' Hw'. destruct (Hdep w' Hw') as [Hr Hreq].
    destruct (web_only_load_config_from_web sched w') as (Hfs' & _ & _).
    rewrite refresh_config_run.
    destruct (load_config_from_web sched w') as [r' w1']; simpl in *. subst r'.
    eexists. split_and!; done.
Qed.

(** The gate of the config: nothing a gate would absorb is raised; the
    only file ever written is the config cache, and only when a config is
    returned; the outcome depends on the requests sent before and on the
    config cache only. *)
Lemma load_config_outcome sched w :
  ∃ r w1,
    load_config sched w = (r, w1)
    ∧ no_cache_error r
    ∧ (fs w1 = fs w
       ∨ ∃ config, r = Return config
           ∧ fs w1 = <[CONFIG_FILENAME := json_dumps config]> (fs w))
    ∧ ∀ w', requests w' = requests w →
        fs w' !! CONFIG_FILENAME = fs w !! CONFIG_FILENAME →
        ∃ w1', load_config sched w' = (r, w1')
               ∧ requests w1' = requests w1
               ∧ (fs w1 = fs w ∧ fs w1' = fs w'
                  ∨ ∃ config,
                      fs w1 = <[CONFIG_FILENAME := json_dumps config]> (fs w)
                      ∧ fs w1' = <[CONFIG_FILENAME := json_dumps config]> (fs w')).
Proof.
  rewrite load_config_run.
  assert (Hread : ∀ w', fs w' !! CONFIG_FILENAME = fs w !! CONFIG_FILENAME →
                        (read_config w').1 = (read_config w).1).
  { intros w' Hw'. rewrite !read_config_run. simpl. by rewrite Hw'. }
  destruct (read_config w).1 as [config|exc] eqn:Hcached.
  - eexists _, _. split_and!; [done|by intros exc|by left|].
    intros w' Hreq Hfile. rewrite load_config_run, (Hread w' Hfile).
    eexists. split_and!; [done|done|by left].
  - destruct (cache_error exc) eqn:Hexc; cycle 1.
    { eexists _, _. split_and!; [done|by intros exc' [= <-]|by left|].
      intros w' Hreq Hfile. rewrite load_config_run, (Hread w' Hfile), Hexc.
      eexists. split_and!; [done|done|by left]. }
    set (w0 := match exc with
               | FileNotFoundError _ => printed (miss_line CONFIG_FILENAME) w
               | _ => w
               end).
    assert (Hw0 : fs w0 = fs w ∧ requests w0 = requests w) by (by destruct exc).
    destruct Hw0 as [Hfs0 Hreq0].
    destruct (refresh_config_outcome sched w0) as (r & w1 & -> & Hr & Hfs & Hdep).
    eexists _, _. split_and!; [done|done| |].
    + destruct r as [config|exc']; [right|left]; rewrite <- Hfs0; eauto.
    + intros w' Hreq Hfile. rewrite load_config_run, (Hread w' Hfile), Hexc.
      set (w0' := match exc with
                  | FileNotFoundError _ => printed (miss_line CONFIG_FILENAME) w'
                  | _ => w'
                  end).
      assert (Hw0' : fs w0' = fs w' ∧ requests w0' = requests w')
        by (by destruct exc).
      destruct Hw0' as [Hfs0' Hreq0'].
      destruct (Hdep w0') as (w1' & -> & Hreq1 & Hfs1); [congruence|].
      eexists. split_and!; [done|done|].
      destruct r as [config|exc']; [right|left].
      * exists config. by rewrite <- Hfs0, <- Hfs0'.
      * by rewrite <- Hfs0, <- Hfs0'.
Qed.

Lemma refresh_data_run sched_config sched_data w :
  refresh_data sched_config sched_data w
  = match load_config sched_config w with
    | (Return config, w1) =>
        match resolve_data sched_data config w1 with
        | (Return database, w2) =>
            (Return (VDict database),
             wrote DATA_FILENAME (json_dumps (VDict database)) w2)
        | (Raise exc, w2) => (Raise exc, w2)
        end
    | (Raise exc, w1) => (Raise exc, w1)
    end.
Proof.
  unfold refresh_data. rewrite bind_run.
  destruct (load_config sched_config w) as [[config|exc] w1]; [|done].
  rewrite bind_run.
  by destruct (resolve_data sched_data config w1) as [[database|exc] w2].
Qed.

(** The refresh of the data: nothing a gate would absorb is raised; the
    data cache is written exactly when a dataset is returned; the outcome
    depends on the requests sent before and on the files other than the
    data cache only. *)
Lemma refresh_data_outcome sched_config sched_data w :
  ∃ r w2,
    refresh_data sched_config sched_data w = (r, w2)
    ∧ no_cache_error r
    ∧ match r with
      | Return database => fs w2 !! DATA_FILENAME = Some (json_dumps database)
      | Raise _ => fs w2 !! DATA_FILENAME = fs w !! DATA_FILENAME
      end
    ∧ ∀ w', requests w' = requests w →
        (∀ filename, filename ≠ DATA_FILENAME →
           fs w' !! filename = fs w !! filename) →
        ∃ w2', refresh_data sched_config sched_data w' = (r, w2')
               ∧ requests w2' = requests w2
               ∧ match r with
                 | Return _ => fs w2' = fs w2
                 | Raise _ => True
                 end.
Proof.
  pose proof cache_files_differ as Hdiffer.
  rewrite refresh_data_run.
  destruct (load_config_outcome sched_config w)
    as (r1 & w1 & -> & Hr1 & Hfs1 & Hdep1).
  assert (Hdata1 : fs w1 !! DATA_FILENAME = fs w !! DATA_FILENAME).
  { destruct Hfs1 as [->|(config & _ & ->)]; [done|].
    by rewrite lookup_insert_ne. }
  destruct r1 as [config|exc]; cycle 1.
  { eexists _, _. split_and!; [done|done|done|].
    intros w' Hreq Hfiles. rewrite refresh_data_run.
    destruct (Hdep1 w' Hreq) as (w1' & -> & Hreq1 & _); [by apply Hfiles|].
    eexists. split_and!; done. }
  destruct (web_only_resolve_data sched_data config w1) as (Hfs2 & Hr2 & Hdep2).
  destruct (resolve_data sched_data config w1) as [[database|exc] w2] eqn:Hweb;
    simpl in *.
  - eexists _, _. split_and!; [done|by intros exc| |].
    + simpl. by rewrite lookup_insert_eq.
    + intros w' Hreq Hfiles. rewrite refresh_data_run.
      destruct (Hdep1 w' Hreq) as (w1' & -> & Hreq1 & Hfs1'); [by apply Hfiles|].
      destruct (Hdep2 w1' Hreq1) as [Hr Hreq2].
      destruct (web_only_resolve_data sched_data config w1') as (Hfs2' & _ & _).
      destruct (resolve_data sched_data config w1') as [r' w2']; simpl in *.
      subst r'. eexists. split_and!; [done|done|]. simpl.
      rewrite Hfs2, Hfs2'. apply map_eq. intros filename.
      destruct (decide (filename = DATA_FILENAME)) as [->|Hne].
      { by rewrite !lookup_insert_eq. }
      rewrite !lookup_insert_ne by done.
      destruct Hfs1' as [[-> ->]|(config' & -> & ->)]; [by apply Hfiles|].
      destruct (decide (filename = CONFIG_FILENAME)) as [->|Hne'].
      { by rewrite !lookup_insert_eq. }
      rewrite !lookup_insert_ne by done. by apply Hfiles.
  - eexists _, _.
    split_and!; [done|by intros exc' [= <-]; apply Hr2|by simpl; rewrite Hfs2|].
    intros w' Hreq Hfiles. rewrite refresh_data_run.
    destruct (Hdep1 w' Hreq) as (w1' & -> & Hreq1 & Hfs1'); [by apply Hfiles|].
    destruct (Hdep2 w1' Hreq1) as [Hr Hreq2].
    destruct (resolve_data sched_data config w1') as [r' w2']; simpl in *.
    subst r'. eexists. split_and!; done.
Qed.

(** A config cache that is no cache of a config makes the read raise what
    the gate absorbs without a word. *)
Lemma read_config_invalid w contents :
  fs w !! CONFIG_FILENAME = Some contents →
  no_config (universal_newlines contents) →
  ∃ exc, (read_config w).1 = Raise exc ∧ is_ValueError exc = true.
Proof.
  intros Hfile Hbad. rewrite read_config_run, Hfile. simpl.
  destruct Hbad as [->|(config & -> & Hinvalid)]; [by exists JSONDecodeError|].
  rewrite (is_valid_config_invalid config Hinvalid). by exists ValueError.
Qed.


(** The config phase raises as soon as one of its tasks fails. *)
Lemma load_config_from_web_task_fails sched w landing w1 t :
  get_soup URL default_retries w = (Return landing, w1) →
  t ∈ (run_tasks (λ s, get_season s default_retries)
         (get_text <$> options_of "season_name" landing) w1).1 →
  task_fails merge_season t →
  ∃ exc w', load_config_from_web sched w = (Raise exc, w').
Proof.
  intros Hget Hin Hfail. unfold load_config_from_web.
  rewrite bind_run, Hget. unfold options_of in Hin.
  destruct (find_id "season_name" landing) as [element|]; [|by eexists _, _].
  destruct (length _ =? 0)%nat; [by eexists _, _|].
  rewrite bind_run, mapM_create_task, bind_run, wait_loop_drain.
  destruct (drain_fails
              (as_completed sched
                 (run_tasks (λ s, get_season s default_retries)
                    (get_text <$> find_all "option" element) w1).1)
              merge_season [] t) as [exc ->]; [|done|by eexists _, _].
  by rewrite as_completed_perm.
Qed.

(** The data phase raises as soon as one of its tasks fails. *)
Lemma resolve_data_task_fails sched config w spawned w1 t :
  spawn_tasks config w = (Return spawned, w1) →
  t ∈ spawned.2 → task_fails store_page t →
  ∃ exc, resolve_data sched config w = (Raise exc, w1).
Proof.
  intros Hspawn Hin Hfail. unfold resolve_data.
  rewrite bind_run, Hspawn, wait_loop_drain.
  destruct (drain_fails (as_completed sched spawned.2) store_page spawned.1 t)
    as [exc ->]; [|done|by eexists].
  by rewrite as_completed_perm.
Qed.

(** A gate that raises has not touched its cache file. *)
Lemma load_config_raises_fs sched w exc w' :
  load_config sched w = (Raise exc, w') → fs w' = fs w.
Proof.
  destruct (load_config_outcome sched w) as (r & w1 & -> & _ & Hfs & _).
  intros [= -> ->]. by destruct Hfs as [?|(config & ? & _)].
Qed.

Lemma load_data_raises_fs sched_config sched_data w exc w' :
  load_data sched_config sched_data w = (Raise exc, w') →
  fs w' !! DATA_FILENAME = fs w !! DATA_FILENAME.
Proof.
  rewrite load_data_run.
  destruct (read_data w).1 as [database|exc0]; [done|].
  destruct (cache_error exc0) eqn:Hexc; [|by intros [= _ <-]].
  set (w0 := match exc0 with
             | FileNotFoundError _ => printed (miss_line DATA_FILENAME) w
             | _ => w
             end).
  assert (Hw0 : fs w0 = fs w) by (by destruct exc0).
  destruct (refresh_data_outcome sched_config sched_data w0)
    as (r & w2 & -> & _ & Hfs & _).
  intros [= -> ->]. by rewrite Hfs, Hw0.
Qed.

(** C2.  A resolution phase in which one task fails (its fetch raised, or
    the extraction run on its page raises) makes its gate raise, whatever
    the completion order; and a gate that raises, for whatever reason, has
    not written its cache file: [load_config] leaves every file as it was,
    [load_data] leaves the data cache as it was. *)
Theorem failed_phase_writes_nothing :
  (∀ sched w exc0 landing w1 t,
     (read_config w).1 = Raise exc0 → cache_error exc0 = true →
     get_soup URL default_retries w = (Return landing, w1) →
     t ∈ (run_tasks (λ s, get_season s default_retries)
            (get_text <$> options_of "season_name" landing) w1).1 →
     task_fails merge_season t →
     ∃ exc w', load_config sched w = (Raise exc, w'))
  ∧ (∀ sched w exc w',
       load_config sched w = (Raise exc, w') → fs w' = fs w)
  ∧ (∀ sched_config sched_data w exc0 config w1 spawned w2 t,
       (read_data w).1 = Raise exc0 → cache_error exc0 = true →
       load_config sched_config w = (Return config, w1) →
       spawn_tasks config w1 = (Return spawned, w2) →
       t ∈ spawned.2 → task_fails store_page t →
       ∃ exc w', load_data sched_config sched_data w = (Raise exc, w'))
  ∧ (∀ sched_config sched_data w exc w',
       load_data sched_config sched_data w = (Raise exc, w') →
       fs w' !! DATA_FILENAME = fs w !! DATA_FILENAME).
Proof.
  split_and!.
  - intros sched w exc0 landing w1 t Hread Hexc Hget Hin Hfail.
    rewrite load_config_run, Hread, Hexc, refresh_config_run.
    set (w0 := match exc0 with
               | FileNotFoundError _ => printed (miss_line CONFIG_FILENAME) w
               | _ => w
               end).
    assert (Hw0 : requests w0 = requests w) by (by destruct exc0).
    destruct (web_only_get_soup URL default_retries w) as (_ & _ & Hdep).
    destruct (Hdep w0 Hw0) as [Hr Hreq]. rewrite Hget in Hr, Hreq.
    destruct (get_soup URL default_retries w0) as [r0 w1'] eqn:Hget0.
    simpl in Hr, Hreq. subst r0.
    destruct (run_tasks_web_only (λ s, get_season s default_retries)
                (get_text <$> options_of "season_name" landing) w1)
      as (_ & _ & Hdep'); [intros; apply web_only_get_season|].
    destruct (Hdep' w1' Hreq) as [Htasks _]. rewrite <- Htasks in Hin.
    destruct (load_config_from_web_task_fails sched w0 landing w1' t)
      as (exc & w' & ->); [done|done|done|]. by eexists _, _.
  - apply load_config_raises_fs.
  - intros sched_config sched_data w exc0 config w1 spawned w2 t
      Hread Hexc Hconfig Hspawn Hin Hfail.
    rewrite load_data_run, Hread, Hexc, refresh_data_run.
    set (w0 := match exc0 with
               | FileNotFoundError _ => printed (miss_line DATA_FILENAME) w
               | _ => w
               end).
    assert (Hw0 : requests w0 = requests w ∧ fs w0 = fs w) by (by destruct exc0).
    destruct Hw0 as [Hreq0 Hfs0].
    destruct (load_config_outcome sched_config w) as (r & w1a & Hrun & _ & _ & Hdep).
    rewrite Hconfig in Hrun. injection Hrun as <- <-.
    destruct (Hdep w0 Hreq0) as (w1' & -> & Hreq1 & _); [by rewrite Hfs0|].
    destruct (web_only_spawn_tasks config) as [Hweb _].
    destruct (Hweb w1) as (_ & _ & Hdep2).
    destruct (Hdep2 w1' Hreq1) as [Hr _]. rewrite Hspawn in Hr. simpl in Hr.
    destruct (spawn_tasks config w1') as [r' w2'] eqn:Hspawn'. simpl in Hr.
    subst r'.
    destruct (resolve_data_task_fails sched_data config w1' spawned w2' t)
      as [exc ->]; [done|done|done|]. by eexists _, _.
  - apply load_data_raises_fs.
Qed.

(** Reading a file back and parsing it. *)
Lemma read_back filename chunk_size w contents v :
  fs w !! filename = Some contents →
  json_loads (universal_newlines contents) = Some v →
  (1 ≤ chunk_size ≤ sys_maxsize)%Z →
  (contents ← load_from_file filename chunk_size; loads contents) w
  = (Return v, w).
Proof.
  intros Hfile Hloads Hsize.
  rewrite bind_run, (load_from_file_read _ _ _ _ Hfile); [| |lia].
  - unfold loads. by rewrite Hloads.
  - unfold sys_maxsize in *. lia.
Qed.

(** What a gate returns is what its cache file reads as afterwards,
    provided the codec reads a value it wrote as that value. *)
Lemma load_config_read_back sched w config w' chunk_size :
  load_config sched w = (Return config, w') →
  json_loads (universal_newlines (json_dumps config)) = Some config →
  (1 ≤ chunk_size ≤ sys_maxsize)%Z →
  (contents ← load_from_file CONFIG_FILENAME chunk_size; loads contents) w'
  = (Return config, w').
Proof.
  rewrite load_config_run, read_config_run. cbn [fst]. intros Hrun Hcodec Hsize.
  destruct (fs w !! CONFIG_FILENAME) as [contents|] eqn:Hfile.
  - destruct (json_loads (universal_newlines contents)) as [config0|] eqn:Hloads.
    + destruct (is_valid_config config0) as [[]|exc] eqn:Hvalid.
      * injection Hrun as <- <-. by eapply read_back.
      * destruct (cache_error exc); [|done].
        destruct (refresh_config_outcome sched
                    match exc with
                    | FileNotFoundError _ =>
                        printed (miss_line CONFIG_FILENAME) w
                    | _ => w
                    end) as (r & w1 & Hrefresh & _ & Hfs & _).
        rewrite Hrefresh in Hrun. injection Hrun as -> ->.
        eapply read_back; [|done|done]. by rewrite Hfs, lookup_insert_eq.
    + simpl in Hrun.
      destruct (refresh_config_outcome sched w) as (r & w1 & Hrefresh & _ & Hfs & _).
      rewrite Hrefresh in Hrun. injection Hrun as -> ->.
      eapply read_back; [|done|done]. by rewrite Hfs, lookup_insert_eq.
  - simpl in Hrun.
    destruct (refresh_config_outcome sched (printed (miss_line CONFIG_FILENAME) w))
      as (r & w1 & Hrefresh & _ & Hfs & _).
    rewrite Hrefresh in Hrun. injection Hrun as -> ->.
    eapply read_back; [|done|done]. by rewrite Hfs, lookup_insert_eq.
Qed.

Lemma load_data_read_back sched_config sched_data w database w' chunk_size :
  load_data sched_config sched_data w = (Return database, w') →
  json_loads (universal_newlines (json_dumps database)) = Some database →
  (1 ≤ chunk_size ≤ sys_maxsize)%Z →
  (contents ← load_from_file DATA_FILENAME chunk_size; loads contents) w'
  = (Return database, w').
Proof.
  rewrite load_data_run, read_data_run. cbn [fst]. intros Hrun Hcodec Hsize.
  destruct (fs w !! DATA_FILENAME) as [contents|] eqn:Hfile.
  - destruct (json_loads (universal_newlines contents)) as [database0|] eqn:Hloads.
    + injection Hrun as <- <-. by eapply read_back.
    + simpl in Hrun.
      destruct (refresh_data_outcome sched_config sched_data w)
        as (r & w1 & Hrefresh & _ & Hfs & _).
      rewrite Hrefresh in Hrun. injection Hrun as -> ->.
      by eapply read_back.
  - simpl in Hrun.
    destruct (refresh_data_outcome sched_config sched_data
                (printed (miss_line DATA_FILENAME) w))
      as (r & w1 & Hrefresh & _ & Hfs & _).
    rewrite Hrefresh in Hrun. injection Hrun as -> ->.
    by eapply read_back.
Qed.

(** C7.  The value a gate returns (the config, the dataset), whether the
    gate resolved and persisted it or found it cached, is the value its
    cache file reads back as: after the run, reading the file in chunks of
    any size a read takes, from 1 to [sys_maxsize] (the gates read with
    1024), and parsing the text gives that value again, provided the codec
    reads the text it writes for that value, as text mode reads it, as that
    value. *)
Theorem cache_round_trip :
  (∀ sched w config w' chunk_size,
     load_config sched w = (Return config, w') →
     json_loads (universal_newlines (json_dumps config)) = Some config →
     (1 ≤ chunk_size ≤ sys_maxsize)%Z →
     (contents ← load_from_file CONFIG_FILENAME chunk_size; loads contents) w'
     = (Return config, w'))
  ∧ (∀ sched_config sched_data w database w' chunk_size,
       load_data sched_config sched_data w = (Return database, w') →
       json_loads (universal_newlines (json_dumps database)) = Some database →
       (1 ≤ chunk_size ≤ sys_maxsize)%Z →
       (contents ← load_from_file DATA_FILENAME chunk_size; loads contents) w'
       = (Return database, w')).
Proof.
  split.
  - intros sched w config w' chunk_size Hrun Hcodec Hsize.
    by eapply load_config_read_back.
  - intros sched_config sched_data w database w' chunk_size Hrun Hcodec Hsize.
    by eapply load_data_read_back.
Qed.

(** ** The gates: cache hits, second runs, files touched *)

Lemma ValidConfig_passes config :
  ValidConfig config → is_valid_config config = Return ().
Proof.
  intros (seasons & -> & Hvalid). unfold is_valid_config.
  by apply check_seasons_spec.
Qed.

Lemma passes_ValidConfig config :
  is_valid_config config = Return () → ValidConfig config.
Proof.
  destruct config as [| | | | | |seasons]; try done.
  intros Hpass. exists seasons. split; [done|]. by apply check_seasons_spec.
Qed.

Lemma load_config_hit sched w contents config :
  fs w !! CONFIG_FILENAME = Some contents →
  json_loads (universal_newlines contents) = Some config →
  ValidConfig config →
  load_config sched w = (Return config, w).
Proof.
  intros Hfile Hloads Hvalid.
  by rewrite load_config_run, read_config_run, Hfile, Hloads,
    (ValidConfig_passes _ Hvalid).
Qed.

Lemma load_data_hit sched_config sched_data w contents database :
  fs w !! DATA_FILENAME = Some contents →
  json_loads (universal_newlines contents) = Some database →
  load_data sched_config sched_data w = (Return database, w).
Proof.
  intros Hfile Hloads.
  by rewrite load_data_run, read_data_run, Hfile, Hloads.
Qed.

(** X12.  A cache hit costs nothing.  A config cache that reads as a valid config
    is returned by [load_config], and a data cache that reads as any JSON
    value at all is returned by [load_data], which validates nothing: in
    both cases no request is sent, nothing is printed and no file is
    written. *)
Theorem cache_hit_leaves_world :
  (∀ sched w contents config,
     fs w !! CONFIG_FILENAME = Some contents →
     json_loads (universal_newlines contents) = Some config →
     ValidConfig config →
     load_config sched w = (Return config, w))
  ∧ (∀ sched_config sched_data w contents database,
       fs w !! DATA_FILENAME = Some contents →
       json_loads (universal_newlines contents) = Some database →
       load_data sched_config sched_data w = (Return database, w)).
Proof.
  split.
  - intros. by eapply load_config_hit.
  - intros. by eapply load_data_hit.
Qed.

Lemma read_config_returns w config :
  (read_config w).1 = Return config → ValidConfig config.
Proof.
  rewrite read_config_run. simpl.
  destruct (fs w !! CONFIG_FILENAME) as [contents|]; [|done].
  destruct (json_loads (universal_newlines contents)) as [config'|]; [|done].
  destruct (is_valid_config config') as [[]|exc] eqn:Hvalid; [|done].
  intros [= <-]. by apply passes_ValidConfig.
Qed.

(** The config a gate returns is in the config cache afterwards, as the
    text the codec writes for it, unless the gate found it there. *)
Lemma load_config_returns sched w config w' :
  load_config sched w = (Return config, w') →
  (w' = w ∧ (read_config w).1 = Return config)
  ∨ fs w' !! CONFIG_FILENAME = Some (json_dumps config).
Proof.
  rewrite load_config_run.
  destruct (read_config w).1 as [cached|exc0] eqn:Hread.
  - intros [= <- <-]. by left.
  - destruct (cache_error exc0); [|done]. rewrite refresh_config_run.
    destruct (load_config_from_web sched _) as [[resolved|exc] w1]; [|done].
    intros [= <- <-]. right. unfold wrote; simpl. apply lookup_insert_eq.
Qed.

Lemma load_data_returns sched_config sched_data w database w' :
  load_data sched_config sched_data w = (Return database, w') →
  (w' = w ∧ (read_data w).1 = Return database)
  ∨ fs w' !! DATA_FILENAME = Some (json_dumps database).
Proof.
  rewrite load_data_run.
  destruct (read_data w).1 as [cached|exc0] eqn:Hread.
  - intros [= <- <-]. by left.
  - destruct (cache_error exc0); [|done]. rewrite refresh_data_run.
    destruct (load_config sched_config _) as [[config|exc] w1]; [|done].
    destruct (resolve_data sched_data config w1) as [[resolved|exc] w2]; [|done].
    intros [= <- <-]. right. unfold wrote; simpl. apply lookup_insert_eq.
Qed.

(** X14.  A second run is served from the cache.  After a gate has returned a
    value, running the gate again, under any schedule, returns the same
    value and leaves the world as it is: no request, no line, no write.
    For the config this asks that the value be a valid config; for both it
    asks of the codec that it read the text it writes for the value as that
    value. *)
Theorem second_run_is_cached :
  (∀ sched sched' w config w',
     load_config sched w = (Return config, w') →
     json_loads (universal_newlines (json_dumps config)) = Some config →
     ValidConfig config →
     load_config sched' w' = (Return config, w'))
  ∧ (∀ sched_config sched_data sched_config' sched_data' w database w',
       load_data sched_config sched_data w = (Return database, w') →
       json_loads (universal_newlines (json_dumps database)) = Some database →
       load_data sched_config' sched_data' w' = (Return database, w')).
Proof.
  split.
  - intros sched sched' w config w' Hrun Hcodec Hvalid.
    destruct (load_config_returns _ _ _ _ Hrun) as [[-> Hread]|Hfile].
    + by rewrite load_config_run, Hread.
    + by eapply load_config_hit.
  - intros sched_config sched_data sched_config' sched_data' w database w'
      Hrun Hcodec.
    destruct (load_data_returns _ _ _ _ _ Hrun) as [[-> Hread]|Hfile].
    + by rewrite load_data_run, Hread.
    + by eapply load_data_hit.
Qed.

(** X15.  The config resolved from the network is written and returned without
    being validated; only a cached config is validated.  So when
    [load_config] returns a config that is not valid, the cache it has
    written is of no use: the next run passes it over without a word and
    resolves the config from the network again. *)
Theorem unvalidated_config_is_resolved_again (sched sched' : list nat)
    (w w' : world) (config : value) :
  load_config sched w = (Return config, w') →
  json_loads (universal_newlines (json_dumps config)) = Some config →
  ¬ ValidConfig config →
  fs w' !! CONFIG_FILENAME = Some (json_dumps config)
  ∧ load_config sched' w' = refresh_config sched' w'.
Proof.
  intros Hrun Hcodec Hinvalid.
  destruct (load_config_returns _ _ _ _ Hrun) as [[-> Hread]|Hfile].
  { destruct Hinvalid. by eapply read_config_returns. }
  split; [done|].
  destruct (read_config_invalid w' (json_dumps config)) as (exc & Hread & Hexc).
  { done. }
  { right. eauto. }
  rewrite load_config_run, Hread.
  by destruct exc.
Qed.

(** X16.  The gates touch their cache files only: [load_config] leaves every
    file other than the config cache as it was, [load_data] every file
    other than the two caches; and no file is ever removed, the cache files
    included: a file that was there before a gate runs, whichever file it
    is, is there after it. *)
Theorem gates_touch_cache_files_only :
  (∀ sched w filename,
     filename ≠ CONFIG_FILENAME →
     fs (load_config sched w).2 !! filename = fs w !! filename)
  ∧ (∀ sched_config sched_data w filename,
       filename ≠ CONFIG_FILENAME → filename ≠ DATA_FILENAME →
       fs (load_data sched_config sched_data w).2 !! filename
       = fs w !! filename)
  ∧ (∀ sched w filename,
       is_Some (fs w !! filename) →
       is_Some (fs (load_config sched w).2 !! filename))
  ∧ (∀ sched_config sched_data w filename,
       is_Some (fs w !! filename) →
       is_Some (fs (load_data sched_config sched_data w).2 !! filename)).
Proof.
  assert (Hconfig : ∀ sched w filename,
            filename ≠ CONFIG_FILENAME →
            fs (load_config sched w).2 !! filename = fs w !! filename).
  { intros sched w filename Hne.
    destruct (load_config_outcome sched w) as (r & w1 & -> & _ & Hfs & _).
    simpl. destruct Hfs as [->|(config & _ & ->)]; [done|].
    by rewrite lookup_insert_ne. }
  assert (Hkept : ∀ sched w filename,
            is_Some (fs w !! filename) →
            is_Some (fs (load_config sched w).2 !! filename)).
  { intros sched w filename Hsome.
    destruct (load_config_outcome sched w) as (r & w1 & -> & _ & Hfs & _).
    simpl. destruct Hfs as [->|(config & _ & ->)]; [done|].
    destruct (decide (filename = CONFIG_FILENAME)) as [->|Hne].
    - rewrite lookup_insert_eq. eauto.
    - by rewrite lookup_insert_ne. }
  split_and!; [done| |done|].
  - intros sched_config sched_data w filename Hne Hne'.
    rewrite load_data_run.
    destruct (read_data w).1 as [cached|exc0]; [done|].
    destruct (cache_error exc0); [|done].
    set (w0 := match exc0 with
               | FileNotFoundError _ => printed (miss_line DATA_FILENAME) w
               | _ => w
               end).
    assert (Hw0 : fs w0 = fs w) by (unfold w0; by destruct exc0).
    rewrite refresh_data_run. specialize (Hconfig sched_config w0 filename Hne).
    destruct (load_config sched_config w0) as [[config|exc] w1]; simpl in *;
      [|by rewrite Hconfig, Hw0].
    destruct (web_only_resolve_data sched_data config w1) as (Hfs & _).
    destruct (resolve_data sched_data config w1) as [[database|exc] w2];
      simpl in *.
    + by rewrite lookup_insert_ne, Hfs, Hconfig, Hw0.
    + by rewrite Hfs, Hconfig, Hw0.
  - intros sched_config sched_data w filename Hsome.
    rewrite load_data_run.
    destruct (read_data w).1 as [cached|exc0]; [done|].
    destruct (cache_error exc0); [|done].
    set (w0 := match exc0 with
               | FileNotFoundError _ => printed (miss_line DATA_FILENAME) w
               | _ => w
               end).
    assert (Hw0 : fs w0 = fs w) by (unfold w0; by destruct exc0).
    rewrite <- Hw0 in Hsome.
    rewrite refresh_data_run. specialize (Hkept sched_config w0 filename Hsome).
    destruct (load_config sched_config w0) as [[config|exc] w1]; simpl in *;
      [|done].
    destruct (web_only_resolve_data sched_data config w1) as (Hfs & _).
    destruct (resolve_data sched_data config w1) as [[database|exc] w2];
      simpl in *.
    + destruct (decide (filename = DATA_FILENAME)) as [->|Hne].
      * rewrite lookup_insert_eq. eauto.
      * by rewrite lookup_insert_ne, Hfs.
    + by rewrite Hfs.
Qed.

(** X22.  With a config cache that can be used, the data gate does not run the
    config phase: when its own cache is missing or cannot be used, what it
    does is the data phase on the cached config, whatever the schedule
    given for the config phase, and the config cache is left as it is. *)
Theorem load_data_uses_cached_config (sched_config sched_data : list nat)
    (w : world) (exc0 : exn) (contents : string) (config : value) :
  (read_data w).1 = Raise exc0 → cache_error exc0 = true →
  fs w !! CONFIG_FILENAME = Some contents →
  json_loads (universal_newlines contents) = Some config →
  ValidConfig config →
  let w0 := match exc0 with
            | FileNotFoundError _ => printed (miss_line DATA_FILENAME) w
            | _ => w
            end in
  load_data sched_config sched_data w
  = match resolve_data sched_data config w0 with
    | (Return database, w2) =>
        (Return (VDict database),
         wrote DATA_FILENAME (json_dumps (VDict database)) w2)
    | (Raise exc, w2) => (Raise exc, w2)
    end
  ∧ fs (load_data sched_config sched_data w).2 !! CONFIG_FILENAME
    = Some contents.
Proof.
  intros Hread Herr Hfile Hloads Hvalid w0.
  assert (Hfile0 : fs w0 !! CONFIG_FILENAME = Some contents).
  { unfold w0. by destruct exc0. }
  assert (Hrun : load_data sched_config sched_data w
                 = match resolve_data sched_data config w0 with
                   | (Return database, w2) =>
                       (Return (VDict database),
                        wrote DATA_FILENAME (json_dumps (VDict database)) w2)
                   | (Raise exc, w2) => (Raise exc, w2)
                   end).
  { rewrite load_data_run, Hread, Herr. fold w0.
    by rewrite refresh_data_run, (load_config_hit _ _ _ _ Hfile0 Hloads Hvalid). }
  split; [done|]. rewrite Hrun.
  destruct (web_only_resolve_data sched_data config w0) as (Hfs & _).
  destruct (resolve_data sched_data config w0) as [[database|exc] w2];
    simpl in *.
  - rewrite lookup_insert_ne by (intros Heq; by apply cache_files_differ).
    by rewrite Hfs.
  - by rewrite Hfs.
Qed.

(** ** The requests the phases send *)

Lemma requests_within_ret {A} P (a : A) : requests_within P (mret a).
Proof. intros w. exists []. by rewrite app_nil_r. Qed.

Lemma requests_within_raise {A} P exc : requests_within P (@raise A exc).
Proof. intros w. exists []. by rewrite app_nil_r. Qed.

Lemma requests_within_lift {A} P (r : result A) : requests_within P (lift r).
Proof. intros w. exists []. by rewrite app_nil_r. Qed.

Lemma requests_within_bind {A B} P (m : M A) (k : A → M B) :
  requests_within P m → (∀ a, requests_within P (k a)) →
  requests_within P (m ≫= k).
Proof.
  intros Hm Hk w. rewrite bind_run. destruct (Hm w) as (l1 & Hl1 & HP1).
  destruct (m w) as [[a|exc] w1]; simpl in *; [|eauto].
  destruct (Hk a w1) as (l2 & Hl2 & HP2). exists (l1 ++ l2)%list.
  split; [by rewrite Hl2, Hl1, app_assoc|by apply Forall_app].
Qed.

Lemma requests_within_attempt {A} P (m : M A) :
  requests_within P m → requests_within P (attempt m).
Proof.
  intros Hm w. destruct (Hm w) as (l & Hl & HP). exists l.
  unfold attempt. by destruct (m w).
Qed.

Lemma requests_within_mono {A} (P Q : string → Prop) (m : M A) :
  (∀ url, P url → Q url) → requests_within P m → requests_within Q m.
Proof.
  intros HPQ Hm w. destruct (Hm w) as (l & Hl & HP). exists l.
  split; [done|]. by eapply Forall_impl.
Qed.

Lemma requests_within_mapM {A B} P (f : A → M B) (l : list A) :
  (∀ x, x ∈ l → requests_within P (f x)) → requests_within P (mapM f l).
Proof.
  induction l as [|x l IH]; intros Hf; [apply requests_within_ret|].
  cbn [mapM]. apply requests_within_bind.
  - apply Hf. apply elem_of_cons. by left.
  - intros y. apply requests_within_bind; [|intros; apply requests_within_ret].
    apply IH. intros z Hz. apply Hf. apply elem_of_cons. by right.
Qed.

Lemma requests_within_for_each_M {A S} P (l : list A) (body : A → S → M S)
    acc :
  (∀ x acc, x ∈ l → requests_within P (body x acc)) →
  requests_within P (for_each_M l body acc).
Proof.
  revert acc. induction l as [|x l IH]; intros acc Hbody;
    [apply requests_within_ret|].
  cbn [for_each_M]. apply requests_within_bind.
  - apply Hbody. apply elem_of_cons. by left.
  - intros acc1. apply IH. intros z acc2 Hz. apply Hbody.
    apply elem_of_cons. by right.
Qed.

Lemma requests_within_wait_loop {A S} P (done : list (task A))
    (body : A → S → result S) acc :
  requests_within P (wait_loop done body acc).
Proof.
  intros w. rewrite wait_loop_drain. exists []. by rewrite app_nil_r.
Qed.

Lemma requests_within_get_soup url retries :
  requests_within (λ u, u = url) (get_soup url retries).
Proof.
  intros w. destruct (get_soup_world url retries w) as (k & _ & ->).
  exists (replicate k url). split; [done|]. by apply Forall_replicate.
Qed.

Lemma requests_within_load_config_from_web sched :
  requests_within on_site (load_config_from_web sched).
Proof.
  unfold load_config_from_web. apply requests_within_bind.
  { eapply requests_within_mono; [|apply requests_within_get_soup].
    intros url ->. by left. }
  intros soup. destruct (find_id "season_name" soup) as [element|];
    [|apply requests_within_raise].
  destruct (length _ =? 0)%nat; [apply requests_within_raise|].
  apply requests_within_bind.
  - apply requests_within_mapM. intros season _.
    apply requests_within_attempt. unfold get_season.
    apply requests_within_bind; [|intros; apply requests_within_ret].
    eapply requests_within_mono; [|apply requests_within_get_soup].
    intros url ->. right. by exists season.
  - intros tasks. apply requests_within_bind; [|intros; apply requests_within_ret].
    apply requests_within_wait_loop.
Qed.

(** X9.  The config gate stays on the site: whatever the cache holds and the
    network serves, the requests recorded before the call stay recorded,
    and every request [load_config] adds goes to the landing page or to the
    page of a season. *)
Theorem load_config_requests_on_site (sched : list nat) (w : world) :
  ∃ added,
    requests (load_config sched w).2 = (requests w ++ added)%list
    ∧ Forall on_site added.
Proof.
  rewrite load_config_run.
  destruct (read_config w).1 as [cached|exc0];
    [exists []; by rewrite app_nil_r|].
  destruct (cache_error exc0); [|exists []; by rewrite app_nil_r].
  set (w0 := match exc0 with
             | FileNotFoundError _ => printed (miss_line CONFIG_FILENAME) w
             | _ => w
             end).
  assert (Hw0 : requests w0 = requests w) by (unfold w0; by destruct exc0).
  rewrite refresh_config_run.
  destruct (requests_within_load_config_from_web sched w0) as (l & Hl & HP).
  exists l. split; [|done]. rewrite <- Hw0, <- Hl.
  by destruct (load_config_from_web sched w0) as [[config|exc] w1].
Qed.

Lemma requests_within_parse_webpage url season season_type :
  requests_within (λ u, url = VStr u) (parse_webpage url season season_type).
Proof.
  unfold parse_webpage. apply requests_within_bind.
  - destruct url; try apply requests_within_raise.
    eapply requests_within_mono; [|apply requests_within_get_soup].
    by intros u ->.
  - intros soup. apply requests_within_bind; [|intros; apply requests_within_ret].
    apply requests_within_lift.
Qed.

Lemma requests_within_spawn_tasks (seasons : dict) :
  requests_within (stored_url seasons) (spawn_tasks (VDict seasons)).
Proof.
  unfold spawn_tasks. apply requests_within_for_each_M.
  intros season acc _. unfold spawn_season.
  destruct (dict_get season seasons) as [[| | | | | |season_config]|] eqn:Hseason;
    try apply requests_within_raise.
  apply requests_within_bind; [|intros; apply requests_within_ret].
  apply requests_within_mapM. intros season_type _.
  destruct (dict_get season_type season_config) as [url|] eqn:Hurl;
    [|apply requests_within_raise].
  apply requests_within_attempt.
  eapply requests_within_mono; [|apply requests_within_parse_webpage].
  intros u ->. by exists season, season_config, season_type.
Qed.

(** X21.  The data phase requests nothing but the URLs the config stores: the
    requests recorded before stay recorded, and every request added goes to
    a URL found under a season type of a season of the config. *)
Theorem resolve_data_requests_stored_urls (sched : list nat) (seasons : dict)
    (w : world) :
  ∃ added,
    requests (resolve_data sched (VDict seasons) w).2
    = (requests w ++ added)%list
    ∧ Forall (stored_url seasons) added.
Proof.
  revert w. change (requests_within (stored_url seasons)
                      (resolve_data sched (VDict seasons))).
  unfold resolve_data. apply requests_within_bind.
  - apply requests_within_spawn_tasks.
  - intros spawned. apply requests_within_wait_loop.
Qed.

Lemma requests_kept {A} P (m : M A) w u :
  requests_within P m → u ∈ requests w → u ∈ requests (m w).2.
Proof.
  intros Hm Hu. destruct (Hm w) as (l & -> & _). apply elem_of_app. by left.
Qed.

Lemma parse_webpage_requested u season season_type w :
  u ∈ requests (parse_webpage (VStr u) season season_type w).2.
Proof.
  unfold parse_webpage. rewrite bind_run.
  destruct (get_soup_world u default_retries w) as (k & [Hk _] & Hworld).
  assert (Hu : u ∈ requests (get_soup u default_retries w).2).
  { rewrite Hworld. simpl. apply elem_of_app; right. destruct k; [lia|].
    apply elem_of_cons. by left. }
  destruct (get_soup u default_retries w) as [[soup|exc] w1]; [|done].
  apply (requests_kept (λ _, True)); [|done].
  apply requests_within_bind; [|intros; apply requests_within_ret].
  apply requests_within_lift.
Qed.

(** Spawning the tasks of a config that is a dict of dicts never
    raises. *)
Lemma spawn_season_types_return season (season_config : dict)
    (keys : list string) w :
  (∀ key, key ∈ keys → is_Some (dict_get key season_config)) →
  ∃ new w1,
    mapM (λ season_type,
            match dict_get season_type season_config with
            | Some url => create_task (parse_webpage url season season_type)
            | None => raise (KeyError season_type)
            end) keys w = (Return new, w1).
Proof.
  set (spawn := λ season_type,
         match dict_get season_type season_config with
         | Some url => create_task (parse_webpage url season season_type)
         | None => raise (KeyError season_type)
         end).
  revert w. induction keys as [|key keys IH]; intros w Hkeys;
    [by eexists _, _|].
  cbn [mapM]. rewrite bind_run. unfold spawn at 1.
  destruct (Hkeys key) as [url Hurl]; [by apply elem_of_cons; left|].
  rewrite Hurl. unfold create_task, attempt.
  destruct (parse_webpage url season key w) as [t w1].
  destruct (IH w1) as (rest & w2 & Hrest).
  { intros k Hk. apply Hkeys. by apply elem_of_cons; right. }
  rewrite bind_run, Hrest. by eexists _, _.
Qed.

Lemma spawn_season_return (seasons : dict) season season_config acc w :
  dict_get season seasons = Some (VDict season_config) →
  ∃ spawned w1, spawn_season seasons season acc w = (Return spawned, w1).
Proof.
  intros Hseason. unfold spawn_season. rewrite Hseason, bind_run.
  destruct (spawn_season_types_return season season_config
              (dict_keys season_config) w) as (new & w1 & ->).
  { intros k Hk. by apply dict_get_keys. }
  by eexists _, _.
Qed.

Lemma spawn_seasons_return (seasons : dict) (keys : list string) acc w :
  (∀ key, key ∈ keys →
     ∃ key_config, dict_get key seasons = Some (VDict key_config)) →
  ∃ spawned w1,
    for_each_M keys (spawn_season seasons) acc w = (Return spawned, w1).
Proof.
  revert acc w. induction keys as [|key keys IH]; intros acc w Hkeys;
    [by eexists _, _|].
  cbn [for_each_M]. rewrite bind_run.
  destruct (Hkeys key) as [key_config Hkey]; [by apply elem_of_cons; left|].
  destruct (spawn_season_return seasons key key_config acc w Hkey)
    as (spawned1 & w1 & ->).
  apply IH. intros k Hk. apply Hkeys. by apply elem_of_cons; right.
Qed.

Lemma requests_within_spawn_season (seasons : dict) season acc :
  requests_within (λ _, True) (spawn_season seasons season acc).
Proof.
  unfold spawn_season.
  destruct (dict_get season seasons) as [[| | | | | |season_config]|];
    try apply requests_within_raise.
  apply requests_within_bind; [|intros; apply requests_within_ret].
  apply requests_within_mapM. intros season_type _.
  destruct (dict_get season_type season_config);
    [|apply requests_within_raise].
  apply requests_within_attempt.
  eapply requests_within_mono; [|apply requests_within_parse_webpage]. done.
Qed.

(** The URL under a season type is requested when the tasks of its season
    are spawned. *)
Lemma spawn_season_types_requested season (season_config : dict)
    (keys : list string) w new w1 season_type u :
  mapM (λ season_type,
          match dict_get season_type season_config with
          | Some url => create_task (parse_webpage url season season_type)
          | None => raise (KeyError season_type)
          end) keys w = (Return new, w1) →
  season_type ∈ keys → dict_get season_type season_config = Some (VStr u) →
  u ∈ requests w1.
Proof.
  set (spawn := λ season_type,
         match dict_get season_type season_config with
         | Some url => create_task (parse_webpage url season season_type)
         | None => raise (KeyError season_type)
         end).
  assert (Hspawn : ∀ key, requests_within (λ _, True) (spawn key)).
  { intros key. unfold spawn. destruct (dict_get key season_config);
      [|apply requests_within_raise].
    apply requests_within_attempt.
    eapply requests_within_mono; [|apply requests_within_parse_webpage]. done. }
  revert w new. induction keys as [|key keys IH]; intros w new.
  - by intros _ ?%elem_of_nil.
  - cbn [mapM]. rewrite bind_run. unfold spawn at 1.
    destruct (dict_get key season_config) as [url|] eqn:Hkey; [|done].
    unfold create_task, attempt.
    destruct (parse_webpage url season key w) as [t w0] eqn:Hpage.
    rewrite bind_run.
    destruct (mapM spawn keys w0) as [[rest|exc] w2] eqn:Hrest; [|done].
    intros [= _ <-] [->|Hin]%elem_of_cons Hurl.
    + rewrite Hkey in Hurl. injection Hurl as ->.
      replace w2 with (mapM spawn keys w0).2 by (by rewrite Hrest).
      eapply requests_kept.
      * apply requests_within_mapM. intros k Hk. apply Hspawn.
      * replace w0 with (parse_webpage (VStr u) season key w).2
          by (by rewrite Hpage).
        apply parse_webpage_requested.
    + by eapply IH.
Qed.

Lemma spawn_seasons_requested (seasons : dict) (keys : list string) acc w
    spawned w1 season season_config season_type u :
  for_each_M keys (spawn_season seasons) acc w = (Return spawned, w1) →
  season ∈ keys →
  dict_get season seasons = Some (VDict season_config) →
  dict_get season_type season_config = Some (VStr u) →
  u ∈ requests w1.
Proof.
  revert acc w. induction keys as [|key keys IH]; intros acc w.
  - by intros _ ?%elem_of_nil.
  - cbn [for_each_M]. rewrite bind_run.
    destruct (spawn_season seasons key acc w) as [[spawned1|exc] w0] eqn:Hfirst;
      [|done].
    intros Hrest [->|Hin]%elem_of_cons Hseason Hurl; [|by eapply IH].
    replace w1 with (for_each_M keys (spawn_season seasons) spawned1 w0).2
      by (by rewrite Hrest).
    eapply requests_kept.
    { apply requests_within_for_each_M. intros k acc0 _.
      apply requests_within_spawn_season. }
    revert Hfirst. unfold spawn_season. rewrite Hseason, bind_run.
    match goal with
    | |- context [mapM ?spawn (dict_keys season_config) w] =>
        destruct (mapM spawn (dict_keys season_config) w)
          as [[new|exc] w2] eqn:Hnew; [|done]
    end.
    intros [= _ <-].
    eapply spawn_season_types_requested; [done| |done].
    apply dict_get_keys. eauto.
Qed.

(** X23.  The data gate requests the URLs it finds in the config cache, whatever
    they are.  The cached config is validated, but the validation does not
    look at the URLs: [client.get] is called with any string stored under a
    season type of a valid cached config when the data cache is missing or
    cannot be used. *)
Theorem cached_urls_are_requested (sched_config sched_data : list nat)
    (w : world) (exc0 : exn) (contents : string) (seasons season_config : dict)
    (season season_type u : string) :
  (read_data w).1 = Raise exc0 → cache_error exc0 = true →
  fs w !! CONFIG_FILENAME = Some contents →
  json_loads (universal_newlines contents) = Some (VDict seasons) →
  ValidConfig (VDict seasons) →
  dict_get season seasons = Some (VDict season_config) →
  dict_get season_type season_config = Some (VStr u) →
  u ∈ requests (load_data sched_config sched_data w).2.
Proof.
  intros Hread Herr Hfile Hloads Hvalid Hseason Hurl.
  set (w0 := match exc0 with
             | FileNotFoundError _ => printed (miss_line DATA_FILENAME) w
             | _ => w
             end).
  assert (Hfile0 : fs w0 !! CONFIG_FILENAME = Some contents).
  { unfold w0. by destruct exc0. }
  rewrite load_data_run, Hread, Herr. fold w0.
  rewrite refresh_data_run, (load_config_hit _ _ _ _ Hfile0 Hloads Hvalid).
  destruct (spawn_seasons_return seasons (dict_keys seasons) ([], []) w0)
    as (spawned & w1 & Hspawn).
  { intros key [v Hv]%dict_get_keys.
    destruct Hvalid as (seasons' & [= <-] & Hvalid).
    destruct (Hvalid key v Hv) as (key_config & -> & _). eauto. }
  assert (Hu : u ∈ requests w1).
  { eapply spawn_seasons_requested; [done| |done|done].
    apply dict_get_keys. eauto. }
  unfold resolve_data. rewrite bind_run. unfold spawn_tasks. rewrite Hspawn.
  rewrite wait_loop_drain.
  by destruct (drain _ store_page spawned.1).
Qed.

(** ** The lines the phases print *)

Lemma prints_within_ret {A} P (a : A) : prints_within P (mret a).
Proof. intros w. exists []. by rewrite app_nil_r. Qed.

Lemma prints_within_raise {A} P exc : prints_within P (@raise A exc).
Proof. intros w. exists []. by rewrite app_nil_r. Qed.

Lemma prints_within_lift {A} P (r : result A) : prints_within P (lift r).
Proof. intros w. exists []. by rewrite app_nil_r. Qed.

Lemma prints_within_write_file P filename contents :
  prints_within P (write_file filename contents).
Proof. intros w. exists []. by rewrite app_nil_r. Qed.

Lemma prints_within_bind {A B} P (m : M A) (k : A → M B) :
  prints_within P m → (∀ a, prints_within P (k a)) →
  prints_within P (m ≫= k).
Proof.
  intros Hm Hk w. rewrite bind_run. destruct (Hm w) as (l1 & Hl1 & HP1).
  destruct (m w) as [[a|exc] w1]; simpl in *; [|eauto].
  destruct (Hk a w1) as (l2 & Hl2 & HP2). exists (l1 ++ l2)%list.
  split; [by rewrite Hl2, Hl1, app_assoc|by apply Forall_app].
Qed.

Lemma prints_within_attempt {A} P (m : M A) :
  prints_within P m → prints_within P (attempt m).
Proof.
  intros Hm w. destruct (Hm w) as (l & Hl & HP). exists l.
  unfold attempt. by destruct (m w).
Qed.

Lemma prints_within_mono {A} (P Q : string → Prop) (m : M A) :
  (∀ line, P line → Q line) → prints_within P m → prints_within Q m.
Proof.
  intros HPQ Hm w. destruct (Hm w) as (l & Hl & HP). exists l.
  split; [done|]. by eapply Forall_impl.
Qed.

Lemma prints_within_mapM {A B} P (f : A → M B) (l : list A) :
  (∀ x, prints_within P (f x)) → prints_within P (mapM f l).
Proof.
  intros Hf. induction l as [|x l IH]; [apply prints_within_ret|].
  cbn [mapM]. apply prints_within_bind; [done|].
  intros y. apply prints_within_bind; [done|intros; apply prints_within_ret].
Qed.

Lemma prints_within_for_each_M {A S} P (l : list A) (body : A → S → M S)
    acc :
  (∀ x acc, prints_within P (body x acc)) →
  prints_within P (for_each_M l body acc).
Proof.
  intros Hbody. revert acc. induction l as [|x l IH]; intros acc;
    [apply prints_within_ret|].
  cbn [for_each_M]. by apply prints_within_bind.
Qed.

Lemma prints_within_wait_loop {A S} P (done : list (task A))
    (body : A → S → result S) acc :
  prints_within P (wait_loop done body acc).
Proof.
  intros w. rewrite wait_loop_drain. exists []. by rewrite app_nil_r.
Qed.

Lemma prints_within_get_soup url retries :
  prints_within fetch_line (get_soup url retries).
Proof.
  intros w. destruct (get_soup_world url retries w) as (k & _ & ->).
  eexists. split; [done|].
  destruct (get_soup url retries w).1 as [soup|exc]; [by apply Forall_nil|].
  destruct exc; try (by apply Forall_nil); apply Forall_singleton; exists url;
    eauto.
Qed.

Lemma prints_within_load_config_from_web sched :
  prints_within fetch_line (load_config_from_web sched).
Proof.
  unfold load_config_from_web. apply prints_within_bind.
  { apply prints_within_get_soup. }
  intros soup. destruct (find_id "season_name" soup) as [element|];
    [|apply prints_within_raise].
  destruct (length _ =? 0)%nat; [apply prints_within_raise|].
  apply prints_within_bind.
  - apply prints_within_mapM. intros season.
    apply prints_within_attempt. unfold get_season.
    apply prints_within_bind; [|intros; apply prints_within_ret].
    apply prints_within_get_soup.
  - intros tasks. apply prints_within_bind; [|intros; apply prints_within_ret].
    apply prints_within_wait_loop.
Qed.

Lemma prints_within_parse_webpage url season season_type :
  prints_within fetch_line (parse_webpage url season season_type).
Proof.
  unfold parse_webpage. apply prints_within_bind.
  - destruct url; try apply prints_within_raise. apply prints_within_get_soup.
  - intros soup. apply prints_within_bind; [|intros; apply prints_within_ret].
    apply prints_within_lift.
Qed.

Lemma prints_within_resolve_data sched config :
  prints_within fetch_line (resolve_data sched config).
Proof.
  unfold resolve_data. apply prints_within_bind;
    [|intros; apply prints_within_wait_loop].
  unfold spawn_tasks. destruct config as [| | | | | |seasons];
    try apply prints_within_raise.
  apply prints_within_for_each_M. intros season acc. unfold spawn_season.
  destruct (dict_get season seasons) as [[| | | | | |season_config]|];
    try apply prints_within_raise.
  apply prints_within_bind; [|intros; apply prints_within_ret].
  apply prints_within_mapM. intros season_type.
  destruct (dict_get season_type season_config) as [url|];
    [|apply prints_within_raise].
  apply prints_within_attempt. apply prints_within_parse_webpage.
Qed.

Lemma prints_within_refresh_config sched :
  prints_within fetch_line (refresh_config sched).
Proof.
  unfold refresh_config. apply prints_within_bind.
  { apply prints_within_load_config_from_web. }
  intros config. apply prints_within_bind; [|intros; apply prints_within_ret].
  apply prints_within_write_file.
Qed.

(** What the [except] clauses of a gate print. *)
Lemma except_cache_prints filename exc w :
  ∃ pre,
    stdout match exc with
           | FileNotFoundError _ => printed (miss_line filename) w
           | _ => w
           end = (stdout w ++ pre)%list
    ∧ Forall (λ line, line = miss_line filename) pre
    ∧ (is_ValueError exc = true → pre = []).
Proof.
  destruct exc;
    try (exists []; split_and!; [by rewrite app_nil_r|by apply Forall_nil|done]).
  exists [miss_line filename]. split_and!; [done|by apply Forall_singleton|done].
Qed.

Lemma prints_within_load_config sched :
  prints_within (λ line, fetch_line line ∨ line = miss_line CONFIG_FILENAME)
    (load_config sched).
Proof.
  intros w. rewrite load_config_run.
  destruct (read_config w).1 as [cached|exc0];
    [exists []; by rewrite app_nil_r|].
  destruct (cache_error exc0); [|exists []; by rewrite app_nil_r].
  destruct (except_cache_prints CONFIG_FILENAME exc0 w) as (pre & Hpre & HP & _).
  destruct (prints_within_refresh_config sched
              match exc0 with
              | FileNotFoundError _ => printed (miss_line CONFIG_FILENAME) w
              | _ => w
              end) as (l & -> & HPl).
  exists (pre ++ l)%list. split; [by rewrite Hpre, app_assoc|].
  apply Forall_app. split; eapply Forall_impl; eauto.
Qed.

Lemma prints_within_refresh_data sched_config sched_data :
  prints_within (λ line, fetch_line line ∨ line = miss_line CONFIG_FILENAME)
    (refresh_data sched_config sched_data).
Proof.
  unfold refresh_data. apply prints_within_bind.
  { apply prints_within_load_config. }
  intros config. apply prints_within_bind.
  { eapply prints_within_mono; [|apply prints_within_resolve_data]. auto. }
  intros database. apply prints_within_bind; [|intros; apply prints_within_ret].
  apply prints_within_write_file.
Qed.

(** The lines are told apart by their text. *)
Lemma str_list_app (a b : string) :
  String.list_ascii_of_string (a +:+ b)
  = (String.list_ascii_of_string a ++ String.list_ascii_of_string b)%list.
Proof. induction a as [|c a IH]; [done|]. simpl. by rewrite IH. Qed.

Lemma timeout_line_not_miss url filename : timeout_line url ≠ miss_line filename.
Proof.
  unfold timeout_line, miss_line. intros Heq.
  apply (f_equal (λ s, reverse (String.list_ascii_of_string s))) in Heq.
  rewrite !str_list_app, !reverse_app in Heq.
  set (tail1 := reverse (String.list_ascii_of_string
                  " reached maximum retry attempts, unable to complete request."))
    in Heq.
  set (tail2 := reverse (String.list_ascii_of_string ". 從 Pleague 下載."))
    in Heq.
  vm_compute in tail1, tail2. subst tail1 tail2.
  rewrite <- !app_assoc in Heq.
  apply (f_equal (λ l, l !! 1)) in Heq. simpl in Heq. discriminate Heq.
Qed.

Lemma fetch_line_not_miss line filename :
  fetch_line line → line ≠ miss_line filename.
Proof.
  intros (url & [->|[[status_code ->]| ->]]).
  - apply timeout_line_not_miss.
  - unfold status_line, miss_line. intros Heq. discriminate Heq.
  - unfold request_line, miss_line. intros Heq. discriminate Heq.
Qed.

Lemma miss_lines_differ : miss_line CONFIG_FILENAME ≠ miss_line DATA_FILENAME.
Proof.
  unfold miss_line. intros Heq%str_app_inj_l.
  unfold CONFIG_FILENAME, DATA_FILENAME, abs_path in Heq.
  rewrite !str_app_assoc in Heq. apply str_app_inj_l in Heq.
  vm_compute in Heq. congruence.
Qed.

(** A cache file that is there makes the read raise a [ValueError], if
    anything. *)
Lemma read_config_present w exc :
  is_Some (fs w !! CONFIG_FILENAME) → (read_config w).1 = Raise exc →
  is_ValueError exc = true.
Proof.
  intros [contents Hfile]. rewrite read_config_run, Hfile. simpl.
  destruct (json_loads (universal_newlines contents)) as [config|];
    [|by intros [= <-]].
  destruct config as [| | | | | |seasons]; try (by intros [= <-]).
  simpl. destruct (check_seasons_spec seasons) as [_ [->| ->]]; [done|].
  by intros [= <-].
Qed.

Lemma read_data_present w exc :
  is_Some (fs w !! DATA_FILENAME) → (read_data w).1 = Raise exc →
  is_ValueError exc = true.
Proof.
  intros [contents Hfile]. rewrite read_data_run, Hfile. simpl.
  destruct (json_loads (universal_newlines contents)) as [database|]; [done|].
  by intros [= <-].
Qed.

Lemma Forall_not_elem_of {A} (P : A → Prop) (l : list A) x :
  Forall P l → ¬ P x → x ∉ l.
Proof. intros Hall Hx Hin. apply Hx. by eapply (proj1 (Forall_forall _ _) Hall). Qed.

(** X13.  A cache file that is missing is reported on the standard output,
    once, and then the gate does what the statements after its [try] do.
    Those statements never print the line of the gate; and a gate whose
    cache file is there prints no such line at all: the missing file is the
    only case in which a gate prints it. *)
Theorem missing_cache_is_reported :
  (∀ sched w,
     fs w !! CONFIG_FILENAME = None →
     load_config sched w
     = refresh_config sched (printed (miss_line CONFIG_FILENAME) w))
  ∧ (∀ sched_config sched_data w,
       fs w !! DATA_FILENAME = None →
       load_data sched_config sched_data w
       = refresh_data sched_config sched_data
           (printed (miss_line DATA_FILENAME) w))
  ∧ (∀ sched w,
       ∃ added,
         stdout (refresh_config sched w).2 = (stdout w ++ added)%list
         ∧ miss_line CONFIG_FILENAME ∉ added)
  ∧ (∀ sched_config sched_data w,
       ∃ added,
         stdout (refresh_data sched_config sched_data w).2
         = (stdout w ++ added)%list
         ∧ miss_line DATA_FILENAME ∉ added)
  ∧ (∀ sched w,
       is_Some (fs w !! CONFIG_FILENAME) →
       ∃ added,
         stdout (load_config sched w).2 = (stdout w ++ added)%list
         ∧ miss_line CONFIG_FILENAME ∉ added)
  ∧ (∀ sched_config sched_data w,
       is_Some (fs w !! DATA_FILENAME) →
       ∃ added,
         stdout (load_data sched_config sched_data w).2
         = (stdout w ++ added)%list
         ∧ miss_line DATA_FILENAME ∉ added).
Proof.
  assert (Hconfig : ∀ sched w,
            ∃ added,
              stdout (refresh_config sched w).2 = (stdout w ++ added)%list
              ∧ miss_line CONFIG_FILENAME ∉ added).
  { intros sched w.
    destruct (prints_within_refresh_config sched w) as (l & Hl & HP).
    exists l. split; [done|]. eapply Forall_not_elem_of; [done|].
    intros Hfetch. by eapply fetch_line_not_miss. }
  assert (Hdata : ∀ sched_config sched_data w,
            ∃ added,
              stdout (refresh_data sched_config sched_data w).2
              = (stdout w ++ added)%list
              ∧ miss_line DATA_FILENAME ∉ added).
  { intros sched_config sched_data w.
    destruct (prints_within_refresh_data sched_config sched_data w)
      as (l & Hl & HP).
    exists l. split; [done|]. eapply Forall_not_elem_of; [done|].
    intros [Hfetch|Heq].
    - by eapply fetch_line_not_miss.
    - by apply miss_lines_differ. }
  split_and!; [| |done|done| |].
  - intros sched w Hnone. by rewrite load_config_run, read_config_run, Hnone.
  - intros sched_config sched_data w Hnone.
    by rewrite load_data_run, read_data_run, Hnone.
  - intros sched w Hsome. rewrite load_config_run.
    destruct (read_config w).1 as [cached|exc0] eqn:Hread.
    { exists []. split; [by rewrite app_nil_r|by apply not_elem_of_nil]. }
    pose proof (read_config_present w exc0 Hsome Hread) as Hvalue.
    assert (Hexc : cache_error exc0 = true) by (by destruct exc0).
    rewrite Hexc.
    replace (match exc0 with
             | FileNotFoundError _ => printed (miss_line CONFIG_FILENAME) w
             | _ => w
             end) with w by (by destruct exc0).
    apply Hconfig.
  - intros sched_config sched_data w Hsome. rewrite load_data_run.
    destruct (read_data w).1 as [cached|exc0] eqn:Hread.
    { exists []. split; [by rewrite app_nil_r|by apply not_elem_of_nil]. }
    pose proof (read_data_present w exc0 Hsome Hread) as Hvalue.
    assert (Hexc : cache_error exc0 = true) by (by destruct exc0).
    rewrite Hexc.
    replace (match exc0 with
             | FileNotFoundError _ => printed (miss_line DATA_FILENAME) w
             | _ => w
             end) with w by (by destruct exc0).
    apply Hdata.
Qed.

(** ** The table extraction *)

Lemma mapM_result_cons {A B} (f : A → result B) x (l : list A) :
  mapM f (x :: l)
  = match f x with
    | Return y =>
        match mapM f l with
        | Return k => Return (y :: k)
        | Raise exc => Raise exc
        end
    | Raise exc => Raise exc
    end.
Proof. reflexivity. Qed.

Lemma mapM_tag_getitem data_type (columns : list node) :
  (∀ col, col ∈ columns → is_Some (dict_get data_type (tag_attrs col))) →
  mapM (λ col, tag_getitem col data_type) columns
  = Return (omap (λ col, dict_get data_type (tag_attrs col)) columns).
Proof.
  induction columns as [|col columns IH]; intros Hall; [done|].
  destruct (Hall col) as [v Hv]; [by apply elem_of_cons; left|].
  rewrite mapM_result_cons. unfold tag_getitem at 1. rewrite Hv.
  rewrite IH; [by simpl; rewrite Hv|].
  intros c Hc. apply Hall. by apply elem_of_cons; right.
Qed.

Lemma mapM_tag_getitem_missing data_type (columns : list node) col :
  col ∈ columns → dict_get data_type (tag_attrs col) = None →
  mapM (λ col, tag_getitem col data_type) columns = Raise (KeyError data_type).
Proof.
  induction columns as [|c columns IH]; intros Hin Hnone.
  - by apply elem_of_nil in Hin.
  - rewrite mapM_result_cons. unfold tag_getitem at 1.
    destruct (dict_get data_type (tag_attrs c)) as [v|] eqn:Hv; [|done].
    apply elem_of_cons in Hin as [->|Hin]; [congruence|].
    by rewrite IH.
Qed.

(** One row, in one mode: the entry of the player gets the fields of the
    row under the mode. *)
Lemma add_row_run data_type_name data_type row database player_name :
  player_name_of row = Return player_name →
  (∀ col, col ∈ find_all "td" row →
     is_Some (dict_get data_type (tag_attrs col))) →
  all_dicts database →
  add_row data_type_name data_type row database
  = Return (dict_set player_name
              (VDict (dict_set data_type_name (VDict (row_stat data_type row))
                        (entry_of player_name database)))
              database).
Proof.
  intros Hname Hcols Hdicts. unfold add_row.
  rewrite result_bind_run, Hname, result_bind_run, (mapM_tag_getitem _ _ Hcols).
  fold (row_stat data_type row).
  unfold entry_of, dict_mem.
  destruct (dict_get player_name database) as [v|] eqn:Hget.
  - destruct (Hdicts _ _ Hget) as [entry ->]. by rewrite Hget.
  - by rewrite dict_get_set_eq, dict_set_set.
Qed.

(** A data cell without the attribute of the mode makes the row raise
    [KeyError]. *)
Lemma add_row_missing data_type_name data_type row database player_name col :
  player_name_of row = Return player_name →
  col ∈ find_all "td" row →
  dict_get data_type (tag_attrs col) = None →
  add_row data_type_name data_type row database = Raise (KeyError data_type).
Proof.
  intros Hname Hcol Hnone. unfold add_row.
  rewrite result_bind_run, Hname, result_bind_run.
  by rewrite (mapM_tag_getitem_missing _ _ col).
Qed.

Lemma all_dicts_set k entry database :
  all_dicts database → all_dicts (dict_set k (VDict entry) database).
Proof.
  intros Hdicts k' v. rewrite dict_get_set.
  destruct (String.eqb k k'); [intros [= <-]; eauto|apply Hdicts].
Qed.

Lemma is_named_true player_name row :
  is_named player_name row = true ↔ player_name_of row = Return player_name.
Proof.
  unfold is_named. destruct (player_name_of row) as [name|exc]; [|done].
  rewrite String.eqb_eq. split; congruence.
Qed.

Lemma last_named_elem player_name rows row :
  last_named player_name rows = Some row →
  row ∈ rows ∧ player_name_of row = Return player_name.
Proof.
  induction rows as [|r rows IH]; simpl; [done|].
  destruct (last_named player_name rows) as [later|].
  - intros [= <-]. destruct IH as [Hin Hname]; [done|].
    split; [by apply elem_of_cons; right|done].
  - destruct (is_named player_name r) eqn:Hnamed; [|done].
    intros [= <-]. split; [by apply elem_of_cons; left|].
    by apply is_named_true.
Qed.

Lemma last_named_is_Some player_name rows row :
  row ∈ rows → player_name_of row = Return player_name →
  is_Some (last_named player_name rows).
Proof.
  induction rows as [|r rows IH]; intros Hin Hname.
  - by apply elem_of_nil in Hin.
  - simpl. destruct (last_named player_name rows) as [later|] eqn:Hlater; [eauto|].
    apply elem_of_cons in Hin as [->|Hin].
    + apply is_named_true in Hname. rewrite Hname. eauto.
    + destruct (IH Hin Hname) as [? ?]. done.
Qed.

(** One pass over the rows, in one mode: every player of a row has, under
    the mode, the fields of the last of the player's rows; the other
    entries are as before. *)
Lemma add_rows_run data_type_name data_type rows database :
  (∀ row, row ∈ rows →
     (∃ player_name, player_name_of row = Return player_name)
     ∧ ∀ col, col ∈ find_all "td" row →
         is_Some (dict_get data_type (tag_attrs col))) →
  all_dicts database →
  ∃ database',
    for_each rows (add_row data_type_name data_type) database = Return database'
    ∧ all_dicts database'
    ∧ ∀ player_name,
        dict_get player_name database'
        = match last_named player_name rows with
          | Some row =>
              Some (VDict (dict_set data_type_name
                             (VDict (row_stat data_type row))
                             (entry_of player_name database)))
          | None => dict_get player_name database
          end.
Proof.
  revert database. induction rows as [|row rows IH]; intros database Hrows Hdicts.
  - by exists database.
  - destruct (Hrows row) as [[name Hname] Hcols]; [by apply elem_of_cons; left|].
    simpl. unfold mbind, result_bind.
    rewrite (add_row_run _ _ _ _ _ Hname Hcols Hdicts).
    set (database1 := dict_set name _ database).
    destruct (IH database1) as (database' & -> & Hdicts' & Hget).
    { intros r Hr. apply Hrows. by apply elem_of_cons; right. }
    { by apply all_dicts_set. }
    exists database'. split_and!; [done|done|].
    intros player_name. rewrite Hget. unfold is_named. rewrite Hname.
    assert (Hentry : entry_of player_name database1
                     = if String.eqb name player_name
                       then dict_set data_type_name
                              (VDict (row_stat data_type row))
                              (entry_of player_name database)
                       else entry_of player_name database).
    { unfold entry_of, database1. rewrite dict_get_set.
      destruct (String.eqb name player_name) eqn:E; [|done].
      by apply String.eqb_eq in E as ->. }
    destruct (last_named player_name rows) as [later|].
    + rewrite Hentry. destruct (String.eqb name player_name); [|done].
      by rewrite dict_set_set.
    + unfold database1. rewrite dict_get_set.
      destruct (String.eqb name player_name) eqn:E; [|done].
      by apply String.eqb_eq in E as ->.
Qed.

Lemma STATS_NAME_NoDup : NoDup (dict_keys STATS_NAME).
Proof. apply (bool_decide_unpack _). by vm_compute. Qed.

Lemma zip_with_keys (names stats : list string) :
  (zip_with (λ name stat, (name, VStr stat)) names stats).*1
  = take (length stats) names.
Proof.
  revert stats. induction names as [|name names IH]; intros [|stat stats];
    try done.
  csimpl. by rewrite IH.
Qed.

Lemma omap_length_all {A B} (f : A → option B) (l : list A) :
  (∀ x, x ∈ l → is_Some (f x)) → length (omap f l) = length l.
Proof.
  induction l as [|x l IH]; intros Hall; [done|].
  destruct (Hall x) as [y Hy]; [by apply elem_of_cons; left|].
  csimpl. rewrite Hy. simpl. rewrite IH; [done|].
  intros z Hz. apply Hall. by apply elem_of_cons; right.
Qed.

(** A row whose cells all carry the attribute of the mode gives the names
    of the fixed list paired, in order, with the values of its cells. *)
Lemma row_stat_zip data_type row :
  (∀ col, col ∈ find_all "td" row →
     is_Some (dict_get data_type (tag_attrs col))) →
  row_stat data_type row
  = zip_with (λ name stat, (name, VStr stat)) (dict_keys STATS_NAME)
      (omap (λ col, dict_get data_type (tag_attrs col)) (find_all "td" row))
  ∧ NoDup (dict_keys (row_stat data_type row)).
Proof.
  intros Hcols. unfold row_stat.
  assert (Hkeys : ∀ stats,
             NoDup (dict_keys (zip_with (λ name stat, (name, VStr stat))
                                 (dict_keys STATS_NAME) stats))).
  { intros stats. unfold dict_keys at 1. rewrite zip_with_keys.
    eapply sublist_NoDup; [apply STATS_NAME_NoDup|apply sublist_take]. }
  by rewrite dict_of_pairs_NoDup.
Qed.

(** The field names of a row are the first names of the fixed list, as many
    as the row has data cells. *)
Lemma row_stat_keys data_type row :
  (∀ col, col ∈ find_all "td" row →
     is_Some (dict_get data_type (tag_attrs col))) →
  dict_keys (row_stat data_type row)
  = take (length (find_all "td" row)) (dict_keys STATS_NAME).
Proof.
  intros Hcols. rewrite (proj1 (row_stat_zip _ _ Hcols)).
  unfold dict_keys at 1. by rewrite zip_with_keys, omap_length_all.
Qed.

Lemma omap_lookup_all {A B} (f : A → option B) (l : list A) i x :
  (∀ x, x ∈ l → is_Some (f x)) → l !! i = Some x → omap f l !! i = f x.
Proof.
  revert i. induction l as [|y l IH]; intros i Hall; [done|].
  destruct (Hall y) as [z Hz]; [by apply elem_of_cons; left|].
  csimpl. rewrite Hz. destruct i as [|i]; simpl.
  - by intros [= <-].
  - apply IH. intros x' Hx'. apply Hall. by apply elem_of_cons; right.
Qed.

(** The field of a row under the [i]-th name of the fixed list is the value
    of its [i]-th data cell. *)
Lemma row_stat_get data_type row i name col :
  (∀ col, col ∈ find_all "td" row →
     is_Some (dict_get data_type (tag_attrs col))) →
  dict_keys STATS_NAME !! i = Some name →
  find_all "td" row !! i = Some col →
  dict_get name (row_stat data_type row)
  = VStr <$> dict_get data_type (tag_attrs col).
Proof.
  intros Hcols Hname Hcol.
  destruct (Hcols col) as [stat Hstat]; [by eapply list_elem_of_lookup_2|].
  rewrite Hstat. simpl.
  destruct (row_stat_zip _ _ Hcols) as [Hzip Hnodup].
  apply dict_get_NoDup; [done|]. rewrite Hzip.
  apply (list_elem_of_lookup_2 _ i). rewrite lookup_zip_with, Hname. simpl.
  by rewrite (omap_lookup_all _ _ _ _ Hcols Hcol), Hstat.
Qed.

(** C9, as amended.  A stat page whose table body is found and whose rows
    each name a player in the header cell and carry, in each data cell,
    both the cumulative and the average value: [parse_webpage] returns a
    per-page map in which the player of every row has exactly the two
    entries "累計數據" and "平均數據", read off the last row [last] that names
    the player (the row itself when no other row names the player).  The
    two entries have the same field names: the first names of the fixed
    ordered list, as many as [last] has data cells; and under the [i]-th
    name the first holds the "data-total" value and the second the
    "data-avg" value of the [i]-th data cell of [last]. *)
Theorem parse_webpage_modes (url season season_type : string) (w w1 : world)
    (soup tbody : node) :
  get_soup url default_retries w = (Return soup, w1) →
  find "tbody" soup = Some tbody →
  (∀ row, row ∈ find_all "tr" tbody → row_ok row) →
  ∃ database,
    parse_webpage (VStr url) season season_type w
    = (Return (VDict database, season, season_type), w1)
    ∧ ∀ row player_name,
        row ∈ find_all "tr" tbody → player_name_of row = Return player_name →
        ∃ last total avg,
          last_named player_name (find_all "tr" tbody) = Some last
          ∧ last ∈ find_all "tr" tbody
          ∧ player_name_of last = Return player_name
          ∧ ((∀ other, other ∈ find_all "tr" tbody →
                player_name_of other = Return player_name → other = row) →
             last = row)
          ∧ dict_get player_name database
            = Some (VDict [("累計數據", VDict total); ("平均數據", VDict avg)])
          ∧ dict_keys total
            = take (length (find_all "td" last)) (dict_keys STATS_NAME)
          ∧ dict_keys avg = dict_keys total
          ∧ ∀ i name col,
              dict_keys STATS_NAME !! i = Some name →
              find_all "td" last !! i = Some col →
              dict_get name total
              = VStr <$> dict_get "data-total" (tag_attrs col)
              ∧ dict_get name avg
                = VStr <$> dict_get "data-avg" (tag_attrs col).
Proof.
  intros Hget Htbody Hrows.
  set (rows := find_all "tr" tbody) in *.
  assert (Hmode : ∀ mode, mode ∈ PER_MODE → ∀ row, row ∈ rows →
            (∃ player_name, player_name_of row = Return player_name)
            ∧ ∀ col, col ∈ find_all "td" row →
                is_Some (dict_get mode.2 (tag_attrs col))).
  { intros mode Hin row Hrow. destruct (Hrows row Hrow) as [Hname Hcols].
    split; [done|]. intros col Hcol. by apply Hcols. }
  assert (Htotal : ∀ row, row ∈ rows → ∀ col, col ∈ find_all "td" row →
            is_Some (dict_get "data-total" (tag_attrs col))).
  { intros row Hrow.
    apply (Hmode ("累計數據", "data-total")); [|done]. apply elem_of_cons; auto. }
  assert (Havg : ∀ row, row ∈ rows → ∀ col, col ∈ find_all "td" row →
            is_Some (dict_get "data-avg" (tag_attrs col))).
  { intros row Hrow.
    apply (Hmode ("平均數據", "data-avg")); [|done].
    apply elem_of_cons; right. apply elem_of_cons; auto. }
  destruct (add_rows_run "累計數據" "data-total" rows [])
    as (database1 & Hpass1 & Hdicts1 & Hget1).
  { apply (Hmode ("累計數據", "data-total")). apply elem_of_cons; auto. }
  { by intros k v. }
  destruct (add_rows_run "平均數據" "data-avg" rows database1)
    as (database2 & Hpass2 & Hdicts2 & Hget2).
  { apply (Hmode ("平均數據", "data-avg")).
    apply elem_of_cons; right. apply elem_of_cons; auto. }
  { done. }
  exists database2. split.
  - unfold parse_webpage. rewrite bind_run, Hget, Htbody, bind_run.
    unfold lift, PER_MODE. cbn [for_each add_mode fst snd]. fold rows.
    rewrite result_bind_run, Hpass1, result_bind_run, Hpass2. done.
  - intros row player_name Hrow Hname.
    destruct (last_named_is_Some _ _ _ Hrow Hname) as [last Hlast].
    destruct (last_named_elem _ _ _ Hlast) as [Hin Hlast_name].
    exists last, (row_stat "data-total" last), (row_stat "data-avg" last).
    split_and!; [done|done|done| | | | |].
    + intros Honly. by apply Honly.
    + rewrite Hget2, Hlast. unfold entry_of. by rewrite Hget1, Hlast.
    + apply row_stat_keys. by apply Htotal.
    + rewrite !row_stat_keys; [done| |]; [by apply Htotal|by apply Havg].
    + intros i name col Hi Hcol. split.
      * apply (row_stat_get _ _ i); [by apply Htotal|done|done].
      * apply (row_stat_get _ _ i); [by apply Havg|done|done].
Qed.

(** C5.  What the table extraction raises.  A page without a table body
    makes [parse_webpage] raise [AttributeError] (an attribute read on
    [None]), not [ElementNotFoundError]; a first row that names its player
    and has a data cell without the "data-total" attribute makes it raise
    [KeyError], not [MissingAttributeError]. *)
Theorem table_extraction_errors (url season season_type : string)
    (w w1 : world) (soup : node) :
  get_soup url default_retries w = (Return soup, w1) →
  (find "tbody" soup = None →
   parse_webpage (VStr url) season season_type w
   = (Raise (AttributeError "find_all"), w1))
  ∧ (∀ tbody row rows player_name col,
       find "tbody" soup = Some tbody →
       find_all "tr" tbody = row :: rows →
       player_name_of row = Return player_name →
       col ∈ find_all "td" row →
       dict_get "data-total" (tag_attrs col) = None →
       parse_webpage (VStr url) season season_type w
       = (Raise (KeyError "data-total"), w1)).
Proof.
  intros Hget. split.
  - intros Htbody. unfold parse_webpage. by rewrite bind_run, Hget, Htbody.
  - intros tbody row rows player_name col Htbody Hrows Hname Hcol Hnone.
    unfold parse_webpage. rewrite bind_run, Hget, Htbody, bind_run.
    unfold lift, PER_MODE. cbn [for_each add_mode fst snd]. rewrite Hrows.
    cbn [for_each].
    by rewrite (add_row_missing _ _ _ _ _ col Hname Hcol Hnone).
Qed.

(** ** The table extraction: the whole table or nothing *)

Lemma mapM_tag_getitem_returns data_type (columns : list node) player_data :
  mapM (λ col, tag_getitem col data_type) columns = Return player_data →
  ∀ col, col ∈ columns → is_Some (dict_get data_type (tag_attrs col)).
Proof.
  intros Hreturn col Hcol.
  destruct (dict_get data_type (tag_attrs col)) as [v|] eqn:Hv; [eauto|].
  by rewrite (mapM_tag_getitem_missing _ _ col Hcol Hv) in Hreturn.
Qed.

Lemma add_row_returns data_type_name data_type row database database' :
  add_row data_type_name data_type row database = Return database' →
  (∃ player_name, player_name_of row = Return player_name)
  ∧ ∀ col, col ∈ find_all "td" row →
      is_Some (dict_get data_type (tag_attrs col)).
Proof.
  unfold add_row. rewrite result_bind_run.
  destruct (player_name_of row) as [player_name|exc]; [|done].
  rewrite result_bind_run.
  destruct (mapM _ (find_all "td" row)) as [player_data|exc] eqn:Hcols; [|done].
  intros _. split; [eauto|]. by eapply mapM_tag_getitem_returns.
Qed.

Lemma add_rows_returns data_type_name data_type rows database database' :
  for_each rows (add_row data_type_name data_type) database = Return database' →
  ∀ row, row ∈ rows →
    (∃ player_name, player_name_of row = Return player_name)
    ∧ ∀ col, col ∈ find_all "td" row →
        is_Some (dict_get data_type (tag_attrs col)).
Proof.
  revert database. induction rows as [|r rows IH]; intros database.
  - by intros _ row ?%elem_of_nil.
  - simpl. rewrite result_bind_run.
    destruct (add_row data_type_name data_type r database) as [database1|exc]
      eqn:Hrow; [|done].
    intros Hrest row [->|Hin]%elem_of_cons.
    + by eapply add_row_returns.
    + by eapply IH.
Qed.

(** X17.  [parse_webpage] returns the whole table or nothing.  When it returns,
    the page was fetched, its table body was found and every row of it
    could be extracted, in both modes: a single row without a player link,
    or with a cell that lacks one of the two attributes, leaves no partial
    table behind. *)
Theorem parse_webpage_returns_whole_table (url season season_type : string)
    (w w1 : world) (result : value * string * string) :
  parse_webpage (VStr url) season season_type w = (Return result, w1) →
  ∃ soup tbody,
    get_soup url default_retries w = (Return soup, w1)
    ∧ find "tbody" soup = Some tbody
    ∧ ∀ row, row ∈ find_all "tr" tbody → row_ok row.
Proof.
  unfold parse_webpage. rewrite bind_run.
  destruct (get_soup url default_retries w) as [[soup|exc] w0]; [|done].
  rewrite bind_run. unfold lift, PER_MODE. cbn [for_each fst snd].
  destruct (find "tbody" soup) as [tbody|] eqn:Htbody; [|done].
  cbn [add_mode fst snd]. rewrite result_bind_run.
  destruct (for_each (find_all "tr" tbody) (add_row "累計數據" "data-total") [])
    as [database1|exc] eqn:Hpass1; [|done].
  rewrite result_bind_run.
  destruct (for_each (find_all "tr" tbody) (add_row "平均數據" "data-avg")
              database1) as [database2|exc] eqn:Hpass2; [|done].
  intros [= _ <-]. exists soup, tbody. split_and!; [done|done|].
  intros row Hrow.
  destruct (add_rows_returns _ _ _ _ _ Hpass1 row Hrow) as [Hname Htotal].
  destruct (add_rows_returns _ _ _ _ _ Hpass2 row Hrow) as [_ Havg].
  split; [done|]. intros col mode Hcol Hmode. unfold PER_MODE in Hmode.
  apply elem_of_cons in Hmode as [->|Hmode]; [by apply Htotal|].
  apply elem_of_cons in Hmode as [->|Hmode]; [by apply Havg|].
  by apply elem_of_nil in Hmode.
Qed.

(** X18.  The table [parse_webpage] returns, entry by entry.  A player named by
    no row has no entry.  A player named by a row has exactly the two
    entries "累計數據" and "平均數據", in this order, and both are read off
    the last of the rows that name the player: when a player is listed
    twice, the later row replaces the earlier one. *)
Theorem parse_webpage_table (url season season_type : string) (w w1 : world)
    (soup tbody : node) :
  get_soup url default_retries w = (Return soup, w1) →
  find "tbody" soup = Some tbody →
  (∀ row, row ∈ find_all "tr" tbody → row_ok row) →
  ∃ database,
    parse_webpage (VStr url) season season_type w
    = (Return (VDict database, season, season_type), w1)
    ∧ ∀ player_name,
        dict_get player_name database
        = match last_named player_name (find_all "tr" tbody) with
          | Some row =>
              Some (VDict [("累計數據", VDict (row_stat "data-total" row));
                           ("平均數據", VDict (row_stat "data-avg" row))])
          | None => None
          end.
Proof.
  intros Hget Htbody Hrows.
  set (rows := find_all "tr" tbody) in *.
  assert (Hmode : ∀ mode, mode ∈ PER_MODE → ∀ row, row ∈ rows →
            (∃ player_name, player_name_of row = Return player_name)
            ∧ ∀ col, col ∈ find_all "td" row →
                is_Some (dict_get mode.2 (tag_attrs col))).
  { intros mode Hin row Hrow. destruct (Hrows row Hrow) as [Hname Hcols].
    split; [done|]. intros col Hcol. by apply Hcols. }
  destruct (add_rows_run "累計數據" "data-total" rows [])
    as (database1 & Hpass1 & Hdicts1 & Hget1).
  { apply (Hmode ("累計數據", "data-total")). apply elem_of_cons; auto. }
  { by intros k v. }
  destruct (add_rows_run "平均數據" "data-avg" rows database1)
    as (database2 & Hpass2 & Hdicts2 & Hget2).
  { apply (Hmode ("平均數據", "data-avg")).
    apply elem_of_cons; right. apply elem_of_cons; auto. }
  { done. }
  exists database2. split.
  - unfold parse_webpage. rewrite bind_run, Hget, Htbody, bind_run.
    unfold lift, PER_MODE. cbn [for_each add_mode fst snd]. fold rows.
    rewrite result_bind_run, Hpass1, result_bind_run, Hpass2. done.
  - intros player_name. rewrite Hget2. unfold entry_of. rewrite Hget1.
    by destruct (last_named player_name rows).
Qed.

End properties.

(** * The properties on the scenarios *)

Section scenarios.
Import Scenario.

(** A text without a carriage return, read in chunks of every size. *)
Lemma load_from_file_chunked_witness :
  (∀ chunk_size, (1 ≤ chunk_size ≤ sys_maxsize)%Z →
     load_from_file "/srv/crawler/src/url.json" chunk_size corrupt_config
     = read_whole_file "/srv/crawler/src/url.json" corrupt_config)
  ∧ read_whole_file "/srv/crawler/src/url.json" corrupt_config
    = (Return (universal_newlines "{ 2023-24: "), corrupt_config)
  ∧ (CR ∉ String.list_ascii_of_string "{ 2023-24: " →
     universal_newlines "{ 2023-24: " = "{ 2023-24: ")
  ∧ (∀ chunk_size, (sys_maxsize < chunk_size)%Z →
       load_from_file "/srv/crawler/src/url.json" chunk_size corrupt_config
       = (Raise OverflowError, corrupt_config))
  ∧ load_from_file "/srv/crawler/src/url.json" 0 corrupt_config
    = (Return "", corrupt_config).
Proof.
  apply (load_from_file_chunked "/srv/crawler/src/url.json" "{ 2023-24: "
           corrupt_config).
  vm_compute. reflexivity.
Defined.

(** A chunk size of 2 ^ 63 is refused by the first read; and a file with a
    carriage return and a line feed is returned with the line feed only:
    the text returned is not the contents for every contents and every
    chunk size of at least 1. *)
Lemma load_from_file_chunk_size_matters :
  load_from_file "/srv/crawler/src/url.json" (2 ^ 63) corrupt_config
  = (Raise OverflowError, corrupt_config)
  ∧ load_from_file "/srv/crawler/src/url.json" 1 crlf_config
    = (Return (String "{" (String LF "}")), crlf_config)
  ∧ ¬ ∀ (filename s : string) (w : world) (chunk_size : Z),
        fs w !! filename = Some s → (1 ≤ chunk_size)%Z →
        load_from_file filename chunk_size w = (Return s, w).
Proof.
  assert (Hoverflow :
    load_from_file "/srv/crawler/src/url.json" (2 ^ 63) corrupt_config
    = (Raise OverflowError, corrupt_config)).
  { apply (load_from_file_overflow _ _ "{ 2023-24: ").
    - vm_compute. reflexivity.
    - right. unfold sys_maxsize. lia. }
  split_and!.
  - exact Hoverflow.
  - rewrite (load_from_file_read _ _ (String "{" (String CR (String LF "}")))).
    + reflexivity.
    + vm_compute. reflexivity.
    + unfold sys_maxsize. lia.
    + lia.
  - intros Hclaim.
    specialize (Hclaim "/srv/crawler/src/url.json" "{ 2023-24: " corrupt_config
                  (2 ^ 63)%Z).
    rewrite Hoverflow in Hclaim.
    assert (Hno : (Raise OverflowError, corrupt_config)
                  = (@Return string "{ 2023-24: ", corrupt_config)).
    { apply Hclaim; [vm_compute; reflexivity|lia]. }
    discriminate Hno.
Qed.

(** Two timeouts and then an answer: the answer is dropped. *)
Lemma get_soup_budget_2_witness :
  @get_soup (collaborators flaky) URL 2 fresh
  = (Raise (TimeoutException URL),
     World ∅ [URL; URL; URL] [timeout_line URL]).
Proof.
  apply (@get_soup_budget_2 (collaborators flaky) URL fresh).
  - reflexivity.
  - reflexivity.
  - right. exists {| status_code := 200; text := "landing" |}.
    split; reflexivity.
Defined.

(** Timeouts only: the timeout is raised after three requests. *)
Lemma get_soup_dead :
  @get_soup (collaborators dead) URL 2 fresh
  = (Raise (TimeoutException URL),
     World ∅ [URL; URL; URL] [timeout_line URL]).
Proof. vm_compute. reflexivity. Qed.

(** One timeout and then an answer: the answer is dropped as well. *)
Lemma get_soup_one_timeout :
  @get_soup (collaborators (λ n url, if (n <? 1)%nat then TimesOut else site n url))
    URL 2 fresh
  = (Raise (TimeoutException URL), World ∅ [URL; URL] [timeout_line URL]).
Proof. vm_compute. reflexivity. Qed.

Lemma is_valid_config_2023_24 :
  @is_valid_config (collaborators site) site_config = Return ().
Proof. vm_compute. reflexivity. Qed.

Lemma is_valid_config_2023_25 :
  @is_valid_config (collaborators site)
    (VDict [("2023-25", VDict [("例行賽", VStr "")])])
  = Raise ValueError.
Proof. vm_compute. reflexivity. Qed.

Lemma is_valid_config_not_mapping :
  @is_valid_config (collaborators site) (VDict [("2023-24", VStr "")])
  = Raise ValueError.
Proof. vm_compute. reflexivity. Qed.

Lemma is_valid_config_other_type :
  @is_valid_config (collaborators site)
    (VDict [("2023-24", VDict [("熱身賽", VStr "")])])
  = Raise ValueError.
Proof. vm_compute. reflexivity. Qed.

(** A season page is extractable when its options are listed and each
    carries a [value]. *)
Lemma season_page_ok_intro soup :
  options_of "stage_sn" soup ≠ [] →
  Forall (λ option, is_Some (dict_get "value" (tag_attrs option)))
    (options_of "stage_sn" soup) →
  season_page_ok soup.
Proof. intros Hoptions Hall. split; [done|]. by apply Forall_forall. Qed.

Lemma site_answers :
  @answered (collaborators site) 0 [URL; season_url "2023-24"]
    [{| status_code := 200; text := "landing" |};
     {| status_code := 200; text := "season" |}].
Proof. vm_compute. tauto. Qed.

Lemma site_season_pages :
  Forall (λ response, season_page_ok (parse (text response)))
    [{| status_code := 200; text := "season" |}].
Proof.
  apply Forall_cons. split; [|by apply Forall_nil].
  apply season_page_ok_intro.
  - vm_compute. discriminate.
  - vm_compute. apply Forall_cons. split; [|by apply Forall_nil].
    eexists. reflexivity.
Qed.

(** The scenario of the site: for every schedule, the config of the one
    season with its one season type. *)
Lemma load_config_from_web_site sched :
  @load_config_from_web (collaborators site) sched fresh
  = (Return site_config, World ∅ [URL; season_url "2023-24"] []).
Proof.
  destruct (@load_config_from_web_run (collaborators site) sched fresh
              {| status_code := 200; text := "landing" |} ["2023-24"]
              [{| status_code := 200; text := "season" |}])
    as (completed & Hperm & ->).
  - apply site_answers.
  - vm_compute. reflexivity.
  - discriminate.
  - apply NoDup_singleton.
  - apply site_season_pages.
  - apply Permutation_singleton_r in Hperm as ->. vm_compute. reflexivity.
Qed.

Lemma load_config_from_web_resolves_witness :
  ∃ config,
    @load_config_from_web (collaborators site) [] fresh
    = (Return (VDict config), World ∅ [URL; season_url "2023-24"] [])
    ∧ length config = 1
    ∧ dict_keys config ≡ₚ ["2023-24"]
    ∧ ∀ i season response,
        ["2023-24"] !! i = Some season →
        [{| status_code := 200; text := "season" |}] !! i = Some response →
        ∃ season_config,
          dict_get season config = Some (VDict season_config)
          ∧ season_config
            = season_entries season (options_of "stage_sn" (parse (text response)))
          ∧ built_from season (options_of "stage_sn" (parse (text response)))
              season_config.
Proof.
  apply (@load_config_from_web_resolves (collaborators site) [] fresh
           {| status_code := 200; text := "landing" |} ["2023-24"]
           [{| status_code := 200; text := "season" |}]).
  - apply site_answers.
  - vm_compute. reflexivity.
  - discriminate.
  - apply NoDup_singleton.
  - apply site_season_pages.
Defined.

(** Two seasons merged in both orders, and two season types stored in both
    orders. *)
Lemma merge_order_independent_witness :
  (∃ config',
     wait_loop [Return (season_page_later, "2024-25");
                Return (season_page, "2023-24")] merge_season [] fresh
     = (Return config', fresh)
     ∧ same_mapping
         [("2023-24", VDict [("例行賽", VStr (record_url "2023-24" "001"))]);
          ("2024-25", VDict [("例行賽", VStr (record_url "2024-25" "002"))])]
         config')
  ∧ (∃ database',
       wait_loop [Return (VDict [], "2023-24", "季後賽");
                  Return (VDict [], "2023-24", "例行賽")] store_page
         [("2023-24", VDict [])] fresh
       = (Return database', fresh)
       ∧ same_mapping2
           [("2023-24", VDict [("例行賽", VDict []); ("季後賽", VDict [])])]
           database').
Proof.
  split.
  - apply (proj1 merge_order_independent
             [Return (season_page, "2023-24");
              Return (season_page_later, "2024-25")]
             [Return (season_page, "2023-24");
              Return (season_page_later, "2024-25")]
             [Return (season_page_later, "2024-25");
              Return (season_page, "2023-24")]
             _ fresh fresh).
    + apply (bool_decide_unpack _). vm_compute. reflexivity.
    + reflexivity.
    + apply perm_swap.
    + vm_compute. reflexivity.
  - apply (proj2 merge_order_independent
             [Return (VDict [], "2023-24", "例行賽");
              Return (VDict [], "2023-24", "季後賽")]
             [Return (VDict [], "2023-24", "例行賽");
              Return (VDict [], "2023-24", "季後賽")]
             [Return (VDict [], "2023-24", "季後賽");
              Return (VDict [], "2023-24", "例行賽")]
             [("2023-24", VDict [])] _ fresh fresh).
    + apply (bool_decide_unpack _). vm_compute. reflexivity.
    + reflexivity.
    + apply perm_swap.
    + vm_compute. reflexivity.
Defined.

(** Two tasks of one season whose pages differ: the order of completion
    decides which page the config keeps. *)
Lemma merge_order_matters :
  ¬ ∀ (tasks done done' : list (task (node * string))) (config config' : dict)
      (w w' : world),
      done ≡ₚ tasks → done' ≡ₚ tasks →
      wait_loop done merge_season [] w = (Return config, w') →
      wait_loop done' merge_season [] w = (Return config', w') →
      same_mapping config config'.
Proof.
  intros Hclaim.
  specialize (Hclaim
    [Return (season_page, "2023-24"); Return (season_page_later, "2023-24")]
    [Return (season_page, "2023-24"); Return (season_page_later, "2023-24")]
    [Return (season_page_later, "2023-24"); Return (season_page, "2023-24")]
    [("2023-24", VDict [("例行賽", VStr (record_url "2023-24" "002"))])]
    [("2023-24", VDict [("例行賽", VStr (record_url "2023-24" "001"))])]
    fresh fresh).
  specialize (Hclaim (reflexivity _) (perm_swap _ _ _) eq_refl eq_refl "2023-24").
  vm_compute in Hclaim. discriminate Hclaim.
Qed.

(** The same on a run of the config phase: the landing page lists the
    season twice and the season page changes between the two requests. *)
Lemma load_config_from_web_order_matters :
  (@load_config_from_web (collaborators relisting) [0] fresh).1
  = Return (VDict [("2023-24",
                    VDict [("例行賽", VStr (record_url "2023-24" "002"))])])
  ∧ (@load_config_from_web (collaborators relisting) [1] fresh).1
    = Return (VDict [("2023-24",
                      VDict [("例行賽", VStr (record_url "2023-24" "001"))])]).
Proof. split; vm_compute; reflexivity. Qed.

(** The season pages are down: the config gate raises and writes nothing.
    The stat pages are down: the data gate raises and leaves the data cache
    absent; the config, resolved before, is cached. *)
Lemma failed_phase_writes_nothing_witness :
  (∃ exc w', @load_config (collaborators seasons_down) [] fresh = (Raise exc, w'))
  ∧ fs (@load_config (collaborators seasons_down) [] fresh).2 = fs fresh
  ∧ (∃ exc w',
       @load_data (collaborators stats_down) [] [] fresh = (Raise exc, w'))
  ∧ fs (@load_data (collaborators stats_down) [] [] fresh).2
      !! @DATA_FILENAME (collaborators stats_down)
    = fs fresh !! @DATA_FILENAME (collaborators stats_down).
Proof.
  destruct (@failed_phase_writes_nothing (collaborators seasons_down))
    as (Hconfig & Hconfig_fs & _ & _).
  destruct (@failed_phase_writes_nothing (collaborators stats_down))
    as (_ & _ & Hdata & Hdata_fs).
  split_and!.
  - apply (Hconfig [] fresh
             (FileNotFoundError "/srv/crawler/src/url.json") landing_page
             (World ∅ [URL] [])
             (Raise (RequestError (season_url "2023-24")))).
    + vm_compute. reflexivity.
    + reflexivity.
    + vm_compute. reflexivity.
    + apply list_elem_of_In. vm_compute. left. reflexivity.
    + exact I.
  - apply (Hconfig_fs []
             fresh (RequestError (season_url "2023-24"))).
    vm_compute. reflexivity.
  - apply (Hdata [] [] fresh
             (FileNotFoundError "/srv/crawler/src/output.json") site_config
             (World {[ "/srv/crawler/src/url.json" := config_text ]}
                [URL; season_url "2023-24"]
                [miss_line "/srv/crawler/src/url.json"])
             ([("2023-24", VDict [])],
              [Raise (RequestError (record_url "2023-24" "001"))])
             (World {[ "/srv/crawler/src/url.json" := config_text ]}
                [URL; season_url "2023-24"; record_url "2023-24" "001"]
                [miss_line "/srv/crawler/src/url.json";
                 request_line (record_url "2023-24" "001")])
             (Raise (RequestError (record_url "2023-24" "001")))).
    + vm_compute. reflexivity.
    + reflexivity.
    + vm_compute. reflexivity.
    + vm_compute. reflexivity.
    + apply list_elem_of_In. left. reflexivity.
    + exact I.
  - apply (Hdata_fs [] [] fresh (RequestError (record_url "2023-24" "001"))).
    vm_compute. reflexivity.
Defined.


(** The config and the dataset of the site, resolved, persisted, read back
    in chunks of 3 characters and parsed. *)
Lemma cache_round_trip_witness :
  (contents ← load_from_file (@CONFIG_FILENAME (collaborators site)) 3;
   @loads (collaborators site) contents)
    (@load_config (collaborators site) [] fresh).2
  = (Return site_config, (@load_config (collaborators site) [] fresh).2)
  ∧ (contents ← load_from_file (@DATA_FILENAME (collaborators site)) 3;
     @loads (collaborators site) contents)
      (@load_data (collaborators site) [] [] fresh).2
    = (Return site_data, (@load_data (collaborators site) [] [] fresh).2).
Proof.
  destruct (@cache_round_trip (collaborators site)) as [Hconfig Hdata].
  split.
  - apply (Hconfig [] fresh).
    + vm_compute. reflexivity.
    + vm_compute. reflexivity.
    + unfold sys_maxsize. lia.
  - apply (Hdata [] [] fresh).
    + vm_compute. reflexivity.
    + vm_compute. reflexivity.
    + unfold sys_maxsize. lia.
Defined.

(** A row can be extracted when its header names a player and each of its
    cells carries both attributes. *)
Lemma row_ok_intro `{Collaborators} row :
  (∃ player_name, player_name_of row = Return player_name) →
  Forall (λ col, is_Some (dict_get "data-total" (tag_attrs col))
                 ∧ is_Some (dict_get "data-avg" (tag_attrs col)))
    (find_all "td" row) →
  row_ok row.
Proof.
  intros Hname Hcols. split; [done|]. intros col mode Hcol Hmode.
  rewrite Forall_forall in Hcols. destruct (Hcols col Hcol) as [Htotal Havg].
  unfold PER_MODE in Hmode.
  apply elem_of_cons in Hmode as [->|Hmode]; [done|].
  apply elem_of_cons in Hmode as [->|Hmode]; [done|].
  by apply elem_of_nil in Hmode.
Qed.

(** The stat page of the site: the one player has the two entries, with
    the names of the first four fields and the values of the four cells. *)
Lemma parse_webpage_modes_witness :
  ∃ database total avg,
    @parse_webpage (collaborators site) (VStr (record_url "2023-24" "001"))
      "2023-24" "例行賽" fresh
    = (Return (VDict database, "2023-24", "例行賽"),
       World ∅ [record_url "2023-24" "001"] [])
    ∧ dict_get "王柏融" database
      = Some (VDict [("累計數據", VDict total); ("平均數據", VDict avg)])
    ∧ dict_keys total = ["背號"; "球隊"; "出賽次數"; "時間 (分)"]
    ∧ dict_keys avg = dict_keys total
    ∧ dict_get "時間 (分)" total = Some (VStr "900")
    ∧ dict_get "時間 (分)" avg = Some (VStr "30.0").
Proof.
  set (row := Tag "tr" []
                [Tag "th" [] [Tag "a" [("href", "/player/1")]
                                [NavigableString " 王柏融 "]];
                 stat_cell "9" "9"; stat_cell "富邦勇士" "富邦勇士";
                 stat_cell "30" "30"; stat_cell "900" "30.0"]).
  destruct (@parse_webpage_modes (collaborators site)
              (record_url "2023-24" "001") "2023-24" "例行賽" fresh
              (World ∅ [record_url "2023-24" "001"] []) stat_page
              (Tag "tbody" [] [row]))
    as (database & Hrun & Hrows).
  - vm_compute. reflexivity.
  - vm_compute. reflexivity.
  - intros r Hr. apply list_elem_of_In in Hr. vm_compute in Hr.
    destruct Hr as [<-|[]]. apply row_ok_intro.
    + eexists. vm_compute. reflexivity.
    + vm_compute. repeat (apply Forall_cons; split; [split; eexists; reflexivity|]).
      by apply Forall_nil.
  - destruct (Hrows row "王柏融")
      as (last & total & avg & Hlast & _ & _ & _ & Hentry & Hkeys & Hsame
          & Hvalues).
    + apply list_elem_of_In. vm_compute. left. reflexivity.
    + vm_compute. reflexivity.
    + vm_compute in Hlast. injection Hlast as <-.
      exists database, total, avg.
      destruct (Hvalues 3 "時間 (分)" (stat_cell "900" "30.0") eq_refl eq_refl)
        as [Htotal Havg].
      split_and!; [exact Hrun|exact Hentry|exact Hkeys|exact Hsame
                  |exact Htotal|exact Havg].
Defined.

(** A stat page with the row of a player, which can be extracted, and a
    row that names no player: no map is extracted at all. *)
Lemma parse_webpage_row_spoils_page :
  ∃ tbody row,
    @get_soup (collaborators_more stats_mixed) (record_url "2023-24" "001")
      default_retries fresh
    = (Return mixed_page, World ∅ [record_url "2023-24" "001"] [])
    ∧ find "tbody" mixed_page = Some tbody
    ∧ row ∈ find_all "tr" tbody
    ∧ @row_ok (collaborators_more stats_mixed) row
    ∧ @player_name_of (collaborators_more stats_mixed) row = Return "王柏融"
    ∧ @parse_webpage (collaborators_more stats_mixed)
        (VStr (record_url "2023-24" "001")) "2023-24" "例行賽" fresh
      = (Raise (AttributeError "text"),
         World ∅ [record_url "2023-24" "001"] []).
Proof.
  set (row := Tag "tr" []
                [Tag "th" [] [Tag "a" [("href", "/player/1")]
                                [NavigableString " 王柏融 "]];
                 stat_cell "9" "9"; stat_cell "富邦勇士" "富邦勇士"]).
  exists (Tag "tbody" [] [row; Tag "tr" [] [Tag "th" [] [NavigableString "球員"]]]),
    row.
  split_and!.
  - vm_compute. reflexivity.
  - vm_compute. reflexivity.
  - apply list_elem_of_In. vm_compute. left. reflexivity.
  - apply row_ok_intro.
    + eexists. vm_compute. reflexivity.
    + vm_compute. repeat (apply Forall_cons; split; [split; eexists; reflexivity|]).
      by apply Forall_nil.
  - vm_compute. reflexivity.
  - vm_compute. reflexivity.
Qed.

(** A stat page without a table body, and one whose cell lacks
    "data-total". *)
Lemma table_extraction_errors_witness :
  @parse_webpage (collaborators stats_torn) (VStr (record_url "2023-24" "002"))
    "2023-24" "季後賽" fresh
  = (Raise (AttributeError "find_all"), World ∅ [record_url "2023-24" "002"] [])
  ∧ @parse_webpage (collaborators stats_torn)
      (VStr (record_url "2023-24" "001")) "2023-24" "例行賽" fresh
    = (Raise (KeyError "data-total"), World ∅ [record_url "2023-24" "001"] []).
Proof.
  split.
  - apply (@table_extraction_errors (collaborators stats_torn)
             (record_url "2023-24" "002") "2023-24" "季後賽" fresh
             (World ∅ [record_url "2023-24" "002"] []) bare_page).
    + vm_compute. reflexivity.
    + vm_compute. reflexivity.
  - eapply (proj2 (@table_extraction_errors (collaborators stats_torn)
                     (record_url "2023-24" "001") "2023-24" "例行賽" fresh
                     (World ∅ [record_url "2023-24" "001"] []) torn_page _)).
    + vm_compute. reflexivity.
    + vm_compute. reflexivity.
    + vm_compute. reflexivity.
    + apply list_elem_of_In. vm_compute. left. reflexivity.
    + vm_compute. reflexivity.
    Unshelve. vm_compute. reflexivity.
Defined.

End scenarios.

(** * More runs on the scenarios *)

Section more_scenarios.
Import Scenario.



Lemma get_soup_returns_first_answer_witness :
  @get_soup (collaborators site) URL 2 fresh
  = (Return landing_page, World ∅ [URL] []).
Proof.
  apply (proj2 (@get_soup_returns_first_answer (collaborators site) URL 2 fresh
                  (World ∅ [URL] []) landing_page)).
  exists {| status_code := 200; text := "landing" |}.
  repeat split; reflexivity.
Defined.

(** Two seasons, the task of the second completing first: the config lists
    the second season first. *)
Lemma load_config_from_web_completion_order_witness :
  ∃ config,
    @load_config_from_web (collaborators_more two_seasons) [1] fresh
    = (Return (VDict config),
       World ∅ [URL; season_url "2023-24"; season_url "2022-23"] [])
    ∧ config
      = config_entry
          <$> as_completed [1]
                (@season_results (collaborators_more two_seasons)
                   ["2023-24"; "2022-23"]
                   [{| status_code := 200; text := "season" |};
                    {| status_code := 200; text := "season later" |}])
    ∧ dict_keys config = ["2022-23"; "2023-24"].
Proof.
  apply (@load_config_from_web_completion_order (collaborators_more two_seasons)
           [1] fresh {| status_code := 200; text := "landing two" |}
           ["2023-24"; "2022-23"]
           [{| status_code := 200; text := "season" |};
            {| status_code := 200; text := "season later" |}]).
  - vm_compute. tauto.
  - vm_compute. reflexivity.
  - discriminate.
  - apply (bool_decide_unpack _). vm_compute. reflexivity.
  - repeat (apply Forall_cons; split;
            [apply season_page_ok_intro;
             [vm_compute; discriminate
             |vm_compute; apply Forall_cons; split;
              [eexists; reflexivity|by apply Forall_nil]]|]).
    by apply Forall_nil.
Defined.

(** The landing URL answers with a page that has no season list. *)
Lemma load_config_from_web_landing_errors_witness :
  @load_config_from_web (collaborators misrouted) [] fresh
  = (Raise (ElementNotFoundError "id='season_name'"), World ∅ [URL] []).
Proof.
  destruct (@load_config_from_web_landing_errors (collaborators misrouted) []
              fresh {| status_code := 200; text := "season" |})
    as [Hnone _].
  - reflexivity.
  - reflexivity.
  - apply Hnone. vm_compute. reflexivity.
Defined.

(** The landing page lists a season with a line break in its text: the
    client refuses the URL of the season, and this is what is raised. *)
Lemma load_config_from_web_raises_witness :
  (@get_soup (collaborators_more unstripped) URL default_retries fresh).1
  = Raise (InvalidURL (season_url ("2023-24" +:+ newline)))
  ∨ (∃ landing w1 season w0,
       @get_soup (collaborators_more unstripped) URL default_retries fresh
       = (Return landing, w1)
       ∧ season ∈ get_text <$> options_of "season_name" landing
       ∧ (@get_soup (collaborators_more unstripped) (season_url season)
            default_retries w0).1
         = Raise (InvalidURL (season_url ("2023-24" +:+ newline))))
  ∨ extraction_error (InvalidURL (season_url ("2023-24" +:+ newline))) = true.
Proof.
  apply (@load_config_from_web_raises (collaborators_more unstripped) [] fresh
           (@load_config_from_web (collaborators_more unstripped) [] fresh).2).
  vm_compute. reflexivity.
Defined.

(** A page without the stage list, one whose stage list is empty, one whose
    stage has no value. *)
Lemma merge_season_errors_witness :
  merge_season (bare_page, "2023-24") []
  = Raise (ElementNotFoundError "id='stage_sn'")
  ∧ merge_season
      (Tag "[document]" [] [Tag "select" [("id", "stage_sn")] []], "2023-24") []
    = Raise (ElementNotFoundError "option")
  ∧ merge_season
      (Tag "[document]" []
         [Tag "select" [("id", "stage_sn")] [option_tag [] "例行賽"]],
       "2023-24") []
    = Raise (MissingAttributeError "option" "value").
Proof.
  split_and!.
  - apply merge_season_errors. vm_compute. reflexivity.
  - eapply (proj1 (proj2 (merge_season_errors _ _ _))).
    + vm_compute. reflexivity.
    + vm_compute. reflexivity.
  - eapply (proj2 (proj2 (merge_season_errors _ _ _))).
    + vm_compute. reflexivity.
    + apply list_elem_of_In. vm_compute. left. reflexivity.
    + vm_compute. reflexivity.
Defined.

Lemma load_from_file_edges_witness :
  load_from_file "/srv/crawler/src/output.json" 16 corrupt_config
  = (Raise (FileNotFoundError "/srv/crawler/src/output.json"), corrupt_config)
  ∧ (load_from_file "/srv/crawler/src/url.json" (-1) corrupt_config
     = (Return (universal_newlines "{ 2023-24: "), corrupt_config)
     ∧ file_read (-1) (universal_newlines "{ 2023-24: ")
       = Return (universal_newlines "{ 2023-24: ", ""))
  ∧ load_from_file "/srv/crawler/src/url.json" (- 2 ^ 63 - 1) corrupt_config
    = (Raise OverflowError, corrupt_config).
Proof.
  split; [|split].
  - apply (proj1 (load_from_file_edges "/srv/crawler/src/output.json"
                    corrupt_config)).
    vm_compute. reflexivity.
  - apply (proj2 (load_from_file_edges "/srv/crawler/src/url.json"
                    corrupt_config) "{ 2023-24: " (-1)%Z).
    + vm_compute. reflexivity.
    + unfold sys_maxsize. lia.
  - apply (proj2 (load_from_file_edges "/srv/crawler/src/url.json"
                    corrupt_config) "{ 2023-24: " (- 2 ^ 63 - 1)%Z).
    + vm_compute. reflexivity.
    + unfold sys_maxsize. lia.
Defined.

Lemma site_config_valid : @ValidConfig (collaborators site) site_config.
Proof. apply passes_ValidConfig. vm_compute. reflexivity. Qed.

(** The caches of the site are served as they are, on a dead network. *)
Lemma cache_hit_leaves_world_witness :
  @load_config (collaborators dead) [] cached_config
  = (Return site_config, cached_config)
  ∧ @load_data (collaborators dead) [] [] cached_data
    = (Return site_data, cached_data).
Proof.
  destruct (@cache_hit_leaves_world (collaborators dead)) as [Hconfig Hdata].
  split.
  - apply (Hconfig [] cached_config config_text site_config).
    + vm_compute. reflexivity.
    + vm_compute. reflexivity.
    + apply (@passes_ValidConfig (collaborators dead)). vm_compute. reflexivity.
  - apply (Hdata [] [] cached_data (dumps site_data) site_data).
    + vm_compute. reflexivity.
    + vm_compute. reflexivity.
Defined.

(** Nothing cached: each gate reports its file.  A config cache that is
    there, though of no use: the config gate reports nothing. *)
Lemma missing_cache_is_reported_witness :
  @load_config (collaborators site) [] fresh
  = @refresh_config (collaborators site) []
      (printed (miss_line "/srv/crawler/src/url.json") fresh)
  ∧ @load_data (collaborators site) [] [] fresh
    = @refresh_data (collaborators site) [] []
        (printed (miss_line "/srv/crawler/src/output.json") fresh)
  ∧ ∃ added,
      stdout (@load_config (collaborators site) [] corrupt_config).2
      = (stdout corrupt_config ++ added)%list
      ∧ miss_line (@CONFIG_FILENAME (collaborators site)) ∉ added.
Proof.
  destruct (@missing_cache_is_reported (collaborators site))
    as (Hconfig & Hdata & _ & _ & Hpresent & _).
  split_and!.
  - apply (Hconfig [] fresh). vm_compute. reflexivity.
  - apply (Hdata [] [] fresh). vm_compute. reflexivity.
  - apply (Hpresent [] corrupt_config). vm_compute. eexists. reflexivity.
Defined.

(** The site crawled once: a second run, under other schedules, returns
    the same values and leaves the world as the first run left it. *)
Lemma second_run_is_cached_witness :
  @load_config (collaborators site) [3]
    (@load_config (collaborators site) [] fresh).2
  = (Return site_config, (@load_config (collaborators site) [] fresh).2)
  ∧ @load_data (collaborators site) [1] [2]
      (@load_data (collaborators site) [] [] fresh).2
    = (Return site_data, (@load_data (collaborators site) [] [] fresh).2).
Proof.
  destruct (@second_run_is_cached (collaborators site)) as [Hconfig Hdata].
  split.
  - apply (Hconfig [] [3] fresh).
    + vm_compute. reflexivity.
    + vm_compute. reflexivity.
    + apply site_config_valid.
  - apply (Hdata [] [] [1] [2] fresh).
    + vm_compute. reflexivity.
    + vm_compute. reflexivity.
Defined.

(** Before the season the site lists the pre-season only: the config is
    cached, and resolved again at the next run. *)
Lemma unvalidated_config_is_resolved_again_witness :
  fs (@load_config (collaborators_more preseason) [] fresh).2
    !! "/srv/crawler/src/url.json"
  = Some (dumps preseason_config)
  ∧ @load_config (collaborators_more preseason) []
      (@load_config (collaborators_more preseason) [] fresh).2
    = @refresh_config (collaborators_more preseason) []
        (@load_config (collaborators_more preseason) [] fresh).2.
Proof.
  apply (@unvalidated_config_is_resolved_again (collaborators_more preseason)
           [] [] fresh _ preseason_config).
  - vm_compute. reflexivity.
  - vm_compute. reflexivity.
  - intros Hvalid.
    apply (@ValidConfig_passes (collaborators_more preseason)) in Hvalid.
    vm_compute in Hvalid. discriminate Hvalid.
Defined.

Lemma gates_touch_cache_files_only_witness :
  fs (@load_config (collaborators site) [] corrupt_data).2
    !! "/srv/crawler/src/output.json"
  = Some "{ 2023-24: "
  ∧ fs (@load_data (collaborators site) [] [] fresh).2
      !! "/srv/crawler/src/notes.txt"
    = None
  ∧ is_Some (fs (@load_config (collaborators dead) [] corrupt_config).2
               !! "/srv/crawler/src/url.json")
  ∧ is_Some (fs (@load_data (collaborators dead) [] [] corrupt_data).2
               !! "/srv/crawler/src/output.json").
Proof.
  destruct (@gates_touch_cache_files_only (collaborators site))
    as (Hconfig & Hdata & _ & _).
  destruct (@gates_touch_cache_files_only (collaborators dead))
    as (_ & _ & Hconfig_kept & Hdata_kept).
  split_and!.
  - rewrite (Hconfig [] corrupt_data "/srv/crawler/src/output.json").
    + vm_compute. reflexivity.
    + vm_compute. discriminate.
  - rewrite (Hdata [] [] fresh "/srv/crawler/src/notes.txt").
    + vm_compute. reflexivity.
    + vm_compute. discriminate.
    + vm_compute. discriminate.
  - apply (Hconfig_kept [] corrupt_config). vm_compute. eexists. reflexivity.
  - apply (Hdata_kept [] [] corrupt_data). vm_compute. eexists. reflexivity.
Defined.

(** The config is cached, the data are not: the data gate leaves the
    config cache as it is. *)
Lemma load_data_uses_cached_config_witness :
  fs (@load_data (collaborators site) [5] [] cached_config).2
    !! "/srv/crawler/src/url.json"
  = Some config_text.
Proof.
  apply (proj2 (@load_data_uses_cached_config (collaborators site) [5] []
                  cached_config
                  (FileNotFoundError "/srv/crawler/src/output.json")
                  config_text site_config
                  ltac:(vm_compute; reflexivity) eq_refl
                  ltac:(vm_compute; reflexivity)
                  ltac:(vm_compute; reflexivity)
                  site_config_valid)).
Defined.

(** The stat page of the site. *)
Lemma parse_webpage_returns_whole_table_witness :
  ∃ soup tbody,
    @get_soup (collaborators site) (record_url "2023-24" "001") 2 fresh
    = (Return soup, World ∅ [record_url "2023-24" "001"] [])
    ∧ find "tbody" soup = Some tbody
    ∧ ∀ row, row ∈ find_all "tr" tbody → @row_ok (collaborators site) row.
Proof.
  eapply (@parse_webpage_returns_whole_table (collaborators site)
            (record_url "2023-24" "001") "2023-24" "例行賽" fresh).
  vm_compute. reflexivity.
Defined.

Lemma parse_webpage_table_witness :
  ∃ database,
    @parse_webpage (collaborators site) (VStr (record_url "2023-24" "001"))
      "2023-24" "例行賽" fresh
    = (Return (VDict database, "2023-24", "例行賽"),
       World ∅ [record_url "2023-24" "001"] [])
    ∧ dict_get "王柏融" database
      = Some (VDict [("累計數據", site_stat "9" "富邦勇士" "30" "900");
                     ("平均數據", site_stat "9" "富邦勇士" "30" "30.0")])
    ∧ dict_get "林書豪" database = None.
Proof.
  destruct (@parse_webpage_table (collaborators site)
              (record_url "2023-24" "001") "2023-24" "例行賽" fresh
              (World ∅ [record_url "2023-24" "001"] []) stat_page
              (Tag "tbody" []
                 [Tag "tr" []
                    [Tag "th" [] [Tag "a" [("href", "/player/1")]
                                    [NavigableString " 王柏融 "]];
                     stat_cell "9" "9"; stat_cell "富邦勇士" "富邦勇士";
                     stat_cell "30" "30"; stat_cell "900" "30.0"]]))
    as (database & Hrun & Hrows).
  - vm_compute. reflexivity.
  - vm_compute. reflexivity.
  - intros row Hrow. apply list_elem_of_In in Hrow. vm_compute in Hrow.
    destruct Hrow as [<-|[]]. apply row_ok_intro.
    + eexists. vm_compute. reflexivity.
    + vm_compute. repeat (apply Forall_cons; split; [split; eexists; reflexivity|]).
      by apply Forall_nil.
  - exists database. split_and!; [exact Hrun| |].
    + rewrite Hrows. vm_compute. reflexivity.
    + rewrite Hrows. vm_compute. reflexivity.
Defined.

Lemma site_config_wf : config_wf site_config.
Proof.
  split.
  - apply NoDup_singleton.
  - intros season season_config Hget. simpl in Hget.
    destruct (String.eqb season "2023-24"); [|discriminate].
    injection Hget as <-. apply NoDup_singleton.
Qed.

(** The dataset of the site: its one season, with its one season type and
    the table of the page stored in the config. *)
Lemma resolve_data_stores_every_page_witness :
  ∃ database,
    @resolve_data (collaborators site) [] site_config fresh
    = (Return database, World ∅ [record_url "2023-24" "001"] [])
    ∧ dict_keys database = ["2023-24"]
    ∧ ∃ season_data,
        dict_get "2023-24" database = Some (VDict season_data)
        ∧ dict_keys season_data ≡ₚ ["例行賽"]
        ∧ ∀ season_type url,
            dict_get season_type
              [("例行賽", VStr (record_url "2023-24" "001"))] = Some url →
            ∃ data w0,
              (@parse_webpage (collaborators site) url "2023-24" season_type
                 w0).1
              = Return (data, "2023-24", season_type)
              ∧ dict_get season_type season_data = Some data.
Proof.
  exists [("2023-24",
           VDict [("例行賽",
                   VDict [("王柏融",
                           VDict [("累計數據", site_stat "9" "富邦勇士" "30" "900");
                                  ("平均數據", site_stat "9" "富邦勇士" "30" "30.0")])])])].
  split; [vm_compute; reflexivity|].
  destruct (@resolve_data_stores_every_page (collaborators site) []
              [("2023-24", VDict [("例行賽", VStr (record_url "2023-24" "001"))])]
              fresh (World ∅ [record_url "2023-24" "001"] [])
              [("2023-24",
                VDict [("例行賽",
                        VDict [("王柏融",
                                VDict [("累計數據", site_stat "9" "富邦勇士" "30" "900");
                                       ("平均數據", site_stat "9" "富邦勇士" "30" "30.0")])])])])
    as [Hkeys Hseasons].
  - apply site_config_wf.
  - vm_compute. reflexivity.
  - split; [exact Hkeys|].
    apply (Hseasons "2023-24"
             [("例行賽", VStr (record_url "2023-24" "001"))]).
    reflexivity.
Defined.

Lemma two_stage_config_wf : config_wf two_stage_config.
Proof.
  split.
  - apply NoDup_singleton.
  - intros season season_config Hget. simpl in Hget.
    destruct (String.eqb season "2023-24"); [|discriminate].
    injection Hget as <-. apply (bool_decide_unpack _). vm_compute. reflexivity.
Qed.

(** The season with its play-offs: two page tasks.  Under the schedule []
    the page of the season is stored first, under [1] the page of the
    play-offs: the datasets list the two season types in different orders
    and hold the same. *)
Lemma resolve_data_order_independent_witness :
  ∃ database',
    @resolve_data (collaborators_more two_stages) [1] two_stage_config fresh
    = (Return database',
       World ∅ [record_url "2023-24" "001"; record_url "2023-24" "002"] [])
    ∧ same_mapping2 two_stage_data database'.
Proof.
  apply (@resolve_data_order_independent (collaborators_more two_stages) [] [1]
           two_stage_config fresh).
  - apply two_stage_config_wf.
  - vm_compute. reflexivity.
Defined.

(** The two schedules do hand the two tasks out in different orders, and
    the datasets differ in the order of their season types. *)
Lemma two_stage_orders_differ :
  as_completed [] [1; 2] = [1; 2]
  ∧ as_completed [1] [1; 2] = [2; 1]
  ∧ (@resolve_data (collaborators_more two_stages) [] two_stage_config fresh).1
    = Return two_stage_data
  ∧ (@resolve_data (collaborators_more two_stages) [1] two_stage_config fresh).1
    ≠ Return two_stage_data.
Proof.
  split_and!; [reflexivity|reflexivity|vm_compute; reflexivity|].
  vm_compute. intros Heq. discriminate Heq.
Qed.

(** A config cache edited by hand: the data gate requests the URL it
    holds. *)
Lemma cached_urls_are_requested_witness :
  "https://example.org/elsewhere"
  ∈ requests (@load_data (collaborators site) [] [] edited_cache).2.
Proof.
  apply (@cached_urls_are_requested (collaborators site) [] [] edited_cache
           (FileNotFoundError "/srv/crawler/src/output.json")
           (dumps edited_config)
           [("2023-24", VDict [("例行賽", VStr "https://example.org/elsewhere")])]
           [("例行賽", VStr "https://example.org/elsewhere")]
           "2023-24" "例行賽").
  - vm_compute. reflexivity.
  - reflexivity.
  - vm_compute. reflexivity.
  - vm_compute. reflexivity.
  - apply (@passes_ValidConfig (collaborators site)). vm_compute. reflexivity.
  - vm_compute. reflexivity.
  - vm_compute. reflexivity.
Defined.

End more_scenarios.
